(** * Session lifecycle of the authentication client: a Rocq model

    The development follows the TypeScript sources of the front end:

    - [frontend/lib/api.ts]: the axios instance [api], its request
      interceptor (the Request Gateway) and its response interceptor (the
      Refresh Coordinator);
    - [frontend/contexts/AuthContext.tsx]: [AuthProvider] (the Session
      Context);
    - [frontend/components/ui/AuthGuard.tsx]: both variants of [AuthGuard]
      (the Route Guard);
    - the [SignupForm] component ([validateForm] and [handleSubmit]) and
      [components/login-form.tsx] ([LoginForm]);
    - the older copy of [api.ts], whose response interceptor has neither
      the [_retry] mark nor the queue;
    - of the back end: the cache middleware, the CORS origin check and
      the error middleware of [app.js], [db/index.js] and
      [generateContent].

    The server's controllers are not among the sources; the Credential
    Issuer and the Session Store are modelled from the specification, in
    [Server].

    Asynchronous code is modelled by explicit state passing: every
    suspension point ([await]) splits a function into the part that runs
    before it and the continuation that runs when the awaited promise
    settles, and the outcome of the awaited network call is an input of the
    continuation. *)

From Stdlib Require Import Ascii.
From stdpp Require Import gmap strings list fin_maps.

Open Scope string_scope.
Open Scope list_scope.
Open Scope nat_scope.

(** ** JavaScript values used by the sources *)

(** [if (s)] on a string: the empty string is the only falsy string. *)
Definition truthy (s : string) : bool :=
  match s with
  | EmptyString => false
  | String _ _ => true
  end.

(** [if (x)] on a value that is [null] or a string ([getItem] results). *)
Definition truthy_opt (o : option string) : bool :=
  match o with
  | Some s => truthy s
  | None => false
  end.

(** The template literal [`Bearer ${token}`]. *)
Definition bearer (token : string) : string := String.append "Bearer " token.

(** The rejection value of an axios promise, as far as the sources read
    it: the status of its response, if there is one
    ([error.response?.status]), and the message of the response body
    ([error.response?.data?.message]). *)
Record AxiosError := mkError {
  status : option nat;
  message : option string;
}.

Definition unauthorized : AxiosError :=
  {| status := Some 401; message := Some "Unauthorized request" |}.

(** A transport-level failure: there is no response. *)
Definition network_failure : AxiosError :=
  {| status := None; message := None |}.

(** What an awaited call comes back with. *)
Inductive Outcome (A : Type) :=
| Resolved (a : A)
| Thrown (e : AxiosError).

Arguments Resolved {A} a.
Arguments Thrown {A} e.

(** ** [localStorage] *)

Module Storage.

Definition getItem (k : string) (ls : gmap string string) : option string :=
  ls !! k.

Definition setItem (k v : string) (ls : gmap string string) : gmap string string :=
  <[k := v]> ls.

Definition removeItem (k : string) (ls : gmap string string) : gmap string string :=
  delete k ls.

End Storage.

(** ** The Request Gateway: [api.interceptors.request] *)

(** An axios request configuration, as far as the interceptors read or
    write it: the target, the header table and the custom [_retry] mark
    that the response interceptor sets on a request it has taken charge
    of.  A configuration that never went through the response interceptor
    has no [_retry] property, which reads as [false]. *)
Record Config := mkConfig {
  url : string;
  headers : gmap string string;
  _retry : bool;
}.

Definition set_header (k v : string) (config : Config) : Config :=
  {| url := url config;
     headers := <[k := v]> (headers config);
     _retry := _retry config |}.

Definition mark_retry (config : Config) : Config :=
  {| url := url config; headers := headers config; _retry := true |}.

Module Gateway.

(** <<
    api.interceptors.request.use((config) => {
      const token = localStorage.getItem("accessToken");
      if (token) {
        config.headers.Authorization = `Bearer ${token}`;
      }
      return config;
    });
    >> *)
Definition requestInterceptor (ls : gmap string string) (config : Config) : Config :=
  match Storage.getItem "accessToken" ls with
  | Some token =>
      if truthy token
      then set_header "Authorization" (bearer token) config
      else config
  | None => config
  end.

(** The claim about the gateway, word for word: a held credential is
    attached, and without one the request leaves with no Authorization
    header and is otherwise unmodified. *)
Definition attaches_as_stated (ls : gmap string string) (config : Config) : Prop :=
  let sent := requestInterceptor ls config in
  (∀ token, Storage.getItem "accessToken" ls = Some token →
     headers sent !! "Authorization" = Some (bearer token)) ∧
  (Storage.getItem "accessToken" ls = None →
     headers sent !! "Authorization" = None ∧
     url sent = url config ∧ _retry sent = _retry config ∧
     ∀ k, k ≠ "Authorization" → headers sent !! k = headers config !! k).

(** A request that already carries a header, as the replayed requests of
    the response interceptor do. *)
Definition preset_request : Config :=
  {| url := "/users/me";
     headers := {["Authorization" := bearer "stale"]};
     _retry := true |}.

End Gateway.

(** ** The Refresh Coordinator: [api.interceptors.response]

    The error handler of the response interceptor is an [async] function
    with one suspension point, [await axios.post(.../users/refresh-token)].
    The browser runs one task at a time, so the handler is modelled as a
    transition system over the module-level variables of [api.ts]: an
    event is the arrival of a response or the settling of the refresh
    call, and a step runs the handler (or its continuation) up to its next
    suspension point. *)

Module Coordinator.

(** Requests are named by a number; the number stands for the identity
    of the configuration object that [error.config] points to. *)
Definition ReqId := nat.

(** [error.response?.status === 401] *)
Definition is_401 (e : AxiosError) : bool :=
  match status e with
  | Some n => Nat.eqb n 401
  | None => false
  end.

(** Where the promise that the caller of a request holds stands. *)
Inductive Phase :=
| OnWire                       (* sent, response not yet delivered *)
| Queued                       (* the [new Promise] of line 43, waiting for its subscriber *)
| AwaitingRefresh              (* its handler is suspended at the [await] *)
| Fulfilled                    (* settled with a response *)
| Rejected (e : AxiosError).   (* settled with a failure *)

(** What the coordinator does to the outside, in the order it does it. *)
Inductive Action :=
| Sent (r : ReqId) (config : Config)      (* a caller's [api(config)] *)
| RefreshCall                             (* [axios.post(.../users/refresh-token)] *)
| Replayed (r : ReqId) (config : Config)  (* [api(originalRequest)] of the handler *)
| Failed (r : ReqId) (e : AxiosError)     (* [Promise.reject(e)] returned for [r] *)
| Dispatched (name : string)              (* [window.dispatchEvent(new CustomEvent(name))] *)
| Navigated (href : string).              (* [window.location.href = href] *)

Record State := mkState {
  localStorage : gmap string string;
  isRefreshing : bool;                    (* [let isRefreshing = false] *)
  refreshSubscribers : list ReqId;        (* the closures, each over its [originalRequest] and [resolve] *)
  configs : gmap ReqId Config;            (* the configuration objects *)
  suspended : list ReqId;                 (* handlers suspended at the [await] *)
  phase : gmap ReqId Phase;
  trace : list Action;
}.

Definition init (ls : gmap string string) : State :=
  {| localStorage := ls; isRefreshing := false; refreshSubscribers := [];
     configs := ∅; suspended := []; phase := ∅; trace := [] |}.

(** [api(config)]: the request interceptor runs on the configuration and
    the request goes on the wire.  axios merges the configuration it is
    given into a new object and keeps custom properties such as [_retry];
    [tag] tells a caller's request from a replay in the trace. *)
Definition api (tag : ReqId → Config → Action) (r : ReqId) (config : Config)
    (s : State) : State :=
  let sent := Gateway.requestInterceptor (localStorage s) config in
  {| localStorage := localStorage s;
     isRefreshing := isRefreshing s;
     refreshSubscribers := refreshSubscribers s;
     configs := <[r := sent]> (configs s);
     suspended := suspended s;
     phase := <[r := OnWire]> (phase s);
     trace := trace s ++ [tag r sent] |}.

(** The subscriber closure of lines 44-47, called with the new token:
    <<
    (token: string) => {
      originalRequest.headers.Authorization = `Bearer ${token}`;
      resolve(api(originalRequest));
    }
    >> *)
Definition subscriber (token : string) (s : State) (r : ReqId) : State :=
  match configs s !! r with
  | Some originalRequest =>
      api Replayed r (set_header "Authorization" (bearer token) originalRequest) s
  | None => s
  end.

(** <<
    function onTokenRefreshed(token: string) {
      refreshSubscribers.forEach((callback) => callback(token));
      refreshSubscribers = [];
    }
    >> *)
Definition onTokenRefreshed (token : string) (s : State) : State :=
  let s' := foldl (subscriber token) s (refreshSubscribers s) in
  {| localStorage := localStorage s';
     isRefreshing := isRefreshing s';
     refreshSubscribers := [];
     configs := configs s';
     suspended := suspended s';
     phase := phase s';
     trace := trace s' |}.

(** <<
    function addRefreshSubscriber(callback: (token: string) => void) {
      refreshSubscribers.push(callback);
    }
    >> *)
Definition addRefreshSubscriber (r : ReqId) (s : State) : State :=
  {| localStorage := localStorage s;
     isRefreshing := isRefreshing s;
     refreshSubscribers := refreshSubscribers s ++ [r];
     configs := configs s;
     suspended := suspended s;
     phase := phase s;
     trace := trace s |}.

Definition set_phase (r : ReqId) (p : Phase) (s : State) : State :=
  {| localStorage := localStorage s;
     isRefreshing := isRefreshing s;
     refreshSubscribers := refreshSubscribers s;
     configs := configs s;
     suspended := suspended s;
     phase := <[r := p]> (phase s);
     trace := trace s |}.

Definition emit (a : Action) (s : State) : State :=
  {| localStorage := localStorage s;
     isRefreshing := isRefreshing s;
     refreshSubscribers := refreshSubscribers s;
     configs := configs s;
     suspended := suspended s;
     phase := phase s;
     trace := trace s ++ [a] |}.

(** [return Promise.reject(e)] from the handler of [r]. *)
Definition reject (r : ReqId) (e : AxiosError) (s : State) : State :=
  emit (Failed r e) (set_phase r (Rejected e) s).

(** Removes the first occurrence of [r]: the handler of [r] resumes. *)
Fixpoint resume (r : ReqId) (l : list ReqId) : list ReqId :=
  match l with
  | [] => []
  | x :: l' => if Nat.eqb x r then l' else x :: resume r l'
  end.

Fixpoint occ (r : ReqId) (l : list ReqId) : nat :=
  match l with
  | [] => 0
  | x :: l' => (if Nat.eqb x r then 1 else 0) + occ r l'
  end.

(** The handler from its entry to its first suspension point or return
    (lines 35-58 and 81). *)
Definition on_error (r : ReqId) (e : AxiosError) (s : State) : State :=
  match configs s !! r with
  | None => s
  | Some originalRequest =>
      if is_401 e && negb (_retry originalRequest) then
        (* originalRequest._retry = true *)
        let s1 :=
          {| localStorage := localStorage s;
             isRefreshing := isRefreshing s;
             refreshSubscribers := refreshSubscribers s;
             configs := <[r := mark_retry originalRequest]> (configs s);
             suspended := suspended s;
             phase := phase s;
             trace := trace s |} in
        if isRefreshing s1 then
          set_phase r Queued (addRefreshSubscriber r s1)
        else
          (* isRefreshing = true; the refresh call is made and awaited *)
          {| localStorage := localStorage s1;
             isRefreshing := true;
             refreshSubscribers := refreshSubscribers s1;
             configs := configs s1;
             suspended := suspended s1 ++ [r];
             phase := <[r := AwaitingRefresh]> (phase s1);
             trace := trace s1 ++ [RefreshCall] |}
      else reject r e s
  end.

(** The continuation of the handler of [r] when the refresh call
    resolves with [accessToken] (lines 59-69). *)
Definition on_refreshed (r : ReqId) (accessToken : string) (s : State) : State :=
  match configs s !! r with
  | None => s
  | Some originalRequest =>
      (* localStorage.setItem("accessToken", accessToken);
         originalRequest.headers.Authorization = `Bearer ${accessToken}` *)
      let updated := set_header "Authorization" (bearer accessToken) originalRequest in
      let s1 :=
        {| localStorage := Storage.setItem "accessToken" accessToken (localStorage s);
           isRefreshing := isRefreshing s;
           refreshSubscribers := refreshSubscribers s;
           configs := <[r := updated]> (configs s);
           suspended := resume r (suspended s);
           phase := phase s;
           trace := trace s |} in
      let s2 := onTokenRefreshed accessToken s1 in
      (* isRefreshing = false; return api(originalRequest) *)
      let s3 :=
        {| localStorage := localStorage s2;
           isRefreshing := false;
           refreshSubscribers := refreshSubscribers s2;
           configs := configs s2;
           suspended := suspended s2;
           phase := phase s2;
           trace := trace s2 |} in
      api Replayed r updated s3
  end.

(** The [catch (refreshError)] block (lines 70-79). *)
Definition on_refresh_failed (r : ReqId) (refreshError : AxiosError) (s : State) : State :=
  let s1 :=
    {| localStorage := Storage.removeItem "accessToken" (localStorage s);
       isRefreshing := false;
       refreshSubscribers := [];
       configs := configs s;
       suspended := resume r (suspended s);
       phase := phase s;
       trace := trace s ++ [Dispatched "auth:tokenExpired"] |} in
  reject r refreshError s1.

(** What can happen next. *)
Inductive Event :=
| Call (r : ReqId) (config : Config)              (* a caller issues a new request *)
| Response (r : ReqId)                            (* a request on the wire succeeds *)
| Failure (r : ReqId) (e : AxiosError)            (* a request on the wire fails *)
| RefreshResolved (r : ReqId) (accessToken : string)
| RefreshRejected (r : ReqId) (refreshError : AxiosError).

Definition on_wire (r : ReqId) (s : State) : bool :=
  match phase s !! r with
  | Some OnWire => true
  | _ => false
  end.

Definition is_suspended (r : ReqId) (s : State) : bool :=
  match occ r (suspended s) with
  | O => false
  | S _ => true
  end.

(** One step.  An event that cannot happen in the state (a response for
    a request that is not on the wire, the settling of a refresh call
    nobody awaits, a request number used twice) leaves it unchanged. *)
Definition step (s : State) (ev : Event) : State :=
  match ev with
  | Call r config =>
      match configs s !! r with
      | None => api Sent r config s
      | Some _ => s
      end
  | Response r =>
      (* (response) => response *)
      if on_wire r s then set_phase r Fulfilled s else s
  | Failure r e =>
      if on_wire r s then on_error r e s else s
  | RefreshResolved r accessToken =>
      if is_suspended r s then on_refreshed r accessToken s else s
  | RefreshRejected r refreshError =>
      if is_suspended r s then on_refresh_failed r refreshError s else s
  end.

Definition run (s : State) (evs : list Event) : State := foldl step s evs.

(** Observations on the trace. *)
Definition is_refresh_call (a : Action) : bool :=
  match a with RefreshCall => true | _ => false end.

Definition is_replay_of (r : ReqId) (a : Action) : bool :=
  match a with Replayed r' _ => Nat.eqb r' r | _ => false end.

Fixpoint count (f : Action → bool) (l : list Action) : nat :=
  match l with
  | [] => 0
  | a :: l' => (if f a then 1 else 0) + count f l'
  end.

Definition refresh_calls (s : State) : nat := count is_refresh_call (trace s).
Definition replays (r : ReqId) (s : State) : nat := count (is_replay_of r) (trace s).

(** The promise of [r] has settled. *)
Definition settled (r : ReqId) (s : State) : bool :=
  match phase s !! r with
  | Some Fulfilled | Some (Rejected _) => true
  | _ => false
  end.

End Coordinator.

(** ** The interceptor without the [_retry] mark

    The repository holds a second copy of [api.ts] whose response
    interceptor has neither the mark nor the queue:
    <<
    async (error) => {
      if (error.response?.status === 401) {
        try {
          const refreshResponse = await axios.post(.../users/refresh-token);
          const { accessToken } = refreshResponse.data.data;
          localStorage.setItem("accessToken", accessToken);
          error.config.headers.Authorization = `Bearer ${accessToken}`;
          return api.request(error.config);
        } catch (refreshError) {
          window.location.href = "/login";
        }
      }
      return Promise.reject(error);
    }
    >>
    It runs over the same state; a suspended handler keeps its [error]. *)

Module Legacy.

Import Coordinator.

Definition on_error (r : ReqId) (e : AxiosError) (s : State) : State :=
  if is_401 e then
    {| localStorage := localStorage s;
       isRefreshing := isRefreshing s;
       refreshSubscribers := refreshSubscribers s;
       configs := configs s;
       suspended := suspended s ++ [r];
       phase := <[r := AwaitingRefresh]> (phase s);
       trace := trace s ++ [RefreshCall] |}
  else reject r e s.

Definition on_refreshed (r : ReqId) (accessToken : string) (s : State) : State :=
  match configs s !! r with
  | None => s
  | Some config =>
      let s1 :=
        {| localStorage := Storage.setItem "accessToken" accessToken (localStorage s);
           isRefreshing := isRefreshing s;
           refreshSubscribers := refreshSubscribers s;
           configs := configs s;
           suspended := resume r (suspended s);
           phase := phase s;
           trace := trace s |} in
      api Replayed r (set_header "Authorization" (bearer accessToken) config) s1
  end.

Definition on_refresh_failed (r : ReqId) (error : AxiosError) (s : State) : State :=
  let s1 :=
    {| localStorage := localStorage s;
       isRefreshing := isRefreshing s;
       refreshSubscribers := refreshSubscribers s;
       configs := configs s;
       suspended := resume r (suspended s);
       phase := phase s;
       trace := trace s ++ [Navigated "/login"] |} in
  reject r error s1.

(** In this variant the settling of the refresh call carries the error
    that the suspended handler was entered with. *)
Definition step (s : State) (ev : Event) : State :=
  match ev with
  | Call r config =>
      match configs s !! r with
      | None => api Sent r config s
      | Some _ => s
      end
  | Response r => if on_wire r s then set_phase r Fulfilled s else s
  | Failure r e => if on_wire r s then on_error r e s else s
  | RefreshResolved r accessToken =>
      if is_suspended r s then on_refreshed r accessToken s else s
  | RefreshRejected r error =>
      if is_suspended r s then on_refresh_failed r error s else s
  end.

Definition run (s : State) (evs : list Event) : State := foldl step s evs.

End Legacy.

(** ** One call through [api]

    [authAPI.login], [authAPI.signup], [authAPI.logout] and
    [authAPI.getCurrentUser] send their request with [api.post] or
    [api.get], so a failed answer passes through the response interceptor
    before the [await] of the caller sees anything.  The request is a new
    one and carries no [_retry] mark, so with a 401 answer the interceptor
    takes charge of it (lines 38-80 of [api.ts]); every other failure is
    handed on as it is (line 81). *)

Module Transport.

(** What the interceptor does for the call, after the request itself. *)
Inductive Action :=
| RefreshCall                       (* [axios.post(.../users/refresh-token)] *)
| Replay (accessToken : string)     (* [api(originalRequest)], with [Bearer accessToken] *)
| Dispatch (name : string).         (* [window.dispatchEvent(new CustomEvent(name))] *)

(** What follows a 401 answer.  When [isRefreshing] is false the handler
    of the call makes the refresh call itself; when it is true the request
    is queued behind the refresh call of another handler. *)
Inductive Retry (A : Type) :=
| RefreshFails (refreshError : AxiosError)
    (* its own refresh call rejects: the [catch] block *)
| RefreshReplays (accessToken : string) (replayed : Outcome A)
    (* its own refresh call resolves; [replayed] is the answer to the replay *)
| QueuedReplays (accessToken : string) (replayed : Outcome A)
    (* queued; the other handler's refresh call resolves and
       [onTokenRefreshed] runs the subscriber *)
| QueuedDropped.
    (* queued; the other handler's refresh call rejects and its [catch]
       block empties the queue *)

Arguments RefreshFails {A} refreshError.
Arguments RefreshReplays {A} accessToken replayed.
Arguments QueuedReplays {A} accessToken replayed.
Arguments QueuedDropped {A}.

(** The call as its caller sees it: [localStorage] afterwards, what the
    interceptor did, and what the awaited promise settles with ([None]
    when it never settles). *)
Record Result (A : Type) := mkResult {
  storage : gmap string string;
  actions : list Action;
  outcome : option (Outcome A);
}.

Arguments mkResult {A} storage actions outcome.
Arguments storage {A} r.
Arguments actions {A} r.
Arguments outcome {A} r.

(** [answer] is the answer of the server to the request.  A replay
    carries the mark, so its answer, a second 401 included, is what the
    caller gets.  The function sums up the steps that the coordinator
    takes for the one request (lemmas [call_alone] and [call_queued]). *)
Definition call {A : Type} (answer : Outcome A) (retry : Retry A)
    (ls : gmap string string) : Result A :=
  match answer with
  | Resolved a =>
      {| storage := ls; actions := []; outcome := Some (Resolved a) |}
  | Thrown error =>
      if Coordinator.is_401 error then
        match retry with
        | RefreshFails refreshError =>
            {| storage := Storage.removeItem "accessToken" ls;
               actions := [RefreshCall; Dispatch "auth:tokenExpired"];
               outcome := Some (Thrown refreshError) |}
        | RefreshReplays accessToken replayed =>
            {| storage := Storage.setItem "accessToken" accessToken ls;
               actions := [RefreshCall; Replay accessToken];
               outcome := Some replayed |}
        | QueuedReplays accessToken replayed =>
            {| storage := Storage.setItem "accessToken" accessToken ls;
               actions := [Replay accessToken];
               outcome := Some replayed |}
        | QueuedDropped =>
            {| storage := Storage.removeItem "accessToken" ls;
               actions := [];
               outcome := None |}
        end
      else
        {| storage := ls; actions := []; outcome := Some (Thrown error) |}
  end.

End Transport.

(** ** The Session Context: [AuthProvider] *)

(** [interface User] of [types/auth.ts]. *)
Record User := mkUser {
  _id : string;
  username : string;
  email : string;
  fullName : string;
  avatar : string;
  coverImage : option string;
  createdAt : string;
  updatedAt : string;
}.

Module Session.

(** The two [useState] cells of [AuthProvider] and the [localStorage] that
    its operations write. *)
Record Client := mkClient {
  user : option User;
  isLoading : bool;
  storage : gmap string string;
}.

(** [useState<User | null>(null)], [useState(true)] *)
Definition mount (ls : gmap string string) : Client :=
  {| user := None; isLoading := true; storage := ls |}.

(** [isAuthenticated: !!user] *)
Definition isAuthenticated (c : Client) : bool :=
  match user c with
  | Some _ => true
  | None => false
  end.

Definition setUser (u : option User) (c : Client) : Client :=
  {| user := u; isLoading := isLoading c; storage := storage c |}.

Definition setIsLoading (b : bool) (c : Client) : Client :=
  {| user := user c; isLoading := b; storage := storage c |}.

Definition setStorage (ls : gmap string string) (c : Client) : Client :=
  {| user := user c; isLoading := isLoading c; storage := ls |}.

(** Each operation awaits one call of [authAPI]; the function below is
    the operation from the point where that call has settled, with the
    outcome of the call as its first argument and the state of the client
    at that moment as its last.  The result of the operation is the
    outcome of the promise it returns.

    <<
    const checkAuthStatus = async () => {
      try {
        const response = await authAPI.getCurrentUser();
        setUser(response.data);
      } catch (error) {
        setUser(null);
      } finally {
        setIsLoading(false);
      }
    };
    >> *)
Definition checkAuthStatus (probe : Outcome (option User)) (c : Client) : Client :=
  let c1 :=
    match probe with
    | Resolved data => setUser data c
    | Thrown _ => setUser None c
    end in
  setIsLoading false c1.

(** <<
    const login = async (data) => {
      const response = await authAPI.login(data);
      const { user, accessToken } = response.data;
      setUser(user);
      localStorage.setItem('accessToken', accessToken);
    };
    >> *)
Definition login (response : Outcome (User * string)) (c : Client)
    : Client * Outcome unit :=
  match response with
  | Resolved (u, accessToken) =>
      (setStorage (Storage.setItem "accessToken" accessToken (storage c))
         (setUser (Some u) c),
       Resolved tt)
  | Thrown e => (c, Thrown e)
  end.

(** [signup] has the body of [login], over [authAPI.signup(formData)]. *)
Definition signup (response : Outcome (User * string)) (c : Client)
    : Client * Outcome unit :=
  match response with
  | Resolved (u, accessToken) =>
      (setStorage (Storage.setItem "accessToken" accessToken (storage c))
         (setUser (Some u) c),
       Resolved tt)
  | Thrown e => (c, Thrown e)
  end.

(** <<
    const logout = async () => {
      await authAPI.logout();
      setUser(null);
      localStorage.removeItem('accessToken');
    };
    >> *)
Definition logout (response : Outcome unit) (c : Client) : Client * Outcome unit :=
  match response with
  | Resolved _ =>
      (setStorage (Storage.removeItem "accessToken" (storage c)) (setUser None c),
       Resolved tt)
  | Thrown e => (c, Thrown e)
  end.

(** The client is in the unauthenticated state the specification
    describes for a completed logout or forced sign-out. *)
Definition signed_out (c : Client) : Prop :=
  user c = None ∧
  Storage.getItem "accessToken" (storage c) = None ∧
  isAuthenticated c = false.

(** [window]'s listener table: the event type and the handler of every
    [addEventListener] call. *)
Definition Listeners := list (string * (Client → Client)).

(** [window.dispatchEvent(new CustomEvent(name))]: every listener
    registered for [name] runs, in registration order. *)
Definition dispatchEvent (name : string) (ls : Listeners) (c : Client) : Client :=
  foldl (λ c l, if String.eqb (fst l) name then snd l c else c) c ls.

(** The listeners that [AuthProvider] registers.  Its only effect is
    [useEffect(() => { checkAuthStatus(); }, [])]; the component calls
    [addEventListener] nowhere. *)
Definition listeners : Listeners := [].

End Session.

(** ** The signup form: [validateForm] and [handleSubmit] *)

Module SignupForm.

(** A [File] picked in an input, by its name. *)
Record File := mkFile { name : string }.

(** [if (formData.avatar)]: a [File] object is truthy, [null] is not. *)
Definition picked (f : option File) : bool :=
  match f with
  | Some _ => true
  | None => false
  end.

(** The [formData] state cell. *)
Record FormState := mkForm {
  f_username : string;
  f_email : string;
  f_password : string;
  f_fullName : string;
  f_avatar : option File;
  f_coverImage : option File;
}.

(** <<
    const newErrors: Record<string, string> = {};
    if (!formData.username) newErrors.username = 'Username is required';
    if (!formData.email) newErrors.email = 'Email is required';
    if (!formData.password) newErrors.password = 'Password is required';
    if (!formData.fullName) newErrors.fullName = 'Full name is required';
    if (!formData.avatar) newErrors.avatar = 'Avatar is required';
    >> *)
Definition newErrors (fd : FormState) : gmap string string :=
  let e0 : gmap string string := ∅ in
  let e1 := if truthy (f_username fd) then e0 else <["username" := "Username is required"]> e0 in
  let e2 := if truthy (f_email fd) then e1 else <["email" := "Email is required"]> e1 in
  let e3 := if truthy (f_password fd) then e2 else <["password" := "Password is required"]> e2 in
  let e4 := if truthy (f_fullName fd) then e3 else <["fullName" := "Full name is required"]> e3 in
  if picked (f_avatar fd) then e4 else <["avatar" := "Avatar is required"]> e4.

(** [return Object.keys(newErrors).length === 0;] *)
Definition validateForm (fd : FormState) : bool :=
  Nat.eqb (size (newErrors fd)) 0.

(** A field of a multipart body. *)
Inductive Part :=
| Text (value : string)
| Blob (file : File).

(** A [FormData] object: its entries in the order of the [append] calls. *)
Definition FormData := list (string * Part).

(** <<
    formDataToSend.append('username', formData.username);
    formDataToSend.append('email', formData.email);
    formDataToSend.append('password', formData.password);
    formDataToSend.append('fullName', formData.fullName);
    if (formData.avatar) formDataToSend.append('avatar', formData.avatar);
    if (formData.coverImage) formDataToSend.append('coverImage', formData.coverImage);
    >> *)
Definition formDataToSend (fd : FormState) : FormData :=
  ([("username", Text (f_username fd)); ("email", Text (f_email fd));
    ("password", Text (f_password fd)); ("fullName", Text (f_fullName fd))]
   ++ match f_avatar fd with Some a => [("avatar", Blob a)] | None => [] end
   ++ match f_coverImage fd with Some a => [("coverImage", Blob a)] | None => [] end).

(** What a submission does outside the component: the request of
    [authAPI.signup], what the response interceptor does for it, and the
    navigation. *)
Inductive Effect :=
| Post (path : string) (contentType : string) (body : FormData)
| Api (a : Transport.Action)
| Push (path : string).

(** The component after a submission: the [errors] and [isLoading] cells,
    the session, and the effects in order. *)
Record Submitted := mkSubmitted {
  errors : gmap string string;
  isLoading : bool;
  client : Session.Client;
  effects : list Effect;
}.

(** <<
    const handleSubmit = async (e: React.FormEvent) => {
      e.preventDefault();
      if (!validateForm()) return;
      setIsLoading(true);
      try {
        ... formDataToSend ...
        await signup(formDataToSend);
        router.push('/dashboard');
      } catch (error: any) {
        setErrors({ general: error.response?.data?.message || 'Signup failed' });
      } finally {
        setIsLoading(false);
      }
    };
    >>
    [register] is the answer of the server to the multipart request that
    [authAPI.signup] posts to [/users/register], and [retry] is what
    follows when that answer is a 401; [loading] is the [isLoading] cell
    before the submission ([validateForm] overwrites the [errors] cell in
    every case).  When the promise of the call never settles, neither
    [catch] nor [finally] runs and [isLoading] stays set. *)
Definition handleSubmit (register : FormData → Outcome (User * string))
    (retry : Transport.Retry (User * string))
    (fd : FormState) (loading : bool) (c : Session.Client)
    : Submitted :=
  if negb (validateForm fd) then
    {| errors := newErrors fd; isLoading := loading; client := c; effects := [] |}
  else
    let body := formDataToSend fd in
    let sent := Transport.call (register body) retry (Session.storage c) in
    let wire :=
      Post "/users/register" "multipart/form-data" body
        :: map Api (Transport.actions sent) in
    let c1 := Session.setStorage (Transport.storage sent) c in
    match Transport.outcome sent with
    | None =>
        {| errors := newErrors fd; isLoading := true; client := c1; effects := wire |}
    | Some response =>
        match Session.signup response c1 with
        | (c', Resolved _) =>
            {| errors := newErrors fd; isLoading := false; client := c';
               effects := wire ++ [Push "/dashboard"] |}
        | (c', Thrown error) =>
            let general :=
              match message error with
              | Some m => if truthy m then m else "Signup failed"
              | None => "Signup failed"
              end in
            {| errors := {["general" := general]}; isLoading := false; client := c';
               effects := wire |}
        end
    end.

(** A required text field is missing when it is the empty string, the
    avatar when no file was picked. *)
Definition missing_required (fd : FormState) : Prop :=
  f_username fd = "" ∨ f_email fd = "" ∨ f_password fd = "" ∨
  f_fullName fd = "" ∨ f_avatar fd = None.

(** Every required field is there. *)
Definition all_present (fd : FormState) : Prop :=
  f_username fd ≠ "" ∧ f_email fd ≠ "" ∧ f_password fd ≠ "" ∧
  f_fullName fd ≠ "" ∧ is_Some (f_avatar fd).

End SignupForm.

(** ** The Route Guard: [AuthGuard]

    [AuthGuard.tsx] exists in two copies.  The first keeps a
    [hasRedirected] ref and navigates with [router.replace]; the second
    has no ref and navigates with [router.push].  Both return the same
    elements.  An effect runs after the first render and after every
    render in which one of its dependencies differs from the previous
    render; the effects of one render run in the order of their
    declaration. *)

Module AuthGuard.

Inductive Variant :=
| WithRef     (* the copy with [const hasRedirected = useRef(false)] *)
| Plain.      (* the copy without it *)

(** What one render reads: the props, the router object (by identity) and
    the two values taken from [useAuth()]. *)
Record Inputs := mkInputs {
  requireAuth : bool;
  redirectTo : string;
  router : nat;
  isAuthenticated : bool;
  isLoading : bool;
}.

Inductive Rendered :=
| Placeholder   (* the spinner, or [<div>Loading...</div>] *)
| Nothing       (* [return null] *)
| Children.     (* [<>{children}</>] *)

Inductive Navigation :=
| Replace (path : string)   (* [router.replace(path)] *)
| Push (path : string).     (* [router.push(path)] *)

(** What React keeps for a mounted guard: the ref and the dependency
    arrays of the previous render ([None] before the first one). *)
Record Instance := mkInstance {
  hasRedirected : bool;
  deps_redirect : option Inputs;   (* [isAuthenticated, isLoading, requireAuth, redirectTo, router] *)
  deps_reset : option bool;        (* [isAuthenticated] *)
}.

Definition unmounted : Instance :=
  {| hasRedirected := false; deps_redirect := None; deps_reset := None |}.

(** [Object.is] on every entry of the first dependency array. *)
Definition same_deps (a b : Inputs) : bool :=
  Bool.eqb (isAuthenticated a) (isAuthenticated b) &&
  Bool.eqb (isLoading a) (isLoading b) &&
  Bool.eqb (requireAuth a) (requireAuth b) &&
  String.eqb (redirectTo a) (redirectTo b) &&
  Nat.eqb (router a) (router b).

Definition changed {A : Type} (same : A → A → bool) (previous : option A) (now : A) : bool :=
  match previous with
  | None => true
  | Some p => negb (same p now)
  end.

(** <<
    if (isLoading) { return <placeholder/>; }
    if (requireAuth && !isAuthenticated) { return null; }
    if (!requireAuth && isAuthenticated) { return null; }
    return <>{children}</>;
    >> *)
Definition element (i : Inputs) : Rendered :=
  if isLoading i then Placeholder
  else if requireAuth i && negb (isAuthenticated i) then Nothing
  else if negb (requireAuth i) && isAuthenticated i then Nothing
  else Children.

(** The first effect of the copy with the ref:
    <<
    if (!isLoading && !hasRedirected.current) {
      if (requireAuth && !isAuthenticated) {
        hasRedirected.current = true;
        router.replace(redirectTo);
      } else if (!requireAuth && isAuthenticated) {
        hasRedirected.current = true;
        router.replace('/dashboard');
      }
    }
    >> *)
Definition redirect_effect_ref (i : Inputs) (flag : bool) : bool * list Navigation :=
  if negb (isLoading i) && negb flag then
    if requireAuth i && negb (isAuthenticated i) then (true, [Replace (redirectTo i)])
    else if negb (requireAuth i) && isAuthenticated i then (true, [Replace "/dashboard"])
    else (flag, [])
  else (flag, []).

(** The effect of the copy without the ref:
    <<
    if (!isLoading) {
      if (requireAuth && !isAuthenticated) { router.push(redirectTo); }
      else if (!requireAuth && isAuthenticated) { router.push('/dashboard'); }
    }
    >> *)
Definition redirect_effect_plain (i : Inputs) : list Navigation :=
  if negb (isLoading i) then
    if requireAuth i && negb (isAuthenticated i) then [Push (redirectTo i)]
    else if negb (requireAuth i) && isAuthenticated i then [Push "/dashboard"]
    else []
  else [].

(** The effects of one render.  In the copy with the ref the second
    effect, [hasRedirected.current = false] on [[isAuthenticated]], runs
    after the first. *)
Definition commit (v : Variant) (i : Inputs) (inst : Instance) : Instance * list Navigation :=
  let run_redirect := changed same_deps (deps_redirect inst) i in
  match v with
  | WithRef =>
      let after_redirect :=
        if run_redirect then redirect_effect_ref i (hasRedirected inst)
        else (hasRedirected inst, []) in
      let run_reset := changed Bool.eqb (deps_reset inst) (isAuthenticated i) in
      ({| hasRedirected := if run_reset then false else fst after_redirect;
          deps_redirect := Some i;
          deps_reset := Some (isAuthenticated i) |},
       snd after_redirect)
  | Plain =>
      ({| hasRedirected := hasRedirected inst;
          deps_redirect := Some i;
          deps_reset := deps_reset inst |},
       if run_redirect then redirect_effect_plain i else [])
  end.

(** One render: the element returned and the navigations of its effects. *)
Definition render (v : Variant) (i : Inputs) (inst : Instance)
    : Instance * (Rendered * list Navigation) :=
  let '(inst', nav) := commit v i inst in
  (inst', (element i, nav)).

(** A sequence of renders of one mounted guard. *)
Fixpoint renders (v : Variant) (inst : Instance) (inputs : list Inputs)
    : list (Rendered * list Navigation) :=
  match inputs with
  | [] => []
  | i :: inputs' =>
      let '(inst', out) := render v i inst in
      out :: renders v inst' inputs'
  end.

(** The instance after a sequence of renders. *)
Fixpoint after (v : Variant) (inst : Instance) (inputs : list Inputs) : Instance :=
  match inputs with
  | [] => inst
  | i :: inputs' => after v (fst (render v i inst)) inputs'
  end.

(** The navigation call of each copy. *)
Definition navigate (v : Variant) (path : string) : Navigation :=
  match v with
  | WithRef => Replace path
  | Plain => Push path
  end.

End AuthGuard.

(** ** The Credential Issuer and the Session Store *)

Module Server.

Inductive Kind := Access | Refresh.

(** Modelled from the spec: a credential of the Credential Pair (the
    server's token code is not among the sources).  A credential is bound
    to an identity, has a fixed lifetime and a signature that verifies or
    not; [serial] tells two credentials minted for one identity apart. *)
Record Token := mkToken {
  kind : Kind;
  subject : nat;
  serial : nat;
  expires : nat;
  genuine : bool;
}.

#[global] Instance Kind_eq_dec : EqDecision Kind.
Proof. solve_decision. Defined.

#[global] Instance Token_eq_dec : EqDecision Token.
Proof. solve_decision. Defined.

(** Modelled from the spec: [AuthError(expired|invalid|revoked)]. *)
Inductive AuthError := TokenExpired | TokenInvalid | TokenRevoked.

(** Modelled from the spec: the Session Store with the Issuer's mint
    counter (the server's user model is not among the sources).  The store
    associates an identity with at most one refresh credential. *)
Record Issuer := mkIssuer {
  store : gmap nat Token;
  minted : nat;
}.

(** Modelled from the spec: [get(identityId) -> refresh credential | absent]. *)
Definition get (id : nat) (st : Issuer) : option Token := store st !! id.

(** Modelled from the spec: [set(identityId, token)]. *)
Definition set (id : nat) (t : Token) (st : Issuer) : Issuer :=
  {| store := <[id := t]> (store st); minted := minted st |}.

(** Modelled from the spec: [clear(identityId)]. *)
Definition clear (id : nat) (st : Issuer) : Issuer :=
  {| store := delete id (store st); minted := minted st |}.

Section Lifetimes.

Variables access_ttl refresh_ttl : nat.

(** Modelled from the spec: [issue(identity) -> CredentialPair] generates
    the two credentials bound to the identity and writes the refresh
    credential into the Session Record, overwriting the prior value. *)
Definition issue (now id : nat) (st : Issuer) : (Token * Token) * Issuer :=
  let access :=
    {| kind := Access; subject := id; serial := minted st;
       expires := now + access_ttl; genuine := true |} in
  let refresh :=
    {| kind := Refresh; subject := id; serial := S (minted st);
       expires := now + refresh_ttl; genuine := true |} in
  ((access, refresh),
   set id refresh {| store := store st; minted := 2 + minted st |}).

End Lifetimes.

(** Modelled from the spec: [verifyRefresh(token) -> identity id | fails
    AuthError(expired|invalid|revoked)]; it additionally fails [revoked]
    if the presented token does not match the stored Session Record
    value. *)
Definition verifyRefresh (now : nat) (t : Token) (st : Issuer) : AuthError + nat :=
  if negb (genuine t) || negb (bool_decide (kind t = Refresh)) then inl TokenInvalid
  else if expires t <=? now then inl TokenExpired
  else match get (subject t) st with
       | Some current =>
           if bool_decide (current = t) then inr (subject t) else inl TokenRevoked
       | None => inl TokenRevoked
       end.

(** Modelled from the spec: [revoke(identityId)] clears the Session
    Record (logout). *)
Definition revoke (id : nat) (st : Issuer) : Issuer := clear id st.

(** What the server does between two moments: logins and logouts of any
    identity. *)
Inductive Op :=
| Login (now id : nat)
| Logout (id : nat).

Definition apply (access_ttl refresh_ttl : nat) (st : Issuer) (op : Op) : Issuer :=
  match op with
  | Login now id => snd (issue access_ttl refresh_ttl now id st)
  | Logout id => revoke id st
  end.

End Server.

(** ** The login form: [validateForm] and [handleSubmit] of [LoginForm] *)

Module LoginForm.

(** The [formData] state cell. *)
Record FormState := mkForm {
  f_username : string;
  f_email : string;
  f_password : string;
}.

(** [useState({ username: '', email: '', password: '' })] *)
Definition initial : FormState :=
  {| f_username := ""; f_email := ""; f_password := "" |}.

(** The [name] attributes of the inputs that the form renders: one
    text input named [username] (labelled "Username or Email") and the
    password input.  No input is named [email]. *)
Definition rendered_inputs : list string := ["username"; "password"].

(** <<
    const handleChange = (e) => {
      const { name, value } = e.target;
      setFormData(prev => ({ ...prev, [name]: value }));
      if (errors[name]) {
        setErrors(prev => ({ ...prev, [name]: '' }));
      }
    };
    >>
    On the form data: a name other than the three keys adds a property
    that nothing reads. *)
Definition handleChange_form (name value : string) (fd : FormState) : FormState :=
  if String.eqb name "username" then
    {| f_username := value; f_email := f_email fd; f_password := f_password fd |}
  else if String.eqb name "email" then
    {| f_username := f_username fd; f_email := value; f_password := f_password fd |}
  else if String.eqb name "password" then
    {| f_username := f_username fd; f_email := f_email fd; f_password := value |}
  else fd.

(** On the [errors] cell. *)
Definition handleChange_errors (name : string) (errors : gmap string string)
    : gmap string string :=
  if truthy_opt (errors !! name) then <[name := ""]> errors else errors.

(** <<
    const newErrors: Record<string, string> = {};
    if (!formData.username && !formData.email) {
      newErrors.username = 'Username or email is required';
      newErrors.email = 'Username or email is required';
    }
    if (!formData.password) {
      newErrors.password = 'Password is required';
    }
    >> *)
Definition newErrors (fd : FormState) : gmap string string :=
  let e0 : gmap string string := ∅ in
  let e1 :=
    if negb (truthy (f_username fd)) && negb (truthy (f_email fd))
    then <["email" := "Username or email is required"]>
           (<["username" := "Username or email is required"]> e0)
    else e0 in
  if negb (truthy (f_password fd)) then <["password" := "Password is required"]> e1 else e1.

(** [return Object.keys(newErrors).length === 0;] *)
Definition validateForm (fd : FormState) : bool :=
  Nat.eqb (size (newErrors fd)) 0.

(** The argument of [login]: a field that is [undefined] is [None].
    <<
    { username: formData.username || undefined,
      email: formData.email || undefined,
      password: formData.password }
    >> *)
Record Credentials := mkCredentials {
  c_username : option string;
  c_email : option string;
  c_password : string;
}.

Definition or_undefined (s : string) : option string :=
  if truthy s then Some s else None.

Definition credentials (fd : FormState) : Credentials :=
  {| c_username := or_undefined (f_username fd);
     c_email := or_undefined (f_email fd);
     c_password := f_password fd |}.

(** What a submission does outside the component: [authAPI.login] posts
    its argument to [/users/login], the response interceptor may act on
    the answer, and the form navigates. *)
Inductive Effect :=
| Post (path : string) (body : Credentials)
| Api (a : Transport.Action)
| Push (path : string).

Record Submitted := mkSubmitted {
  errors : gmap string string;
  isLoading : bool;
  client : Session.Client;
  effects : list Effect;
}.

(** <<
    const handleSubmit = async (e: React.FormEvent) => {
      e.preventDefault();
      if (!validateForm()) return;
      setIsLoading(true);
      try {
        await login({ ... });
        router.push('/dashboard');
      } catch (error: any) {
        setErrors({ general: error.response?.data?.message || 'Login failed' });
      } finally {
        setIsLoading(false);
      }
    };
    >>
    [server] is the answer to the request that [authAPI.login] posts and
    [retry] is what follows when that answer is a 401; [loading] is the
    [isLoading] cell before the submission.  When the promise of the call
    never settles, neither [catch] nor [finally] runs and [isLoading]
    stays set. *)
Definition handleSubmit (server : Credentials → Outcome (User * string))
    (retry : Transport.Retry (User * string))
    (fd : FormState) (loading : bool) (c : Session.Client) : Submitted :=
  if negb (validateForm fd) then
    {| errors := newErrors fd; isLoading := loading; client := c; effects := [] |}
  else
    let body := credentials fd in
    let sent := Transport.call (server body) retry (Session.storage c) in
    let wire := Post "/users/login" body :: map Api (Transport.actions sent) in
    let c1 := Session.setStorage (Transport.storage sent) c in
    match Transport.outcome sent with
    | None =>
        {| errors := newErrors fd; isLoading := true; client := c1; effects := wire |}
    | Some response =>
        match Session.login response c1 with
        | (c', Resolved _) =>
            {| errors := newErrors fd; isLoading := false; client := c';
               effects := wire ++ [Push "/dashboard"] |}
        | (c', Thrown error) =>
            let general :=
              match message error with
              | Some m => if truthy m then m else "Login failed"
              | None => "Login failed"
              end in
            {| errors := {["general" := general]}; isLoading := false; client := c';
               effects := wire |}
        end
    end.

(** The form after the user has typed: one change event per entry, each
    from a rendered input. *)
Definition typed (changes : list (string * string)) (fd : FormState) : FormState :=
  foldl (λ fd change, handleChange_form (fst change) (snd change) fd) fd changes.

End LoginForm.

(** ** The signup form: [handleChange] and [handleFileChange] *)

Module SignupInputs.

Import SignupForm.

(** The text inputs of the form, by their [name]. *)
Inductive TextInput := Username | Email | Password | FullName.

(** The file inputs of the form, by their [name]. *)
Inductive FileInput := Avatar | CoverImage.

Definition text_name (i : TextInput) : string :=
  match i with
  | Username => "username"
  | Email => "email"
  | Password => "password"
  | FullName => "fullName"
  end.

Definition file_name (i : FileInput) : string :=
  match i with
  | Avatar => "avatar"
  | CoverImage => "coverImage"
  end.

(** The [formData] and [errors] cells together. *)
Record Cells := mkCells {
  form : FormState;
  errs : gmap string string;
}.

(** [setFormData(prev => ({ ...prev, [name]: value }))] for a text input. *)
Definition set_text (i : TextInput) (value : string) (fd : FormState) : FormState :=
  match i with
  | Username =>
      {| f_username := value; f_email := f_email fd; f_password := f_password fd;
         f_fullName := f_fullName fd; f_avatar := f_avatar fd;
         f_coverImage := f_coverImage fd |}
  | Email =>
      {| f_username := f_username fd; f_email := value; f_password := f_password fd;
         f_fullName := f_fullName fd; f_avatar := f_avatar fd;
         f_coverImage := f_coverImage fd |}
  | Password =>
      {| f_username := f_username fd; f_email := f_email fd; f_password := value;
         f_fullName := f_fullName fd; f_avatar := f_avatar fd;
         f_coverImage := f_coverImage fd |}
  | FullName =>
      {| f_username := f_username fd; f_email := f_email fd; f_password := f_password fd;
         f_fullName := value; f_avatar := f_avatar fd;
         f_coverImage := f_coverImage fd |}
  end.

(** [setFormData(prev => ({ ...prev, [name]: files[0] }))] for a file input. *)
Definition set_file (i : FileInput) (file : File) (fd : FormState) : FormState :=
  match i with
  | Avatar =>
      {| f_username := f_username fd; f_email := f_email fd; f_password := f_password fd;
         f_fullName := f_fullName fd; f_avatar := Some file;
         f_coverImage := f_coverImage fd |}
  | CoverImage =>
      {| f_username := f_username fd; f_email := f_email fd; f_password := f_password fd;
         f_fullName := f_fullName fd; f_avatar := f_avatar fd;
         f_coverImage := Some file |}
  end.

(** <<
    const handleChange = (e) => {
      const { name, value } = e.target;
      setFormData(prev => ({ ...prev, [name]: value }));
      if (errors[name]) {
        setErrors(prev => ({ ...prev, [name]: '' }));
      }
    };
    >> *)
Definition handleChange (i : TextInput) (value : string) (c : Cells) : Cells :=
  {| form := set_text i value (form c);
     errs := if truthy_opt (errs c !! text_name i)
             then <[text_name i := ""]> (errs c)
             else errs c |}.

(** <<
    const handleFileChange = (e) => {
      const { name, files } = e.target;
      if (files && files[0]) {
        setFormData(prev => ({ ...prev, [name]: files[0] }));
      }
    };
    >>
    [files] is the selection of the input: empty when it is [null] or an
    empty [FileList]. *)
Definition handleFileChange (i : FileInput) (files : list File) (c : Cells) : Cells :=
  match files with
  | file :: _ => {| form := set_file i file (form c); errs := errs c |}
  | [] => c
  end.

(** What the user does to the form between two submissions. *)
Inductive Edit :=
| Type_ (i : TextInput) (value : string)
| Pick (i : FileInput) (files : list File).

Definition edit (c : Cells) (e : Edit) : Cells :=
  match e with
  | Type_ i value => handleChange i value c
  | Pick i files => handleFileChange i files c
  end.

(** The message that the form shows under an input:
    [{errors.avatar && <p>{errors.avatar}</p>}]. *)
Definition shown (key : string) (c : Cells) : option string :=
  match errs c !! key with
  | Some m => if truthy m then Some m else None
  | None => None
  end.

(** A failed [validateForm] writes its errors into the cell. *)
Definition validated (c : Cells) : Cells :=
  {| form := form c; errs := newErrors (form c) |}.

End SignupInputs.

(** ** The response cache: [cache] and [clearCache] of the cache middleware *)

Module Cache.

(** An entry of [memoryCache]: the body passed to [res.json] and the
    [Date.now()] of that call, in milliseconds. *)
Record Entry := mkEntry {
  data : string;
  timestamp : Z;
}.

(** [Date.now() - cachedResponse.timestamp < duration] *)
Definition fresh (duration now : Z) (e : Entry) : bool :=
  (now - timestamp e <? duration)%Z.

(** The middleware up to its [return res.json(...)] or its [next()]:
    <<
    const key = req.originalUrl;
    const cachedResponse = memoryCache.get(key);
    if (cachedResponse && Date.now() - cachedResponse.timestamp < duration) {
      return res.json(cachedResponse.data);
    }
    >>
    [Some body] is the cached body sent back; [None] passes the request
    on. *)
Definition cached (duration now : Z) (key : string) (m : gmap string Entry)
    : option string :=
  match m !! key with
  | Some e => if fresh duration now e then Some (data e) else None
  | None => None
  end.

(** The [res.json] that the middleware installs before [next()]:
    <<
    res.json = (data) => {
      memoryCache.set(key, { data, timestamp: Date.now() });
      return originalJson(data);
    };
    >> *)
Definition json (key body : string) (now : Z) (m : gmap string Entry)
    : gmap string Entry :=
  <[key := {| data := body; timestamp := now |}]> m.

(** One request through [cache(duration)].  [handler] is what the rest
    of the chain does with the request: [Some (body, at)] when it calls
    [res.json(body)] at time [at], [None] when it never calls it.  The
    result is the cache afterwards and the body sent with [res.json], if
    any. *)
Definition cache (duration now : Z) (key : string) (handler : option (string * Z))
    (m : gmap string Entry) : gmap string Entry * option string :=
  match cached duration now key m with
  | Some body => (m, Some body)
  | None =>
      match handler with
      | Some (body, at_) => (json key body at_ m, Some body)
      | None => (m, None)
      end
  end.

(** [key.includes(pattern)] *)
Fixpoint includes (pattern key : string) : bool :=
  String.prefix pattern key ||
  match key with
  | EmptyString => false
  | String _ rest => includes pattern rest
  end.

(** <<
    export const clearCache = (pattern = null) => {
      if (pattern) {
        for (const key of memoryCache.keys()) {
          if (key.includes(pattern)) { memoryCache.delete(key); }
        }
      } else {
        memoryCache.clear();
      }
    };
    >> *)
Definition clearCache (pattern : option string) (m : gmap string Entry)
    : gmap string Entry :=
  match pattern with
  | Some p =>
      if truthy p
      then filter (λ kv, includes p (fst kv) = false) m
      else ∅
  | None => ∅
  end.

End Cache.

(** ** The CORS origin check of [app.js] *)

Module Cors.

Definition allowedOrigins : list string :=
  ["http://localhost:3000"; "http://localhost:3001";
   "http://127.0.0.1:3000"; "http://127.0.0.1:3001"].

(** [allowedOrigins.includes(origin)] *)
Definition listed (origin : string) : bool :=
  existsb (String.eqb origin) allowedOrigins.

(** [\d]: an ASCII digit. *)
Definition is_digit (c : Ascii.ascii) : bool :=
  (48 <=? Ascii.nat_of_ascii c) && (Ascii.nat_of_ascii c <=? 57).

Fixpoint all_digits (s : string) : bool :=
  match s with
  | EmptyString => true
  | String c rest => is_digit c && all_digits rest
  end.

(** What is left of [s] after the prefix [p], if [s] starts with it. *)
Fixpoint strip (p s : string) : option string :=
  match p with
  | EmptyString => Some s
  | String a p' =>
      match s with
      | String b s' => if Ascii.eqb a b then strip p' s' else None
      | EmptyString => None
      end
  end.

(** [origin.match(/^http:\/\/localhost:\d+$/)]: the origin is
    [http://localhost:] followed by one or more digits and nothing else. *)
Definition localhost_port (origin : string) : bool :=
  match strip "http://localhost:" origin with
  | Some port => truthy port && all_digits port
  | None => false
  end.

(** <<
    origin: function (origin, callback) {
      if (!origin) return callback(null, true);
      ...
      if (allowedOrigins.includes(origin)) { return callback(null, true); }
      if (origin.match(/^http:\/\/localhost:\d+$/)) { return callback(null, true); }
      return callback(new Error('Not allowed by CORS'));
    }
    >>
    [true] is [callback(null, true)]; [None] is a request without an
    Origin header. *)
Definition origin (o : option string) : bool :=
  match o with
  | None => true
  | Some org =>
      if negb (truthy org) then true
      else if listed org then true
      else if localhost_port org then true
      else false
  end.

End Cors.

(** ** The JSON extraction of [generateContent] *)

Module Content.

(** The suffix of [s] that starts at its first opening brace. *)
Fixpoint from_open (s : string) : option string :=
  match s with
  | EmptyString => None
  | String c rest => if Ascii.eqb c "{"%char then Some s else from_open rest
  end.

(** The prefix of [s] that ends at its last closing brace. *)
Fixpoint to_close (s : string) : option string :=
  match s with
  | EmptyString => None
  | String c rest =>
      match to_close rest with
      | Some t => Some (String c t)
      | None => if Ascii.eqb c "}"%char then Some (String c EmptyString) else None
      end
  end.

(** [text.match(/\{[\s\S]*\}/)]: the match starts at the first opening
    brace that has a closing brace after it, which is the first opening
    brace of the text when there is a match at all, and the greedy
    [[\s\S]*] runs to the last closing brace. *)
Definition jsonMatch (text : string) : option string :=
  match from_open text with
  | Some s => to_close s
  | None => None
  end.

(** The errors that the function throws inside its [try]. *)
Inductive Failure :=
| ModelFailed       (* [model.generateContent] or [response.text()] threw *)
| Truncated         (* an opening brace and no match *)
| NoJson            (* no brace at all *)
| ParseFailed.      (* [JSON.parse] threw *)

Definition failure_message (f : Failure) : option string :=
  match f with
  | ModelFailed => None
  | Truncated =>
      Some "Response truncated - JSON incomplete. Try reducing prompt size or increasing token limit."
  | NoJson => Some "No JSON found in AI response"
  | ParseFailed => Some "Failed to parse JSON response - response may be incomplete"
  end.

Section Parser.

(** [JSON.parse]: [None] when it throws. *)
Variables (Json : Type) (parse : string → option Json).

(** The body of the outer [try], from the text of the model's response:
    <<
    let jsonMatch = text.match(/\{[\s\S]*\}/);
    if (!jsonMatch) {
      const startMatch = text.match(/\{/);
      if (startMatch) { throw new Error("Response truncated ..."); }
      throw new Error("No JSON found in AI response");
    }
    try { generatedContent = JSON.parse(jsonMatch[0]); }
    catch (parseError) { throw new Error("Failed to parse JSON response ..."); }
    return generatedContent;
    >> *)
Definition extract (text : string) : Failure + Json :=
  match jsonMatch text with
  | None =>
      match from_open text with
      | Some _ => inl Truncated
      | None => inl NoJson
      end
  | Some m =>
      match parse m with
      | Some content => inr content
      | None => inl ParseFailed
      end
  end.

(** The whole function: the outer [catch] logs the error and the
    function returns [undefined] ([None]).  [response] is the text that the
    model answers with, [None] when the call throws. *)
Definition generateContent (response : option string) : option Json :=
  match response with
  | None => None
  | Some text =>
      match extract text with
      | inr content => Some content
      | inl _ => None
      end
  end.

End Parser.

End Content.

(** ** [databaseConnection] *)

Module Database.

(** A template literal hole filled with an environment variable that
    may be unset. *)
Definition interpolate (v : option string) : string :=
  match v with
  | Some s => s
  | None => "undefined"
  end.

(** [`${process.env.MONGODB_URI}/${DATABASE_NAME}`]; [DATABASE_NAME]
    comes from [constants.js], which is not among the sources. *)
Definition connectionString (MONGODB_URI : option string) (DATABASE_NAME : string)
    : string :=
  String.append (interpolate MONGODB_URI) (String.append "/" DATABASE_NAME).

(** <<
    try {
      const connectionString = `${process.env.MONGODB_URI}/${DATABASE_NAME}`;
      if (!connectionString) {
        throw new Error('MONGODB_URI environment variclsable is not defined');
      }
      const connection = await mongoose.connect(connectionString);
      ...
    } catch (err) { console.error(...); throw err; }
    >>
    [connect] is [mongoose.connect]: [None] when it resolves, the message
    of the error otherwise.  The result is the message of the error that
    the function throws, if it throws. *)
Definition databaseConnection (MONGODB_URI : option string) (DATABASE_NAME : string)
    (connect : string → option string) : option string :=
  let cs := connectionString MONGODB_URI DATABASE_NAME in
  if negb (truthy cs)
  then Some "MONGODB_URI environment variclsable is not defined"
  else connect cs.

End Database.

(** ** The error-handling middleware of [app.js] *)

Module ErrorHandler.

(** The fields of an [ApiError] that the handler reads. *)
Record ApiFields := mkApi {
  a_statusCode : nat;
  a_success : bool;
  a_errors : list string;
}.

(** An error as the handler reads it.  [validation] and [keys] are
    [None] when the expression throws (a [TypeError]: [err.errors] or
    [err.keyValue] is undefined or null). *)
Record Err := mkErr {
  api : option ApiFields;          (* [err instanceof ApiError] *)
  name : string;                   (* [err.name] *)
  code : option Z;                 (* [err.code] *)
  message : string;                (* [err.message] *)
  validation : option (list string);
                                   (* [Object.values(err.errors).map(val => val.message)] *)
  keys : option (list string);     (* [Object.keys(err.keyValue)] *)
  stack : string;
}.

Record Body := mkBody {
  success : bool;
  statusCode : nat;
  b_message : string;
  errors : list string;
  b_stack : option string;
}.

Record Response := mkResponse {
  http_status : nat;     (* [res.status(...)] *)
  body : Body;           (* [.json(...)] *)
}.

(** [...(process.env.NODE_ENV === 'development' && { stack: err.stack })] *)
Definition with_stack (NODE_ENV : option string) (err : Err) : option string :=
  match NODE_ENV with
  | Some env => if String.eqb env "development" then Some (stack err) else None
  | None => None
  end.

(** [`${field}`] with [field = Object.keys(err.keyValue)[0]]. *)
Definition field (ks : list string) : string :=
  match ks with
  | k :: _ => k
  | [] => "undefined"
  end.

(** The middleware; [None] when it throws itself instead of answering. *)
Definition handle (NODE_ENV : option string) (err : Err) : option Response :=
  match api err with
  | Some a =>
      Some {| http_status := a_statusCode a;
              body := {| success := a_success a; statusCode := a_statusCode a;
                         b_message := message err; errors := a_errors a;
                         b_stack := with_stack NODE_ENV err |} |}
  | None =>
      if String.eqb (name err) "ValidationError" then
        match validation err with
        | Some errors_ =>
            Some {| http_status := 400;
                    body := {| success := false; statusCode := 400;
                               b_message := "Validation Error"; errors := errors_;
                               b_stack := None |} |}
        | None => None
        end
      else if bool_decide (code err = Some 11000%Z) then
        match keys err with
        | Some ks =>
            Some {| http_status := 409;
                    body := {| success := false; statusCode := 409;
                               b_message := String.append (field ks) " already exists";
                               errors := [String.append (field ks) " must be unique"];
                               b_stack := None |} |}
        | None => None
        end
      else if String.eqb (name err) "JsonWebTokenError" then
        Some {| http_status := 401;
                body := {| success := false; statusCode := 401;
                           b_message := "Invalid token"; errors := ["Token is invalid"];
                           b_stack := None |} |}
      else if String.eqb (name err) "TokenExpiredError" then
        Some {| http_status := 401;
                body := {| success := false; statusCode := 401;
                           b_message := "Token expired"; errors := ["Token has expired"];
                           b_stack := None |} |}
      else
        Some {| http_status := 500;
                body := {| success := false; statusCode := 500;
                           b_message :=
                             if bool_decide (NODE_ENV = Some "production")
                             then "Something went wrong" else message err;
                           errors := ["Internal server error"];
                           b_stack := with_stack NODE_ENV err |} |}
  end.

End ErrorHandler.

(** * Notions used in the statements *)

(** ** A signed-in client *)

Definition alice : User :=
  {| _id := "u1"; username := "alice"; email := "alice@example.org";
     fullName := "Alice"; avatar := "a.png"; coverImage := None;
     createdAt := "2024-01-01"; updatedAt := "2024-01-01" |}.

(** A signed-in client: identity cached, credential stored. *)
Definition alice_client : Session.Client :=
  {| Session.user := Some alice; Session.isLoading := false;
     Session.storage := {["accessToken" := "t0"]} |}.

(** ** Two signup submissions *)

(** Every field filled in and an avatar picked. *)
Definition complete_form : SignupForm.FormState :=
  {| SignupForm.f_username := "alice"; SignupForm.f_email := "alice@example.org";
     SignupForm.f_password := "secret"; SignupForm.f_fullName := "Alice";
     SignupForm.f_avatar := Some {| SignupForm.name := "a.png" |};
     SignupForm.f_coverImage := None |}.

(** The same without the avatar. *)
Definition form_without_avatar : SignupForm.FormState :=
  {| SignupForm.f_username := "alice"; SignupForm.f_email := "alice@example.org";
     SignupForm.f_password := "secret"; SignupForm.f_fullName := "Alice";
     SignupForm.f_avatar := None; SignupForm.f_coverImage := None |}.

(** A server that registers whoever asks as [alice]. *)
Definition registers_alice (body : SignupForm.FormData) : Outcome (User * string) :=
  Resolved (alice, "t1").

(** ** The inputs of a guard on a protected page *)

(** The guard of a protected page as the Session Context shows it while
    the probe is pending ... *)
Definition guard_loading (target : string) (the_router : nat) (authenticated : bool)
    : AuthGuard.Inputs :=
  {| AuthGuard.requireAuth := true; AuthGuard.redirectTo := target;
     AuthGuard.router := the_router;
     AuthGuard.isAuthenticated := authenticated; AuthGuard.isLoading := true |}.

(** ... and once the probe has resolved without an identity. *)
Definition guard_resolved (target : string) (the_router : nat) : AuthGuard.Inputs :=
  {| AuthGuard.requireAuth := true; AuthGuard.redirectTo := target;
     AuthGuard.router := the_router;
     AuthGuard.isAuthenticated := false; AuthGuard.isLoading := false |}.

(** What holds of a guard that has only rendered under loading. *)
Definition guard_pristine (target : string) (the_router : nat)
    (inst : AuthGuard.Instance) : Prop :=
  AuthGuard.hasRedirected inst = false ∧
  (AuthGuard.deps_redirect inst = None ∨
   ∃ a, AuthGuard.deps_redirect inst = Some (guard_loading target the_router a)).

(** ** States and runs of the coordinator *)

Section CoordinatorNotions.

Import Coordinator.

(** How many replays a request is still entitled to: one once it is
    marked, none before. *)
Definition budget (s : State) (r : ReqId) : nat :=
  match configs s !! r with
  | Some config => if _retry config then 1 else 0
  | None => 0
  end.

(** The part of the state that a replay does not touch. *)
Definition same_control (s s' : State) : Prop :=
  localStorage s' = localStorage s ∧ isRefreshing s' = isRefreshing s ∧
  refreshSubscribers s' = refreshSubscribers s ∧ suspended s' = suspended s.

(** Every replay a request has had or is waiting for (as a subscriber or
    as the suspended handler) is paid for by its [_retry] mark; one
    handler is suspended while [isRefreshing] is set and none otherwise;
    subscribers wait only while it is set. *)
Definition inv (s : State) : Prop :=
  (∀ r, replays r s + occ r (refreshSubscribers s) + occ r (suspended s) ≤ budget s r) ∧
  length (suspended s) = (if isRefreshing s then 1 else 0) ∧
  (isRefreshing s = false → refreshSubscribers s = []).

(** The promise of [q] waits for a subscriber that is in no queue. *)
Definition stranded (q : ReqId) (s : State) : Prop :=
  phase s !! q = Some Queued ∧
  occ q (refreshSubscribers s) = 0 ∧
  occ q (suspended s) = 0 ∧
  is_Some (configs s !! q).

(** Every subscriber in the queue stands for a pending promise. *)
Definition queue_pending (s : State) : Prop :=
  ∀ q, 1 ≤ occ q (refreshSubscribers s) → phase s !! q = Some Queued.

(** The requests of [rs] are on the wire and unmarked, each once: what
    [N] concurrent requests sent with the expired credential look like
    when their 401 responses start to arrive. *)
Definition outstanding (rs : list ReqId) (s : State) : Prop :=
  NoDup rs ∧
  ∀ r, r ∈ rs →
       on_wire r s = true ∧
       (∃ config, configs s !! r = Some config ∧ _retry config = false).

(** Their 401 responses, in order of arrival. *)
Definition burst (rs : list ReqId) : list Event :=
  map (λ r, Failure r unauthorized) rs.

(** [a] is the replay of [r], sent with the credential [token]. *)
Definition replay_with (token : string) (r : ReqId) (a : Action) : Prop :=
  ∃ config, a = Replayed r config ∧
            headers config !! "Authorization" = Some (bearer token).

(** The coordinator between the last 401 of a burst and the settling of
    the refresh call: [r0], whose 401 came first, awaits the call, and
    the requests of [rs] wait in the queue. *)
Definition mid_cycle (s : State) (r0 : ReqId) (rs : list ReqId) (s1 : State) : Prop :=
  isRefreshing s1 = true ∧
  refreshSubscribers s1 = rs ∧
  suspended s1 = [r0] ∧
  trace s1 = trace s ++ [RefreshCall] ∧
  localStorage s1 = localStorage s ∧
  phase s1 !! r0 = Some AwaitingRefresh ∧
  (∀ r, r ∈ rs → phase s1 !! r = Some Queued) ∧
  (∀ r, r ∈ r0 :: rs → is_Some (configs s1 !! r)).

End CoordinatorNotions.

(** A request as a caller issues it. *)
Definition plain_request : Config :=
  {| url := "/users/me"; headers := ∅; _retry := false |}.

(** Three requests go on the wire. *)
Definition three_calls : list Coordinator.Event :=
  [Coordinator.Call 1 plain_request; Coordinator.Call 2 plain_request;
   Coordinator.Call 3 plain_request].

(** Two requests are answered 401: request 1 makes the refresh call and
    awaits it, request 2 waits in the queue. *)
Definition two_waiting : list Coordinator.Event :=
  [Coordinator.Call 1 plain_request; Coordinator.Call 2 plain_request;
   Coordinator.Failure 1 unauthorized; Coordinator.Failure 2 unauthorized].

(** A whole cycle of three requests, the refresh call resolving. *)
Definition finished_cycle : list Coordinator.Event :=
  three_calls ++ burst [1; 2; 3] ++ [Coordinator.RefreshResolved 1 "fresh"].

(** ** Runs without a 401 *)

(** The event is not a 401 failure. *)
Definition no_401 (ev : Coordinator.Event) : Prop :=
  match ev with
  | Coordinator.Failure _ e => Coordinator.is_401 e = false
  | _ => True
  end.

(** The coordinator has never had anything to do. *)
Definition untouched (ls : gmap string string) (s : Coordinator.State) : Prop :=
  Coordinator.refresh_calls s = 0 ∧
  Coordinator.localStorage s = ls ∧
  Coordinator.isRefreshing s = false ∧
  Coordinator.suspended s = [] ∧
  Coordinator.refreshSubscribers s = [] ∧
  ∀ r, Coordinator.replays r s = 0.

(** A server error and two kinds of failure that are not a 401. *)
Definition server_error : AxiosError :=
  {| status := Some 500; message := Some "Something went wrong" |}.

Definition calm_run : list Coordinator.Event :=
  [Coordinator.Call 1 plain_request; Coordinator.Call 2 plain_request;
   Coordinator.Failure 1 server_error; Coordinator.Failure 2 network_failure].

(** The rounds of a request that is answered 401 after every refresh. *)
Definition rounds (r : Coordinator.ReqId) (token : string) (k : nat)
    : list Coordinator.Event :=
  concat (replicate k [Coordinator.Failure r unauthorized;
                       Coordinator.RefreshResolved r token]).

(** ** A guard on any page *)

(** What a guard with fixed props and router reads in one render. *)
Definition guard_inputs (requireAuth : bool) (target : string) (the_router : nat)
    (authenticated loading : bool) : AuthGuard.Inputs :=
  {| AuthGuard.requireAuth := requireAuth; AuthGuard.redirectTo := target;
     AuthGuard.router := the_router;
     AuthGuard.isAuthenticated := authenticated; AuthGuard.isLoading := loading |}.

(** What the guard reads from the Session Context:
    [const { isAuthenticated, isLoading } = useAuth();] *)
Definition session_inputs (requireAuth : bool) (target : string) (the_router : nat)
    (c : Session.Client) : AuthGuard.Inputs :=
  guard_inputs requireAuth target the_router
    (Session.isAuthenticated c) (Session.isLoading c).

(** Where a guard sends the wrong audience: [redirectTo] from a
    protected page, ['/dashboard'] from a page for anonymous users. *)
Definition destination (requireAuth : bool) (target : string) : string :=
  if requireAuth then target else "/dashboard".

(** The page is not for this user: [requireAuth] and [isAuthenticated]
    differ. *)
Definition wrong_audience (i : AuthGuard.Inputs) : bool :=
  negb (Bool.eqb (AuthGuard.requireAuth i) (AuthGuard.isAuthenticated i)).

(** A guard that has rendered only while the context was loading. *)
Definition only_loaded (inst : AuthGuard.Instance) : Prop :=
  AuthGuard.hasRedirected inst = false ∧
  (AuthGuard.deps_redirect inst = None ∨
   ∃ i, AuthGuard.deps_redirect inst = Some i ∧ AuthGuard.isLoading i = true).

(** A guard with the ref that has redirected and whose reset effect
    last saw [authenticated]. *)
Definition has_redirected (authenticated : bool) (inst : AuthGuard.Instance) : Prop :=
  AuthGuard.hasRedirected inst = true ∧
  AuthGuard.deps_reset inst = Some authenticated.

(** ** Inputs of the forms *)

(** Every change event comes from an input that the login form renders. *)
Definition from_rendered_inputs (changes : list (string * string)) : Prop :=
  Forall (λ change, fst change ∈ LoginForm.rendered_inputs) changes.

(** The user types an e-mail address and a password into the login form. *)
Definition typed_email : list (string * string) :=
  [("username", "alice@example.org"); ("password", "secret")].

(** What [error.response?.data?.message || fallback] shows. *)
Definition message_or (fallback : string) (e : AxiosError) : string :=
  match message e with
  | Some m => if truthy m then m else fallback
  | None => fallback
  end.

(** A server that refuses every registration. *)
Definition refuses (body : SignupForm.FormData) : Outcome (User * string) :=
  Thrown {| status := Some 409; message := Some "email already exists" |}.

(** The signup form after a submission without an avatar. *)
Definition rejected_cells : SignupInputs.Cells :=
  SignupInputs.validated
    {| SignupInputs.form := form_without_avatar; SignupInputs.errs := ∅ |}.

(** A guard with the ref whose flag is clear and whose reset effect
    last saw [authenticated]. *)
Definition armed (authenticated : bool) (inst : AuthGuard.Instance) : Prop :=
  AuthGuard.hasRedirected inst = false ∧
  AuthGuard.deps_reset inst = Some authenticated.

(** How many navigations a sequence of renders makes. *)
Definition navigations (outs : list (AuthGuard.Rendered * list AuthGuard.Navigation))
    : nat :=
  length (concat (map snd outs)).

(** An anonymous visitor on a protected page: the context resolves, and
    then the target, the router and the loading flag all change. *)
Definition restless_renders : list AuthGuard.Inputs :=
  [guard_inputs true "/login" 0 false false;
   guard_inputs true "/signin" 1 false false;
   guard_inputs true "/login" 0 false true;
   guard_inputs true "/login" 2 false false].

(** ** Strings *)

(** [c] occurs in [s]. *)
Fixpoint occurs (c : Ascii.ascii) (s : string) : bool :=
  match s with
  | EmptyString => false
  | String a rest => Ascii.eqb a c || occurs c rest
  end.

(** A cached answer to [/api/v1/users] and one to [/api/v1/posts]. *)
Definition two_entries : gmap string Cache.Entry :=
  {[ "/api/v1/users" := {| Cache.data := "[alice]"; Cache.timestamp := 1000%Z |};
     "/api/v1/posts" := {| Cache.data := "[hello]"; Cache.timestamp := 2000%Z |} ]}.

(** The errors that none of the special cases of the error middleware
    takes. *)
Definition unclassified (err : ErrorHandler.Err) : Prop :=
  ErrorHandler.api err = None ∧
  ErrorHandler.name err ≠ "ValidationError" ∧
  ErrorHandler.code err ≠ Some 11000%Z ∧
  ErrorHandler.name err ≠ "JsonWebTokenError" ∧
  ErrorHandler.name err ≠ "TokenExpiredError".

(** Two errors that differ at most in their message and their stack. *)
Definition same_but_message (e1 e2 : ErrorHandler.Err) : Prop :=
  ErrorHandler.api e1 = ErrorHandler.api e2 ∧
  ErrorHandler.name e1 = ErrorHandler.name e2 ∧
  ErrorHandler.code e1 = ErrorHandler.code e2 ∧
  ErrorHandler.validation e1 = ErrorHandler.validation e2 ∧
  ErrorHandler.keys e1 = ErrorHandler.keys e2.

(** A plain [Error] with the given message, as a driver throws it. *)
Definition plain_error (msg : string) : ErrorHandler.Err :=
  {| ErrorHandler.api := None; ErrorHandler.name := "Error";
     ErrorHandler.code := None; ErrorHandler.message := msg;
     ErrorHandler.validation := None; ErrorHandler.keys := None;
     ErrorHandler.stack := "Error: " +:+ msg +:+ " at app.js" |}.

(** ** One call and the coordinator *)

(** Where the promise of a call stands, given what it settles with. *)
Definition promise_of {A : Type} (o : option (Outcome A)) : Coordinator.Phase :=
  match o with
  | Some (Resolved _) => Coordinator.Fulfilled
  | Some (Thrown e) => Coordinator.Rejected e
  | None => Coordinator.Queued
  end.

(** The arrival of an answer to request [r]. *)
Definition arrives {A : Type} (r : Coordinator.ReqId) (answer : Outcome A)
    : Coordinator.Event :=
  match answer with
  | Resolved _ => Coordinator.Response r
  | Thrown e => Coordinator.Failure r e
  end.

(** One call as events of the coordinator: the request [r] is sent and
    answered, and after a 401 the refresh call settles, the one of the
    handler of [r] or, for a queued request, the one of the handler of
    [other] (failing with [otherError] when the queue is dropped). *)
Definition exchange {A : Type} (r other : Coordinator.ReqId) (config : Config)
    (answer : Outcome A) (retry : Transport.Retry A) (otherError : AxiosError)
    : list Coordinator.Event :=
  Coordinator.Call r config :: arrives r answer ::
  match answer with
  | Resolved _ => []
  | Thrown e =>
      if Coordinator.is_401 e then
        match retry with
        | Transport.RefreshFails refreshError =>
            [Coordinator.RefreshRejected r refreshError]
        | Transport.RefreshReplays accessToken replayed =>
            [Coordinator.RefreshResolved r accessToken; arrives r replayed]
        | Transport.QueuedReplays accessToken replayed =>
            [Coordinator.RefreshResolved other accessToken; arrives r replayed]
        | Transport.QueuedDropped =>
            [Coordinator.RefreshRejected other otherError]
        end
      else []
  end.

(** The handler of the call makes the refresh call itself. *)
Definition refreshes_itself {A : Type} (retry : Transport.Retry A) : bool :=
  match retry with
  | Transport.RefreshFails _ | Transport.RefreshReplays _ _ => true
  | Transport.QueuedReplays _ _ | Transport.QueuedDropped => false
  end.

(** * Properties *)

(** ** [localStorage] *)

Lemma getItem_setItem k v ls : Storage.getItem k (Storage.setItem k v ls) = Some v.
Proof. apply lookup_insert_eq. Qed.

Lemma getItem_removeItem k ls : Storage.getItem k (Storage.removeItem k ls) = None.
Proof. apply lookup_delete_eq. Qed.

(** ** The Request Gateway *)

Lemma requestInterceptor_held ls config token :
  Storage.getItem "accessToken" ls = Some token → truthy token = true →
  Gateway.requestInterceptor ls config = set_header "Authorization" (bearer token) config.
Proof. intros Hget Htok. unfold Gateway.requestInterceptor. by rewrite Hget, Htok. Qed.

Lemma requestInterceptor_not_held ls config :
  truthy_opt (Storage.getItem "accessToken" ls) = false →
  Gateway.requestInterceptor ls config = config.
Proof.
  unfold Gateway.requestInterceptor.
  destruct (Storage.getItem "accessToken" ls) as [token|]; simpl; [|done].
  by intros ->.
Qed.

Lemma requestInterceptor_retry ls config :
  _retry (Gateway.requestInterceptor ls config) = _retry config.
Proof.
  unfold Gateway.requestInterceptor.
  destruct (Storage.getItem "accessToken" ls) as [token|]; [|done].
  by destruct (truthy token).
Qed.

(** C7, as stated, fails: with no credential in storage a request that
    already carries an Authorization header is sent with that header. *)
Lemma gateway_keeps_preset_header :
  ¬ Gateway.attaches_as_stated ∅ Gateway.preset_request.
Proof.
  intros [_ Hnone].
  destruct (Hnone eq_refl) as [Hheader _].
  vm_compute in Hheader. discriminate.
Qed.

(** C7, amended: when storage holds a non-empty access credential the
    request leaves with the header [Authorization: Bearer <credential>]
    (replacing a header it carried) and is otherwise unmodified; when
    storage holds none, or the empty string, the request is passed on
    exactly as it came, so the gateway adds no Authorization header and
    removes none. *)
Theorem requestInterceptor_attaches (ls : gmap string string) (config : Config) :
  let sent := Gateway.requestInterceptor ls config in
  (∀ token, Storage.getItem "accessToken" ls = Some token → truthy token = true →
     headers sent !! "Authorization" = Some (bearer token) ∧
     url sent = url config ∧ _retry sent = _retry config ∧
     ∀ k, k ≠ "Authorization" → headers sent !! k = headers config !! k) ∧
  (truthy_opt (Storage.getItem "accessToken" ls) = false → sent = config).
Proof.
  simpl. split.
  - intros token Hget Htok.
    rewrite (requestInterceptor_held _ _ _ Hget Htok). simpl.
    split; [apply lookup_insert_eq|].
    do 2 (split; [done|]).
    intros k Hk. by apply lookup_insert_ne.
  - apply requestInterceptor_not_held.
Qed.

(** ** The Session Context *)


(** C3, as stated, fails: when the logout call is rejected (here by a
    transport failure) the identity and the credential both stay. *)
Lemma logout_failure_keeps_session :
  ¬ Session.signed_out (fst (Session.logout (Thrown network_failure) alice_client)).
Proof. intros [Huser _]. simpl in Huser. discriminate. Qed.

(** C3, amended: when the call to the logout endpoint succeeds, [logout]
    clears the cached identity and the stored access credential and the
    client is unauthenticated; when the call fails, [logout] rejects with
    that failure and changes neither the identity nor the storage. *)
Theorem logout_clears_on_success (c : Session.Client) :
  Session.signed_out (fst (Session.logout (Resolved tt) c)) ∧
  snd (Session.logout (Resolved tt) c) = Resolved tt ∧
  ∀ e, Session.logout (Thrown e) c = (c, Thrown e).
Proof.
  split; [|done].
  repeat split; simpl.
  apply getItem_removeItem.
Qed.

(** C5 (code bug): the failure of the refresh call dispatches the
    forced-sign-out event [auth:tokenExpired], but the event reaches no
    handler of the Session Context, because [AuthProvider] registers
    none: it leaves every client as it was, and a signed-in client still
    has its identity and still counts as authenticated after it. *)
Theorem forced_sign_out_unheard :
  let s := Coordinator.step (Coordinator.run (Coordinator.init ∅) two_waiting)
             (Coordinator.RefreshRejected 1 unauthorized) in
  Coordinator.Dispatched "auth:tokenExpired" ∈ Coordinator.trace s ∧
  (∀ c, Session.dispatchEvent "auth:tokenExpired" Session.listeners c = c) ∧
  Session.user (Session.dispatchEvent "auth:tokenExpired" Session.listeners alice_client)
    = Some alice ∧
  Session.isAuthenticated
    (Session.dispatchEvent "auth:tokenExpired" Session.listeners alice_client) = true.
Proof.
  split.
  - vm_compute. do 3 apply list_elem_of_further. apply list_elem_of_here.
  - split; [intros c; reflexivity|split; reflexivity].
Qed.

Lemma dispatchEvent_listeners name c :
  Session.dispatchEvent name Session.listeners c = c.
Proof. reflexivity. Qed.

(** C10: whatever the probe comes back with, [isLoading] is false
    afterwards; a resolved probe caches its payload; a rejected probe, of
    any kind, leaves the identity [null] and the client unauthenticated,
    so a transport failure ends in the same state as a 401. *)
Theorem checkAuthStatus_settles (probe : Outcome (option User)) (c : Session.Client) :
  Session.isLoading (Session.checkAuthStatus probe c) = false ∧
  (∀ data, probe = Resolved data → Session.user (Session.checkAuthStatus probe c) = data) ∧
  (∀ e, probe = Thrown e →
     Session.user (Session.checkAuthStatus probe c) = None ∧
     Session.isAuthenticated (Session.checkAuthStatus probe c) = false) ∧
  Session.checkAuthStatus (Thrown network_failure) c =
    Session.checkAuthStatus (Thrown unauthorized) c.
Proof.
  split; [done|].
  split; [by intros data ->|].
  split; [by intros e ->|done].
Qed.

(** ** The signup form *)

Lemma validateForm_empty fd :
  SignupForm.validateForm fd = true ↔ SignupForm.newErrors fd = ∅.
Proof.
  unfold SignupForm.validateForm.
  rewrite Nat.eqb_eq. apply map_size_empty_iff.
Qed.

Lemma newErrors_empty fd :
  SignupForm.newErrors fd = ∅ ↔
  truthy (SignupForm.f_username fd) = true ∧ truthy (SignupForm.f_email fd) = true ∧
  truthy (SignupForm.f_password fd) = true ∧ truthy (SignupForm.f_fullName fd) = true ∧
  SignupForm.picked (SignupForm.f_avatar fd) = true.
Proof.
  unfold SignupForm.newErrors.
  destruct (SignupForm.picked (SignupForm.f_avatar fd));
    destruct (truthy (SignupForm.f_fullName fd));
    destruct (truthy (SignupForm.f_password fd));
    destruct (truthy (SignupForm.f_email fd));
    destruct (truthy (SignupForm.f_username fd));
    split; intros H;
    solve [ done
          | exfalso; by apply insert_non_empty in H
          | exfalso; destruct H as (?&?&?&?&?); congruence ].
Qed.

Lemma truthy_true s : truthy s = true ↔ s ≠ "".
Proof. destruct s; simpl; split; congruence. Qed.

Lemma missing_required_invalid fd :
  SignupForm.missing_required fd → SignupForm.validateForm fd = false.
Proof.
  intros Hmiss.
  destruct (SignupForm.validateForm fd) eqn:Hv; [|done].
  apply validateForm_empty, newErrors_empty in Hv.
  destruct Hv as (Hu & He & Hp & Hf & Ha).
  destruct Hmiss as [H|[H|[H|[H|H]]]]; rewrite H in *; discriminate.
Qed.

Lemma all_present_valid fd :
  SignupForm.all_present fd → SignupForm.validateForm fd = true.
Proof.
  intros (Hu & He & Hp & Hf & [a Ha]).
  apply validateForm_empty, newErrors_empty.
  rewrite !truthy_true, Ha. done.
Qed.

(** C8: a submission with a required field missing (an empty username,
    email, password or full name, or no avatar file) fails
    [validateForm], makes no call at all and leaves the session as it
    was; a submission with every required field and an avatar passes,
    posts the multipart body (with the avatar) to [/users/register], and
    when that call succeeds the returned identity is the cached user, the
    returned access credential is stored, and the form navigates on. *)
Theorem signup_presence_validation
    (register : SignupForm.FormData → Outcome (User * string))
    (retry : Transport.Retry (User * string))
    (fd : SignupForm.FormState) (loading : bool) (c : Session.Client) :
  let submitted := SignupForm.handleSubmit register retry fd loading c in
  let call :=
    SignupForm.Post "/users/register" "multipart/form-data" (SignupForm.formDataToSend fd) in
  (SignupForm.missing_required fd →
     SignupForm.validateForm fd = false ∧
     SignupForm.effects submitted = [] ∧
     SignupForm.client submitted = c) ∧
  (SignupForm.all_present fd →
     SignupForm.validateForm fd = true ∧
     (∃ rest, SignupForm.effects submitted = call :: rest) ∧
     (∃ a, SignupForm.f_avatar fd = Some a ∧
           ("avatar", SignupForm.Blob a) ∈ SignupForm.formDataToSend fd) ∧
     ∀ u accessToken,
       register (SignupForm.formDataToSend fd) = Resolved (u, accessToken) →
       Session.user (SignupForm.client submitted) = Some u ∧
       Session.isAuthenticated (SignupForm.client submitted) = true ∧
       Storage.getItem "accessToken" (Session.storage (SignupForm.client submitted))
         = Some accessToken ∧
       SignupForm.effects submitted = [call; SignupForm.Push "/dashboard"]).
Proof.
  simpl. split.
  - intros Hmiss. pose proof (missing_required_invalid fd Hmiss) as Hv.
    unfold SignupForm.handleSubmit. rewrite Hv. simpl. done.
  - intros Hall. pose proof (all_present_valid fd Hall) as Hv.
    unfold SignupForm.handleSubmit. rewrite Hv. simpl.
    split; [done|]. split; [|split].
    + destruct (Transport.outcome _) as [response|]; [|simpl; eauto].
      destruct (Session.signup response _) as [c' [u|e]]; simpl; eauto.
    + destruct Hall as (_ & _ & _ & _ & [a Ha]). exists a. split; [done|].
      unfold SignupForm.formDataToSend. rewrite Ha.
      rewrite !elem_of_app. right. left. apply list_elem_of_singleton. done.
    + intros u accessToken Hreg. rewrite Hreg. simpl.
      repeat split. apply getItem_setItem.
Qed.

Lemma complete_form_present : SignupForm.all_present complete_form.
Proof. repeat split; try discriminate. by eexists. Qed.

Lemma form_without_avatar_missing : SignupForm.missing_required form_without_avatar.
Proof. do 4 right. reflexivity. Qed.

(** The two submissions: without the avatar nothing is sent; with it the
    identity that the server returns is the session. *)
Lemma signup_presence_validation_witness :
  SignupForm.effects
    (SignupForm.handleSubmit registers_alice Transport.QueuedDropped
       form_without_avatar false (Session.mount ∅)) = [] ∧
  Session.user
    (SignupForm.client
       (SignupForm.handleSubmit registers_alice Transport.QueuedDropped
          complete_form false (Session.mount ∅)))
  = Some alice.
Proof.
  split.
  - destruct (signup_presence_validation registers_alice Transport.QueuedDropped
                form_without_avatar false (Session.mount ∅)) as [Hmissing _].
    destruct (Hmissing form_without_avatar_missing) as (_ & Heffects & _).
    exact Heffects.
  - destruct (signup_presence_validation registers_alice Transport.QueuedDropped
                complete_form false (Session.mount ∅)) as [_ Hpresent].
    destruct (Hpresent complete_form_present) as (_ & _ & _ & Hsuccess).
    destruct (Hsuccess alice "t1" eq_refl) as (Huser & _).
    exact Huser.
Defined.

(** ** The Route Guard *)

Section Guard.

Import AuthGuard.

Variables (target : string) (the_router : nat).

#[local] Abbreviation loading := (guard_loading target the_router).
#[local] Abbreviation resolved := (guard_resolved target the_router).
#[local] Abbreviation pristine := (guard_pristine target the_router).


Lemma same_deps_refl i : same_deps i i = true.
Proof.
  unfold same_deps.
  rewrite !eqb_reflx, String.eqb_refl, Nat.eqb_refl. done.
Qed.

Lemma renders_app v inst l1 l2 :
  renders v inst (l1 ++ l2) = renders v inst l1 ++ renders v (after v inst l1) l2.
Proof.
  revert inst. induction l1 as [|i l1 IH]; intros inst; simpl; [done|].
  destruct (render v i inst) as [inst' out]. simpl.
  by rewrite IH.
Qed.

(** While the context is loading a render shows the placeholder and
    navigates nowhere, whatever the guard did before. *)
Lemma render_loading v i inst :
  isLoading i = true → snd (render v i inst) = (Placeholder, []).
Proof.
  intros Hl. unfold render, commit, element, redirect_effect_ref, redirect_effect_plain.
  rewrite Hl. destruct v; simpl;
    by destruct (changed same_deps (deps_redirect inst) i).
Qed.


Lemma pristine_render v a inst :
  pristine inst → pristine (fst (render v (loading a) inst)).
Proof.
  intros [Hflag Hdeps]. unfold render, commit. destruct v; simpl.
  - split; [|eauto].
    unfold redirect_effect_ref. simpl.
    destruct (changed Bool.eqb (deps_reset inst) a); [done|].
    by destruct (changed same_deps (deps_redirect inst) (loading a)).
  - split; [done|eauto].
Qed.

Lemma loading_phase v before inst :
  pristine inst →
  renders v inst (map loading before) = map (λ _, (Placeholder, [])) before ∧
  pristine (after v inst (map loading before)).
Proof.
  revert inst. induction before as [|a before IH]; intros inst Hinst; simpl; [done|].
  destruct (IH _ (pristine_render v a inst Hinst)) as [IH1 IH2].
  split; [|done].
  pose proof (render_loading v (loading a) inst eq_refl) as Hout.
  destruct (render v (loading a) inst) as [inst' out]. simpl in *.
  by rewrite Hout, IH1.
Qed.

(** The render in which the guard first sees the resolved,
    unauthenticated context navigates to the target once. *)
Lemma render_resolved v inst :
  pristine inst →
  snd (render v resolved inst) = (Nothing, [navigate v target]) ∧
  deps_redirect (fst (render v resolved inst)) = Some resolved ∧
  (v = WithRef → deps_reset (fst (render v resolved inst)) = Some false).
Proof.
  intros [Hflag Hdeps].
  assert (changed same_deps (deps_redirect inst) resolved = true) as Hrun.
  { destruct Hdeps as [->|[a ->]]; [done|].
    simpl. unfold same_deps. simpl. by destruct a. }
  unfold render, commit. rewrite Hrun. destruct v; simpl.
  - unfold redirect_effect_ref. rewrite Hflag. simpl. done.
  - done.
Qed.

(** A render with the dependencies of the previous one runs no effect. *)
Lemma render_again v i inst :
  deps_redirect inst = Some i →
  (v = WithRef → deps_reset inst = Some (isAuthenticated i)) →
  render v i inst = (inst, (element i, [])).
Proof.
  intros Hdeps Hreset. unfold render, commit. rewrite Hdeps. simpl.
  rewrite same_deps_refl. simpl. destruct v; simpl.
  - rewrite (Hreset eq_refl). simpl. rewrite eqb_reflx. simpl.
    destruct inst as [flag d1 d2]. simpl in *. by rewrite Hdeps, (Hreset eq_refl).
  - destruct inst as [flag d1 d2]. simpl in *. by rewrite Hdeps.
Qed.

Lemma renders_again v i inst n :
  deps_redirect inst = Some i →
  (v = WithRef → deps_reset inst = Some (isAuthenticated i)) →
  renders v inst (replicate n i) = replicate n (element i, []).
Proof.
  intros Hdeps Hreset. induction n as [|n IH]; simpl; [done|].
  rewrite (render_again v i inst Hdeps Hreset). by rewrite IH.
Qed.

Lemma after_again v i inst n :
  deps_redirect inst = Some i →
  (v = WithRef → deps_reset inst = Some (isAuthenticated i)) →
  after v inst (replicate n i) = inst.
Proof.
  intros Hdeps Hreset. induction n as [|n IH]; simpl; [done|].
  by rewrite (render_again v i inst Hdeps Hreset).
Qed.

(** A guard whose last render was resolved and unauthenticated, and
    whose ref is clear, is rendered with the same state and another
    router object or another target: the redirect effect runs again and
    navigates. *)
Lemma render_moved v inst target' other_router :
  target' ≠ target ∨ other_router ≠ the_router →
  deps_redirect inst = Some resolved →
  (v = WithRef → hasRedirected inst = false) →
  snd (render v (guard_resolved target' other_router) inst)
  = (Nothing, [navigate v target']).
Proof.
  intros Hother Hdeps Hflag.
  assert (changed same_deps (deps_redirect inst) (guard_resolved target' other_router)
          = true) as Hrun.
  { rewrite Hdeps. simpl. unfold same_deps. simpl.
    apply negb_true_iff, andb_false_iff.
    destruct Hother as [Ht|Hr].
    - left. apply String.eqb_neq. congruence.
    - right. apply Nat.eqb_neq. congruence. }
  unfold render, commit. rewrite Hrun. destruct v; simpl; [|done].
  unfold redirect_effect_ref. rewrite (Hflag eq_refl). done.
Qed.

Lemma renders_then_moved v inst n target' other_router :
  target' ≠ target ∨ other_router ≠ the_router →
  deps_redirect inst = Some resolved →
  (v = WithRef → deps_reset inst = Some false ∧ hasRedirected inst = false) →
  renders v inst (replicate n resolved ++ [guard_resolved target' other_router])
  = replicate n (Nothing, []) ++ [(Nothing, [navigate v target'])].
Proof.
  intros Hother Hdeps Href.
  assert (v = WithRef → deps_reset inst = Some (isAuthenticated resolved)) as Hreset
    by (intros Hv; by destruct (Href Hv)).
  rewrite renders_app, (renders_again v resolved inst n Hdeps Hreset).
  rewrite (after_again v resolved inst n Hdeps Hreset). f_equal. simpl.
  pose proof (render_moved v inst target' other_router Hother Hdeps
                (λ Hv, proj2 (Href Hv))) as Hout.
  destruct (render v (guard_resolved target' other_router) inst) as [inst' out].
  simpl in Hout. by rewrite Hout.
Qed.

(** The guard after its first render, on a resolved context. *)
Lemma mounted_resolved v :
  let inst := fst (render v resolved unmounted) in
  snd (render v resolved unmounted) = (Nothing, [navigate v target]) ∧
  deps_redirect inst = Some resolved ∧
  (v = WithRef → deps_reset inst = Some false ∧ hasRedirected inst = false).
Proof. destruct v; simpl; repeat split; done. Qed.

End Guard.

(** C6 (code bug): a guard with [requireAuth = true], in either copy
    of the component, shows the placeholder and navigates nowhere in every
    render in which the context is loading; mounted under a loading
    context, its first render with the context resolved and
    unauthenticated navigates to the login target, once, and the
    re-renders that follow with all inputs unchanged navigate nowhere.
    But the redirect is issued again while the authentication state is
    unchanged: a guard mounted on a context that is already resolved and
    unauthenticated navigates, and navigates again when it is re-rendered
    with the same state and another router object or another
    [redirectTo], in both copies (the reset effect clears [hasRedirected]
    in the commit of the mount, after the redirect has set it); the copy
    without the ref does so after a mount under loading too. *)
Theorem guard_redirects_again
    (v : AuthGuard.Variant) (target : string) (the_router : nat)
    (before : list bool) (again : nat) :
  (∀ inst a,
     snd (AuthGuard.render v (guard_loading target the_router a) inst)
     = (AuthGuard.Placeholder, [])) ∧
  AuthGuard.renders v AuthGuard.unmounted
    (map (guard_loading target the_router) before
       ++ guard_resolved target the_router
       :: replicate again (guard_resolved target the_router))
  = map (λ _, (AuthGuard.Placeholder, [])) before
      ++ (AuthGuard.Nothing, [AuthGuard.navigate v target])
      :: replicate again (AuthGuard.Nothing, []) ∧
  (∀ target' other_router,
     target' ≠ target ∨ other_router ≠ the_router →
     AuthGuard.renders v AuthGuard.unmounted
       (guard_resolved target the_router
          :: replicate again (guard_resolved target the_router)
          ++ [guard_resolved target' other_router])
     = (AuthGuard.Nothing, [AuthGuard.navigate v target])
         :: replicate again (AuthGuard.Nothing, [])
         ++ [(AuthGuard.Nothing, [AuthGuard.navigate v target'])] ∧
     AuthGuard.renders AuthGuard.Plain AuthGuard.unmounted
       (map (guard_loading target the_router) before
          ++ guard_resolved target the_router
          :: replicate again (guard_resolved target the_router)
          ++ [guard_resolved target' other_router])
     = map (λ _, (AuthGuard.Placeholder, [])) before
         ++ (AuthGuard.Nothing, [AuthGuard.Push target])
         :: replicate again (AuthGuard.Nothing, [])
         ++ [(AuthGuard.Nothing, [AuthGuard.Push target'])]).
Proof.
  assert (guard_pristine target the_router AuthGuard.unmounted) as H0
    by (split; [done|by left]).
  split; [|split].
  - intros inst a. by apply render_loading.
  - rewrite renders_app.
    destruct (loading_phase target the_router v before _ H0) as [Hout Hinst].
    rewrite Hout. f_equal. simpl.
    destruct (render_resolved target the_router v _ Hinst) as (Hres & Hd1 & Hd2).
    destruct (AuthGuard.render v (guard_resolved target the_router) _) as [inst' out].
    simpl in *. rewrite Hres. f_equal.
    by apply (renders_again v (guard_resolved target the_router) inst' again).
  - intros target' other_router Hother. split.
    + destruct (mounted_resolved target the_router v) as (Hres & Hdeps & Href).
      change (AuthGuard.renders v AuthGuard.unmounted
                (guard_resolved target the_router
                   :: replicate again (guard_resolved target the_router)
                   ++ [guard_resolved target' other_router]))
        with (let '(inst', out) :=
                AuthGuard.render v (guard_resolved target the_router) AuthGuard.unmounted in
              out :: AuthGuard.renders v inst'
                       (replicate again (guard_resolved target the_router)
                          ++ [guard_resolved target' other_router])).
      destruct (AuthGuard.render v (guard_resolved target the_router) AuthGuard.unmounted)
        as [inst' out].
      simpl in Hres, Hdeps, Href. rewrite Hres. f_equal.
      by apply renders_then_moved.
    + rewrite renders_app.
      destruct (loading_phase target the_router AuthGuard.Plain before _ H0)
        as [Hout Hinst].
      rewrite Hout. f_equal.
      destruct (render_resolved target the_router AuthGuard.Plain _ Hinst)
        as (Hres & Hdeps & _).
      match goal with |- AuthGuard.renders _ ?inst (?i :: ?rest) = _ =>
        change (AuthGuard.renders AuthGuard.Plain inst (i :: rest))
          with (let '(inst', out) := AuthGuard.render AuthGuard.Plain i inst in
                out :: AuthGuard.renders AuthGuard.Plain inst' rest)
      end.
      destruct (AuthGuard.render AuthGuard.Plain (guard_resolved target the_router) _)
        as [inst' out].
      simpl in Hres, Hdeps. rewrite Hres. f_equal.
      by apply renders_then_moved.
Qed.

(** A guard on the dashboard, mounted after the probe has failed, and
    rendered again with a new router object: two redirects to [/login]. *)
Lemma guard_redirects_again_witness :
  AuthGuard.renders AuthGuard.WithRef AuthGuard.unmounted
    [guard_resolved "/login" 0; guard_resolved "/login" 0; guard_resolved "/login" 1]
  = [(AuthGuard.Nothing, [AuthGuard.Replace "/login"]);
     (AuthGuard.Nothing, []);
     (AuthGuard.Nothing, [AuthGuard.Replace "/login"])].
Proof.
  destruct (guard_redirects_again AuthGuard.WithRef "/login" 0 [] 1) as (_ & _ & Hagain).
  destruct (Hagain "/login" 1 ltac:(right; discriminate)) as [Hboth _].
  exact Hboth.
Defined.

(** ** The Session Record *)

Section SessionRecord.

Import Server.

Variables access_ttl refresh_ttl : nat.

#[local] Abbreviation issue := (Server.issue access_ttl refresh_ttl).
#[local] Abbreviation apply := (Server.apply access_ttl refresh_ttl).

(** Only the credential in the Session Record verifies. *)
Lemma verifyRefresh_live now t st id :
  verifyRefresh now t st = inr id → get id st = Some t.
Proof.
  unfold verifyRefresh.
  destruct (negb (genuine t) || negb (bool_decide (kind t = Refresh))); [done|].
  destruct (expires t <=? now); [done|].
  destruct (get (subject t) st) as [current|] eqn:Hget; [|done].
  case_bool_decide; [|done].
  intros [= <-]. congruence.
Qed.

(** A genuine refresh credential other than the stored one fails as
    expired or revoked. *)
Lemma verifyRefresh_superseded now t st :
  genuine t = true → kind t = Refresh → get (subject t) st ≠ Some t →
  verifyRefresh now t st = if expires t <=? now then inl TokenExpired else inl TokenRevoked.
Proof.
  intros Hg Hk Hne. unfold verifyRefresh. rewrite Hg, Hk. simpl.
  destruct (expires t <=? now); [done|].
  destruct (get (subject t) st) as [current|]; [|done].
  case_bool_decide; [congruence|done].
Qed.

Lemma minted_apply st op : minted st ≤ minted (apply st op).
Proof. destruct op; simpl; lia. Qed.

Lemma minted_foldl ops st : minted st ≤ minted (foldl apply st ops).
Proof.
  revert st. induction ops as [|op ops IH]; intros st; simpl; [done|].
  etrans; [apply (minted_apply st op)|apply IH].
Qed.

Lemma get_issue now id st :
  get id (snd (issue now id st)) = Some (snd (fst (issue now id st))).
Proof. unfold get. simpl. apply lookup_insert_eq. Qed.

Lemma get_revoke id st : get id (revoke id st) = None.
Proof. unfold get. simpl. apply lookup_delete_eq. Qed.

End SessionRecord.

(** C9: the Session Record holds one refresh credential per identity.
    After a credential is issued the record holds exactly that one, and
    no other credential verifies for the identity; so the credential of
    an earlier login, whatever logins and logouts happened in between,
    fails with [TokenRevoked] (with [TokenExpired] once its lifetime is
    over); and after logout has cleared the record no credential verifies
    for the identity, the one held before logout failing in the same
    way. *)
Theorem single_live_refresh_credential
    (access_ttl refresh_ttl : nat) (st : Server.Issuer) (id : nat)
    (now1 now2 now : nat) (between : list Server.Op) :
  let first := Server.issue access_ttl refresh_ttl now1 id st in
  let previous := snd (fst first) in
  let later := foldl (Server.apply access_ttl refresh_ttl) (snd first) between in
  let second := Server.issue access_ttl refresh_ttl now2 id later in
  let current := snd (fst second) in
  let fails (t : Server.Token) : Server.AuthError + nat :=
    if Server.expires t <=? now then inl Server.TokenExpired else inl Server.TokenRevoked in
  Server.get id (snd second) = Some current ∧
  (∀ t, Server.verifyRefresh now t (snd second) = inr id → t = current) ∧
  Server.verifyRefresh now previous (snd second) = fails previous ∧
  (∀ t, Server.verifyRefresh now t (Server.revoke id (snd second)) ≠ inr id) ∧
  Server.verifyRefresh now current (Server.revoke id (snd second)) = fails current.
Proof.
  intros first previous later second current fails.
  pose proof (get_issue access_ttl refresh_ttl now2 id later) as Hget.
  fold second in Hget. fold current in Hget.
  split; [done|]. split; [|split; [|split]].
  - intros t Ht. apply verifyRefresh_live in Ht. congruence.
  - apply verifyRefresh_superseded; [done..|].
    change (Server.subject previous) with id. rewrite Hget.
    intros [= Hserial Hexpires].
    pose proof (minted_foldl access_ttl refresh_ttl between (snd first)) as Hle.
    fold later in Hle. simpl in Hle. lia.
  - intros t Ht. apply verifyRefresh_live in Ht.
    rewrite get_revoke in Ht. done.
  - apply verifyRefresh_superseded; [done..|].
    change (Server.subject current) with id. by rewrite get_revoke.
Qed.

(** ** The Refresh Coordinator *)

Section CoordinatorFacts.

Import Coordinator.

Lemma count_app f l1 l2 : count f (l1 ++ l2) = count f l1 + count f l2.
Proof. induction l1 as [|a l1 IH]; simpl; [done|]. rewrite IH. lia. Qed.

Lemma occ_app r l1 l2 : occ r (l1 ++ l2) = occ r l1 + occ r l2.
Proof. induction l1 as [|a l1 IH]; simpl; [done|]. rewrite IH. lia. Qed.

Lemma occ_resume_ne r r' l : r ≠ r' → occ r (resume r' l) = occ r l.
Proof.
  intros Hne. induction l as [|x l IH]; simpl; [done|].
  destruct (Nat.eqb_spec x r') as [->|Hx]; simpl.
  - destruct (Nat.eqb_spec r' r); [congruence|done].
  - by rewrite IH.
Qed.

Lemma occ_resume r l : occ r (resume r l) = pred (occ r l).
Proof.
  induction l as [|x l IH]; simpl; [done|].
  destruct (Nat.eqb_spec x r) as [->|Hx]; simpl; [done|].
  destruct (Nat.eqb_spec x r); [congruence|]. by rewrite IH.
Qed.

Lemma is_suspended_occ r s : is_suspended r s = true ↔ 1 ≤ occ r (suspended s).
Proof. unfold is_suspended. destruct (occ r (suspended s)); split; (done || lia). Qed.

Lemma occ_length r l : occ r l ≤ length l.
Proof. induction l as [|x l IH]; simpl; [done|]. destruct (x =? r); lia. Qed.

Lemma occ_singleton r l : length l = 1 → 1 ≤ occ r l → l = [r].
Proof.
  destruct l as [|x [|y l]]; simpl; try done; try lia.
  destruct (Nat.eqb_spec x r) as [->|]; [done|lia].
Qed.

(** *** What [api] and the subscribers leave alone *)


Lemma budget_configs s s' q : configs s' = configs s → budget s' q = budget s q.
Proof. unfold budget. by intros ->. Qed.

Lemma budget_api tag r config s q :
  budget (api tag r config s) q
  = if decide (r = q) then (if _retry config then 1 else 0) else budget s q.
Proof.
  unfold budget, api. simpl. rewrite lookup_insert.
  case_decide; [|done]. by rewrite requestInterceptor_retry.
Qed.

Lemma budget_subscriber token s r q : budget (subscriber token s r) q = budget s q.
Proof.
  unfold subscriber. destruct (configs s !! r) as [config|] eqn:Hr; [|done].
  rewrite budget_api. case_decide as Hq; [|done].
  subst. unfold budget. by rewrite Hr.
Qed.

Lemma replays_api_replayed r config s q :
  replays q (api Replayed r config s) = replays q s + (if r =? q then 1 else 0).
Proof. unfold replays, api. simpl. rewrite count_app. simpl. lia. Qed.

Lemma replays_subscriber token s r q :
  replays q (subscriber token s r) ≤ replays q s + (if r =? q then 1 else 0).
Proof.
  unfold subscriber. destruct (configs s !! r); [|lia].
  rewrite replays_api_replayed. lia.
Qed.

Lemma refresh_calls_api_replayed r config s :
  refresh_calls (api Replayed r config s) = refresh_calls s.
Proof. unfold refresh_calls, api. simpl. rewrite count_app. simpl. lia. Qed.

Lemma refresh_calls_subscriber token s r :
  refresh_calls (subscriber token s r) = refresh_calls s.
Proof.
  unfold subscriber. destruct (configs s !! r); [|done].
  apply refresh_calls_api_replayed.
Qed.


Lemma same_control_subscriber token s r : same_control s (subscriber token s r).
Proof. unfold subscriber. by destruct (configs s !! r). Qed.

Lemma foldl_subscriber token l s :
  let s' := foldl (subscriber token) s l in
  same_control s s' ∧
  refresh_calls s' = refresh_calls s ∧
  (∀ q, budget s' q = budget s q) ∧
  (∀ q, replays q s' ≤ replays q s + occ q l) ∧
  (∀ q, occ q l = 0 → phase s' !! q = phase s !! q ∧ configs s' !! q = configs s !! q).
Proof.
  revert s. induction l as [|r l IH]; intros s; simpl.
  { repeat split; (done || lia). }
  destruct (IH (subscriber token s r)) as ((H1 & H2 & H3 & H4) & Hc & Hb & Hr & Hp).
  destruct (same_control_subscriber token s r) as (G1 & G2 & G3 & G4).
  split; [|split; [|split; [|split]]].
  - repeat split; congruence.
  - by rewrite Hc, refresh_calls_subscriber.
  - intros q. by rewrite Hb, budget_subscriber.
  - intros q. specialize (Hr q).
    pose proof (replays_subscriber token s r q). lia.
  - intros q Hq. destruct (Nat.eqb_spec r q) as [->|Hne]; [lia|].
    destruct (Hp q ltac:(lia)) as [-> ->].
    unfold subscriber. destruct (configs s !! r); [|done].
    unfold api. simpl. by rewrite !lookup_insert_ne.
Qed.

(** *** The invariant of the coordinator *)


Lemma inv_init ls : inv (init ls).
Proof. repeat split; simpl; intros; lia. Qed.

Lemma budget_le_1 s r : budget s r ≤ 1.
Proof. unfold budget. destruct (configs s !! r) as [c|]; [destruct (_retry c)|]; lia. Qed.

Lemma inv_call r config s : inv s → inv (step s (Call r config)).
Proof.
  intros (Hb & Hl & Hq). simpl.
  destruct (configs s !! r) as [c|] eqn:Hr; [done|].
  split; [|done].
  intros q. rewrite budget_api. specialize (Hb q).
  unfold replays in *. unfold api; simpl. rewrite count_app. simpl.
  case_decide as Hrq; [|lia].
  subst. unfold budget in Hb. rewrite Hr in Hb. lia.
Qed.

Lemma inv_set_phase r p s : inv s → inv (set_phase r p s).
Proof. done. Qed.

Lemma inv_reject r e s : inv s → inv (reject r e s).
Proof.
  intros (Hb & Hl & Hq). split; [|done].
  intros q. specialize (Hb q). unfold replays, reject, emit in *. simpl.
  rewrite count_app. simpl. unfold budget in *. simpl. lia.
Qed.

Lemma inv_on_error r e s : inv s → inv (on_error r e s).
Proof.
  intros Hinv. unfold on_error.
  destruct (configs s !! r) as [originalRequest|] eqn:Hr; [|done].
  destruct (is_401 e && negb (_retry originalRequest)) eqn:Hguard;
    [|by apply inv_reject].
  apply andb_true_iff in Hguard as [_ Hretry]. apply negb_true_iff in Hretry.
  destruct Hinv as (Hb & Hl & Hq). simpl.
  destruct (isRefreshing s) eqn:Hflag; simpl.
  - split; [|done].
    intros q. specialize (Hb q). unfold budget, replays in *. simpl in *.
    rewrite occ_app. simpl.
    destruct (Nat.eqb_spec r q) as [->|Hne].
    + rewrite lookup_insert_eq. simpl. rewrite Hr, Hretry in Hb. lia.
    + rewrite lookup_insert_ne by done. lia.
  - split; [|split; [|done]].
    + intros q. specialize (Hb q). unfold budget, replays in *. simpl in *.
      rewrite count_app, occ_app. simpl.
      destruct (Nat.eqb_spec r q) as [->|Hne].
      * rewrite lookup_insert_eq. simpl. rewrite Hr, Hretry in Hb. lia.
      * rewrite lookup_insert_ne by done. lia.
    + simpl. rewrite length_app. simpl. lia.
Qed.

Lemma inv_on_refreshed r accessToken s :
  inv s → is_suspended r s = true → inv (on_refreshed r accessToken s).
Proof.
  intros (Hb & Hl & Hq) Hsus. apply is_suspended_occ in Hsus.
  unfold on_refreshed.
  destruct (configs s !! r) as [originalRequest|] eqn:Hr; [|done].
  assert (isRefreshing s = true ∧ suspended s = [r]) as [Hflag Hlist].
  { destruct (isRefreshing s).
    - split; [done|]. by apply occ_singleton.
    - pose proof (occ_length r (suspended s)). lia. }
  set (updated := set_header "Authorization" (bearer accessToken) originalRequest).
  set (s1 := {| localStorage := Storage.setItem "accessToken" accessToken (localStorage s);
                isRefreshing := isRefreshing s;
                refreshSubscribers := refreshSubscribers s;
                configs := <[r := updated]> (configs s);
                suspended := resume r (suspended s);
                phase := phase s;
                trace := trace s |}).
  destruct (foldl_subscriber accessToken (refreshSubscribers s1) s1)
    as ((K1 & K2 & K3 & K4) & _ & Hbud & Hrep & _).
  unfold onTokenRefreshed.
  set (s2 := foldl (subscriber accessToken) s1 (refreshSubscribers s1)) in *.
  split; [|split; [|done]].
  - intros q. rewrite budget_api, replays_api_replayed. simpl.
    specialize (Hb q). specialize (Hrep q). specialize (Hbud q).
    rewrite K4. simpl.
    assert (budget s1 q = budget s q) as Hs1.
    { unfold budget. simpl. rewrite lookup_insert. case_decide; [|done].
      subst. by rewrite Hr. }
    assert (replays q s1 = replays q s) as Hr1 by done.
    unfold replays in *. simpl in *.
    destruct (Nat.eqb_spec r q) as [->|Hne].
    + rewrite decide_True by done. rewrite occ_resume.
      unfold budget in Hb. rewrite Hr in Hb.
      destruct (_retry originalRequest); simpl in *; lia.
    + rewrite decide_False by done. rewrite occ_resume_ne by done.
      rewrite (budget_configs s2) by done. lia.
  - unfold api. simpl. rewrite K4. simpl. rewrite Hlist. simpl.
    by rewrite Nat.eqb_refl.
Qed.

Lemma inv_on_refresh_failed r e s :
  inv s → is_suspended r s = true → inv (on_refresh_failed r e s).
Proof.
  intros (Hb & Hl & Hq) Hsus. apply is_suspended_occ in Hsus.
  assert (suspended s = [r]) as Hlist.
  { destruct (isRefreshing s).
    - by apply occ_singleton.
    - pose proof (occ_length r (suspended s)). lia. }
  apply inv_reject. split; [|split; [|done]].
  - intros q. specialize (Hb q). unfold budget, replays in *. simpl in *.
    rewrite count_app. simpl.
    pose proof (occ_resume_ne q r (suspended s)).
    pose proof (occ_resume r (suspended s)).
    destruct (decide (q = r)) as [->|Hne]; [lia|].
    rewrite occ_resume_ne by done. lia.
  - simpl. rewrite Hlist. simpl. by rewrite Nat.eqb_refl.
Qed.

Lemma inv_step s ev : inv s → inv (step s ev).
Proof.
  intros Hinv. destruct ev as [r config|r|r e|r accessToken|r e].
  - by apply inv_call.
  - simpl. destruct (on_wire r s); [by apply inv_set_phase|done].
  - simpl. destruct (on_wire r s); [by apply inv_on_error|done].
  - simpl. destruct (is_suspended r s) eqn:Hsus; [by apply inv_on_refreshed|done].
  - simpl. destruct (is_suspended r s) eqn:Hsus; [by apply inv_on_refresh_failed|done].
Qed.

Lemma inv_run evs s : inv s → inv (run s evs).
Proof.
  revert s. induction evs as [|ev evs IH]; intros s Hinv; simpl; [done|].
  apply IH. by apply inv_step.
Qed.

(** *** Waiters that lost their subscriber *)


Lemma stranded_not_on_wire q s : stranded q s → on_wire q s = false.
Proof. intros (Hp & _). unfold on_wire. by rewrite Hp. Qed.

Lemma stranded_not_settled q s : stranded q s → settled q s = false.
Proof. intros (Hp & _). unfold settled. by rewrite Hp. Qed.

Lemma stranded_api tag q r config s :
  r ≠ q → stranded q s → stranded q (api tag r config s).
Proof.
  intros Hne (Hp & Hs & Hu & Hc). unfold stranded, api. simpl.
  by rewrite !lookup_insert_ne.
Qed.

Lemma stranded_reject q r e s : r ≠ q → stranded q s → stranded q (reject r e s).
Proof.
  intros Hne (Hp & Hs & Hu & Hc). unfold stranded, reject. simpl.
  by rewrite lookup_insert_ne.
Qed.

Lemma stranded_step q s ev : stranded q s → stranded q (step s ev).
Proof.
  intros Hst. pose proof Hst as (Hp & Hs & Hu & Hc).
  destruct ev as [r config|r|r e|r accessToken|r e]; simpl.
  - destruct (configs s !! r) eqn:Hr; [done|].
    apply stranded_api; [|done]. intros ->. rewrite Hr in Hc. by destruct Hc.
  - destruct (on_wire r s) eqn:Hw; [|done].
    assert (r ≠ q) as Hne by (intros ->; by rewrite stranded_not_on_wire in Hw).
    unfold stranded, set_phase. simpl. by rewrite lookup_insert_ne.
  - destruct (on_wire r s) eqn:Hw; [|done].
    assert (r ≠ q) as Hne by (intros ->; by rewrite stranded_not_on_wire in Hw).
    unfold on_error. destruct (configs s !! r) as [originalRequest|]; [|done].
    destruct (is_401 e && negb (_retry originalRequest)); [|by apply stranded_reject].
    destruct (isRefreshing s); unfold stranded; simpl;
      rewrite !lookup_insert_ne by done; rewrite ?occ_app; simpl;
      destruct (Nat.eqb_spec r q); try done; repeat split; (done || lia).
  - destruct (is_suspended r s) eqn:Hsus; [|done].
    apply is_suspended_occ in Hsus.
    assert (r ≠ q) as Hne by (intros ->; lia).
    unfold on_refreshed. destruct (configs s !! r) as [originalRequest|]; [|done].
    apply stranded_api; [done|]. unfold onTokenRefreshed.
    match goal with |- context [foldl (subscriber accessToken) ?s1 ?l] =>
      pose proof (foldl_subscriber accessToken l s1) as Hf;
      set (s2 := foldl (subscriber accessToken) s1 l) in *
    end.
    simpl in Hf. destruct Hf as ((K1 & K2 & K3 & K4) & _ & _ & _ & Hq).
    destruct (Hq q Hs) as [Hq1 Hq2]. simpl in K4, Hq2.
    unfold stranded. simpl. rewrite Hq1, Hq2, K4.
    rewrite lookup_insert_ne by done. rewrite occ_resume_ne by done. done.
  - destruct (is_suspended r s) eqn:Hsus; [|done].
    apply is_suspended_occ in Hsus.
    assert (r ≠ q) as Hne by (intros ->; lia).
    apply stranded_reject; [done|]. unfold stranded. simpl.
    by rewrite occ_resume_ne.
Qed.

(** Such a promise stays pending whatever happens afterwards. *)
Lemma stranded_forever q evs s :
  stranded q s → settled q (run s evs) = false.
Proof.
  revert s. induction evs as [|ev evs IH]; intros s Hst; simpl.
  - by apply stranded_not_settled.
  - apply IH. by apply stranded_step.
Qed.

(** *** The handler and the [_retry] mark *)

Lemma refresh_calls_reject r e s : refresh_calls (reject r e s) = refresh_calls s.
Proof. unfold refresh_calls, reject. simpl. rewrite count_app. simpl. lia. Qed.

Lemma on_error_refresh_call r e s :
  refresh_calls s < refresh_calls (on_error r e s) →
  is_401 e = true ∧ ∃ config, configs s !! r = Some config ∧ _retry config = false.
Proof.
  unfold on_error. destruct (configs s !! r) as [originalRequest|]; [|lia].
  destruct (is_401 e) eqn:H401; simpl.
  - destruct (_retry originalRequest) eqn:Hretry; simpl.
    + rewrite refresh_calls_reject. lia.
    + eauto.
  - rewrite refresh_calls_reject. lia.
Qed.

Lemma on_error_retried r e s config :
  configs s !! r = Some config → _retry config = true →
  on_error r e s = reject r e s.
Proof.
  intros Hr Hretry. unfold on_error. rewrite Hr, Hretry.
  by rewrite andb_false_r.
Qed.

Lemma replayed_is_marked s r :
  inv s → 1 ≤ replays r s → ∃ config, configs s !! r = Some config ∧ _retry config = true.
Proof.
  intros (Hb & _) Hrep. specialize (Hb r). unfold budget in Hb.
  destruct (configs s !! r) as [config|]; [|lia].
  exists config. split; [done|]. destruct (_retry config); [done|lia].
Qed.

(** *** One refresh cycle *)


Lemma outstanding_cons r rs s :
  outstanding (r :: rs) s →
  (r ∉ rs) ∧ outstanding rs s ∧ on_wire r s = true ∧
  (∃ config, configs s !! r = Some config ∧ _retry config = false).
Proof.
  intros [Hnd Hall]. apply NoDup_cons in Hnd as [Hr Hnd].
  destruct (Hall r ltac:(left)) as [Hw Hc].
  split; [done|]. split; [|done].
  split; [done|]. intros q Hq. apply Hall. by right.
Qed.

Lemma occ_not_elem (r : ReqId) (l : list ReqId) : r ∉ l → occ r l = 0.
Proof.
  induction l as [|x l IH]; simpl; [done|].
  intros Hr. apply not_elem_of_cons in Hr as [Hne Hr].
  destruct (Nat.eqb_spec x r); [congruence|]. by rewrite IH.
Qed.

(** While a refresh is in flight a 401 only joins the queue. *)
Lemma queue_burst rs s :
  isRefreshing s = true → outstanding rs s →
  let s' := run s (burst rs) in
  isRefreshing s' = true ∧
  refreshSubscribers s' = refreshSubscribers s ++ rs ∧
  suspended s' = suspended s ∧
  trace s' = trace s ∧
  localStorage s' = localStorage s ∧
  (∀ r, r ∈ rs → phase s' !! r = Some Queued ∧ is_Some (configs s' !! r)) ∧
  (∀ q, q ∉ rs → phase s' !! q = phase s !! q ∧ configs s' !! q = configs s !! q).
Proof.
  revert s. induction rs as [|r rs IH]; intros s Hflag Hout; simpl.
  { rewrite app_nil_r. do 5 (split; [done|]). split; [|done].
    intros q Hq. by apply elem_of_nil in Hq. }
  destruct (outstanding_cons r rs s Hout) as (Hr & Hrs & Hw & config & Hc & Hretry).
  rewrite Hw. unfold on_error. rewrite Hc, Hretry. simpl. rewrite Hflag.
  match goal with |- context [run ?s1 (burst rs)] => set (sq := s1) end.
  assert (outstanding rs sq) as Hout'.
  { destruct Hrs as [Hnd Hall]. split; [done|].
    intros q Hq. destruct (Hall q Hq) as [Hqw Hqc].
    assert (r ≠ q) as Hne by (intros ->; done).
    unfold on_wire, sq in *. simpl. by rewrite !lookup_insert_ne. }
  destruct (IH sq eq_refl Hout') as (I1 & I2 & I3 & I4 & I5 & I6 & I7).
  split; [done|]. split; [by rewrite I2; simpl; rewrite <- app_assoc|].
  do 3 (split; [done|]). split.
  - intros q Hq. apply elem_of_cons in Hq as [->|Hq]; [|by apply I6].
    destruct (I7 r Hr) as [-> ->]. unfold sq. simpl.
    rewrite !lookup_insert_eq. eauto.
  - intros q Hq. apply not_elem_of_cons in Hq as [Hne Hq].
    destruct (I7 q Hq) as [-> ->]. unfold sq. simpl.
    by rewrite !lookup_insert_ne.
Qed.

(** The first 401 of an idle coordinator makes the refresh call. *)
Lemma first_401 r s :
  isRefreshing s = false → outstanding [r] s →
  let s' := step s (Failure r unauthorized) in
  isRefreshing s' = true ∧
  refreshSubscribers s' = refreshSubscribers s ∧
  suspended s' = suspended s ++ [r] ∧
  trace s' = trace s ++ [RefreshCall] ∧
  localStorage s' = localStorage s ∧
  phase s' !! r = Some AwaitingRefresh ∧ is_Some (configs s' !! r) ∧
  (∀ q, q ≠ r → phase s' !! q = phase s !! q ∧ configs s' !! q = configs s !! q).
Proof.
  intros Hflag Hout.
  destruct (outstanding_cons r [] s Hout) as (_ & _ & Hw & config & Hc & Hretry).
  simpl. rewrite Hw. unfold on_error. rewrite Hc, Hretry. simpl. rewrite Hflag. simpl.
  rewrite !lookup_insert_eq. repeat split; try done; eauto;
    by rewrite lookup_insert_ne.
Qed.


Lemma replay_header ls token config :
  Storage.getItem "accessToken" ls = Some token →
  headers (Gateway.requestInterceptor ls
             (set_header "Authorization" (bearer token) config))
    !! "Authorization" = Some (bearer token).
Proof.
  intros Hget. unfold Gateway.requestInterceptor. rewrite Hget.
  destruct (truthy token); simpl; apply lookup_insert_eq.
Qed.

Lemma foldl_subscriber_replays token l s :
  Storage.getItem "accessToken" (localStorage s) = Some token →
  (∀ r, r ∈ l → is_Some (configs s !! r)) →
  let s' := foldl (subscriber token) s l in
  (∃ added, trace s' = trace s ++ added ∧ Forall2 (replay_with token) l added) ∧
  (∀ r, r ∈ l → phase s' !! r = Some OnWire).
Proof.
  revert s. induction l as [|r l IH]; intros s Hget Hall; simpl.
  { split; [exists []; by rewrite app_nil_r|]. intros r Hr. by apply elem_of_nil in Hr. }
  destruct (Hall r ltac:(left)) as [config Hc].
  assert (subscriber token s r
          = api Replayed r (set_header "Authorization" (bearer token) config) s) as Hsub
    by (unfold subscriber; by rewrite Hc).
  set (s1 := subscriber token s r) in *.
  assert (localStorage s1 = localStorage s) as Hls by (by rewrite Hsub).
  destruct (IH s1) as ((added & Htrace & Hadded) & Hphase).
  { by rewrite Hls. }
  { intros q Hq. rewrite Hsub. unfold api. simpl.
    destruct (decide (r = q)) as [->|Hne]; [rewrite lookup_insert_eq; eauto|].
    rewrite lookup_insert_ne by done. apply Hall. by right. }
  split.
  - eexists (_ :: added). split.
    + rewrite Htrace, Hsub. unfold api. simpl. by rewrite <- app_assoc.
    + constructor; [|done]. eexists. split; [done|]. by apply replay_header.
  - intros q Hq. destruct (decide (q ∈ l)) as [Hin|Hnin]; [by apply Hphase|].
    apply elem_of_cons in Hq as [->|Hq]; [|done].
    destruct (foldl_subscriber token l s1) as (_ & _ & _ & _ & Hframe).
    destruct (Hframe r (occ_not_elem r l Hnin)) as [-> _].
    rewrite Hsub. unfold api. simpl. apply lookup_insert_eq.
Qed.


Lemma cycle_pending s r0 rs :
  inv s → isRefreshing s = false → outstanding (r0 :: rs) s →
  mid_cycle s r0 rs (run s (burst (r0 :: rs))).
Proof.
  intros (_ & Hlen & Hqueue) Hflag Hout.
  rewrite Hflag in Hlen. apply nil_length_inv in Hlen.
  specialize (Hqueue Hflag).
  destruct (outstanding_cons r0 rs s Hout) as (Hr0 & Hrs & Hw & Hc).
  assert (outstanding [r0] s) as Hone.
  { split; [apply NoDup_singleton|].
    intros q Hq. apply list_elem_of_singleton in Hq as ->. done. }
  destruct (first_401 r0 s Hflag Hone) as (A1 & A2 & A3 & A4 & A5 & A6 & A7 & A8).
  change (run s (burst (r0 :: rs)))
    with (run (step s (Failure r0 unauthorized)) (burst rs)).
  set (sa := step s (Failure r0 unauthorized)) in *.
  assert (outstanding rs sa) as Hrs'.
  { destruct Hrs as [Hnd Hall]. split; [done|].
    intros q Hq. assert (q ≠ r0) as Hne by (intros ->; done).
    destruct (A8 q Hne) as [Hp Hcq]. destruct (Hall q Hq) as [Hqw Hqc].
    unfold on_wire in *. by rewrite Hp, Hcq. }
  destruct (queue_burst rs sa A1 Hrs') as (B1 & B2 & B3 & B4 & B5 & B6 & B7).
  destruct (B7 r0 Hr0) as [Hp0 Hc0].
  unfold mid_cycle.
  split; [done|]. split; [by rewrite B2, A2, Hqueue|].
  split; [by rewrite B3, A3, Hlen|]. split; [by rewrite B4|].
  split; [by rewrite B5|]. split; [by rewrite Hp0|].
  split; [intros r Hr; by apply B6|].
  intros r Hr. apply elem_of_cons in Hr as [->|Hr]; [by rewrite Hc0|by apply B6].
Qed.

Lemma mid_cycle_suspended s r0 rs s1 : mid_cycle s r0 rs s1 → is_suspended r0 s1 = true.
Proof.
  intros (_ & _ & Hsus & _). unfold is_suspended. rewrite Hsus. simpl.
  by rewrite Nat.eqb_refl.
Qed.

(** When the refresh call resolves, every request of the cycle is
    replayed, the queued ones first, each with the new credential. *)
Lemma cycle_success s r0 rs s1 accessToken :
  r0 ∉ rs → mid_cycle s r0 rs s1 →
  let s2 := step s1 (RefreshResolved r0 accessToken) in
  (∃ replayed, trace s2 = trace s1 ++ replayed ∧
               Forall2 (replay_with accessToken) (rs ++ [r0]) replayed) ∧
  (∀ r, r ∈ r0 :: rs → phase s2 !! r = Some OnWire) ∧
  isRefreshing s2 = false ∧
  refreshSubscribers s2 = [] ∧
  Storage.getItem "accessToken" (localStorage s2) = Some accessToken.
Proof.
  intros Hr0 Hmid. pose proof (mid_cycle_suspended _ _ _ _ Hmid) as Hsus.
  destruct Hmid as (M1 & M2 & M3 & M4 & M5 & M6 & M7 & M8).
  simpl. rewrite Hsus. unfold on_refreshed.
  destruct (M8 r0 ltac:(left)) as [originalRequest Hc]. rewrite Hc.
  unfold onTokenRefreshed. simpl. rewrite M2.
  set (updated := set_header "Authorization" (bearer accessToken) originalRequest).
  match goal with |- context [foldl (subscriber accessToken) ?sx rs] => set (sb := sx) end.
  assert (Storage.getItem "accessToken" (localStorage sb) = Some accessToken) as Hget
    by apply getItem_setItem.
  destruct (foldl_subscriber_replays accessToken rs sb Hget)
    as ((added & Htrace & Hadded) & Hphase).
  { intros r Hr. unfold sb. simpl.
    assert (r ≠ r0) as Hne by (intros ->; done).
    rewrite lookup_insert_ne by done. apply M8. by right. }
  destruct (foldl_subscriber accessToken rs sb) as ((K1 & K2 & K3 & K4) & _).
  set (sc := foldl (subscriber accessToken) sb rs) in *.
  unfold api. simpl.
  split; [|split; [|split; [done|split; [done|by rewrite K1]]]].
  - eexists (added ++ [_]). split.
    + rewrite Htrace. unfold sb at 1. simpl. by rewrite <- app_assoc.
    + apply Forall2_app; [done|]. constructor; [|constructor].
      eexists. split; [done|]. apply replay_header. by rewrite K1.
  - intros r Hr. destruct (decide (r0 = r)) as [->|Hne].
    + apply lookup_insert_eq.
    + rewrite lookup_insert_ne by done. apply Hphase.
      apply elem_of_cons in Hr as [->|Hr]; done.
Qed.

(** When the refresh call fails, the request that made it is rejected
    and the queue is emptied without a word to the promises that wait on
    it. *)
Lemma cycle_failure s r0 rs s1 refreshError :
  r0 ∉ rs → mid_cycle s r0 rs s1 →
  let s3 := step s1 (RefreshRejected r0 refreshError) in
  trace s3 = trace s1 ++ [Dispatched "auth:tokenExpired"; Failed r0 refreshError] ∧
  phase s3 !! r0 = Some (Rejected refreshError) ∧
  isRefreshing s3 = false ∧
  refreshSubscribers s3 = [] ∧
  Storage.getItem "accessToken" (localStorage s3) = None ∧
  (∀ r, r ∈ rs → stranded r s3).
Proof.
  intros Hr0 Hmid. pose proof (mid_cycle_suspended _ _ _ _ Hmid) as Hsus.
  destruct Hmid as (M1 & M2 & M3 & M4 & M5 & M6 & M7 & M8).
  simpl. rewrite Hsus. unfold on_refresh_failed, reject. simpl.
  split; [by rewrite <- app_assoc|]. split; [apply lookup_insert_eq|].
  do 2 (split; [done|]). split; [apply getItem_removeItem|].
  intros r Hr. assert (r ≠ r0) as Hne by (intros ->; done).
  unfold stranded. simpl. rewrite lookup_insert_ne by done.
  rewrite M3. simpl. rewrite Nat.eqb_refl. simpl.
  split; [by apply M7|]. do 2 (split; [done|]). apply M8. by right.
Qed.

(** *** The queue holds pending promises *)


Lemma queue_pending_step s ev :
  inv s → queue_pending s → queue_pending (step s ev).
Proof.
  intros (Hb & Hl & Hq) Hp.
  assert (∀ r, on_wire r s = true → occ r (refreshSubscribers s) = 0) as Hwire.
  { intros r Hw. destruct (occ r (refreshSubscribers s)) eqn:Ho; [done|].
    unfold on_wire in Hw. rewrite (Hp r) in Hw by lia. done. }
  destruct ev as [r config|r|r e|r accessToken|r e]; simpl.
  - destruct (configs s !! r) eqn:Hr; [done|].
    intros q Hocc. unfold api in *. simpl in *.
    assert (r ≠ q) as Hne.
    { intros ->. specialize (Hb q). unfold budget in Hb. rewrite Hr in Hb. lia. }
    rewrite lookup_insert_ne by done. by apply Hp.
  - destruct (on_wire r s) eqn:Hw; [|done].
    intros q Hocc. simpl in *.
    assert (r ≠ q) as Hne by (intros ->; rewrite (Hwire q Hw) in Hocc; lia).
    rewrite lookup_insert_ne by done. by apply Hp.
  - destruct (on_wire r s) eqn:Hw; [|done].
    unfold on_error. destruct (configs s !! r) as [originalRequest|]; [|done].
    destruct (is_401 e && negb (_retry originalRequest)).
    + destruct (isRefreshing s) eqn:Hflag; intros q Hocc; simpl in *.
      * rewrite occ_app in Hocc. simpl in Hocc.
        destruct (Nat.eqb_spec r q) as [->|Hne]; [apply lookup_insert_eq|].
        rewrite lookup_insert_ne by done. apply Hp. lia.
      * rewrite (Hq eq_refl) in Hocc. simpl in Hocc. lia.
    + intros q Hocc. unfold reject in *. simpl in *.
      assert (r ≠ q) as Hne by (intros ->; rewrite (Hwire q Hw) in Hocc; lia).
      rewrite lookup_insert_ne by done. by apply Hp.
  - destruct (is_suspended r s); [|done].
    unfold on_refreshed. destruct (configs s !! r); [|done].
    intros q Hocc. simpl in Hocc. lia.
  - destruct (is_suspended r s); [|done].
    intros q Hocc. simpl in Hocc. lia.
Qed.

Lemma queue_pending_run evs s :
  inv s → queue_pending s → inv (run s evs) ∧ queue_pending (run s evs).
Proof.
  revert s. induction evs as [|ev evs IH]; intros s Hinv Hp; simpl; [done|].
  apply IH; [by apply inv_step|by apply queue_pending_step].
Qed.

Lemma reachable ls evs :
  inv (run (init ls) evs) ∧ queue_pending (run (init ls) evs).
Proof.
  apply queue_pending_run; [apply inv_init|].
  intros q Hocc. simpl in Hocc. lia.
Qed.

Lemma elem_occ (r : ReqId) (l : list ReqId) : r ∈ l → 1 ≤ occ r l.
Proof.
  induction l as [|x l IH]; intros Hr; [by apply elem_of_nil in Hr|].
  simpl. apply elem_of_cons in Hr as [->|Hr].
  - rewrite Nat.eqb_refl. lia.
  - specialize (IH Hr). lia.
Qed.

(** In a reachable state the failure of the refresh call strands every
    subscriber of the queue. *)
Lemma failure_strands_queue s r e q :
  inv s → queue_pending s → is_suspended r s = true → q ∈ refreshSubscribers s →
  stranded q (step s (RefreshRejected r e)).
Proof.
  intros Hinv Hp Hsus Hq. pose proof Hinv as (Hb & Hl & _).
  apply elem_occ in Hq. pose proof (Hp q Hq) as Hphase.
  pose proof (proj1 (is_suspended_occ r s) Hsus) as Hocc.
  pose proof (Hb q) as Hbq. pose proof (budget_le_1 s q) as Hle.
  assert (q ≠ r) as Hne by (intros ->; lia).
  simpl. rewrite Hsus. unfold on_refresh_failed.
  apply stranded_reject; [done|]. unfold stranded. simpl.
  split; [done|]. split; [done|]. split.
  - rewrite occ_resume_ne by done. lia.
  - unfold budget in Hbq. destruct (configs s !! q); [eauto|lia].
Qed.

End CoordinatorFacts.

(** One round of the interceptor without the mark, for any 401: the
    failure starts a refresh call, and the call resolving replays the
    request, which is on the wire again. *)
Lemma legacy_retry_round r e token s :
  Coordinator.is_401 e = true →
  Coordinator.on_wire r s = true → is_Some (Coordinator.configs s !! r) →
  Coordinator.suspended s = [] →
  let awaiting := Legacy.step s (Coordinator.Failure r e) in
  let replayed := Legacy.step awaiting (Coordinator.RefreshResolved r token) in
  Coordinator.refresh_calls awaiting = S (Coordinator.refresh_calls s) ∧
  Coordinator.phase awaiting !! r = Some Coordinator.AwaitingRefresh ∧
  Coordinator.on_wire r replayed = true ∧
  is_Some (Coordinator.configs replayed !! r) ∧
  Coordinator.suspended replayed = [] ∧
  Coordinator.replays r replayed = S (Coordinator.replays r s) ∧
  Coordinator.refresh_calls replayed = S (Coordinator.refresh_calls s).
Proof.
  intros H401 Hw [config Hc] Hsus. simpl. rewrite Hw.
  unfold Legacy.on_error. rewrite H401. simpl.
  unfold Coordinator.is_suspended. simpl. rewrite Hsus. simpl. rewrite Nat.eqb_refl.
  unfold Legacy.on_refreshed. simpl. rewrite Hc.
  unfold Coordinator.api, Coordinator.on_wire, Coordinator.replays,
    Coordinator.refresh_calls. simpl.
  rewrite !lookup_insert_eq, !count_app, Nat.eqb_refl. simpl.
  rewrite Nat.eqb_refl. repeat split; (eauto || lia).
Qed.

(** C2 (code bug): the interceptor of [frontend/lib/api.ts] keeps the
    single retry and the older copy of the interceptor does not.  In
    every state the coordinator of [api.ts] can reach, a failure of a
    request starts a refresh call only if it is a 401 and the request does
    not carry the [_retry] mark; a request that has been replayed carries
    the mark, and a failure of a marked request (a second 401 included) is
    handed to the caller as it is, with no refresh call, no queueing and
    no replay; so no request is replayed more than once.  The copy without
    the mark treats the second 401 like the first: a request that was
    replayed once and is answered 401 again starts a second refresh call,
    and is replayed a second time when that call resolves. *)
Theorem single_retry_per_request
    (ls : gmap string string) (evs : list Coordinator.Event) (r : Coordinator.ReqId) :
  let s := Coordinator.run (Coordinator.init ls) evs in
  Coordinator.replays r s ≤ 1 ∧
  (∀ e, Coordinator.refresh_calls s
          < Coordinator.refresh_calls (Coordinator.step s (Coordinator.Failure r e)) →
        Coordinator.is_401 e = true ∧
        ∃ config, Coordinator.configs s !! r = Some config ∧ _retry config = false) ∧
  (1 ≤ Coordinator.replays r s →
     ∃ config, Coordinator.configs s !! r = Some config ∧ _retry config = true) ∧
  (∀ e config,
     Coordinator.configs s !! r = Some config → _retry config = true →
     Coordinator.on_wire r s = true →
     let s' := Coordinator.step s (Coordinator.Failure r e) in
     Coordinator.phase s' !! r = Some (Coordinator.Rejected e) ∧
     Coordinator.trace s' = Coordinator.trace s ++ [Coordinator.Failed r e] ∧
     Coordinator.isRefreshing s' = Coordinator.isRefreshing s ∧
     Coordinator.refreshSubscribers s' = Coordinator.refreshSubscribers s ∧
     Coordinator.suspended s' = Coordinator.suspended s) ∧
  (∀ config first second token token',
     Coordinator.is_401 first = true → Coordinator.is_401 second = true →
     let once :=
       Legacy.run (Coordinator.init ls)
         [Coordinator.Call r config; Coordinator.Failure r first;
          Coordinator.RefreshResolved r token] in
     let again := Legacy.step once (Coordinator.Failure r second) in
     let twice := Legacy.step again (Coordinator.RefreshResolved r token') in
     Coordinator.replays r once = 1 ∧
     Coordinator.on_wire r once = true ∧
     Coordinator.refresh_calls again = 2 ∧
     Coordinator.phase again !! r = Some Coordinator.AwaitingRefresh ∧
     Coordinator.replays r twice = 2 ∧
     Coordinator.on_wire r twice = true).
Proof.
  intros s.
  assert (inv s) as Hinv by (apply inv_run, inv_init).
  split; [|split; [|split; [|split]]].
  - destruct Hinv as (Hb & _). specialize (Hb r).
    pose proof (budget_le_1 s r). lia.
  - intros e. simpl. destruct (Coordinator.on_wire r s); [|lia].
    apply on_error_refresh_call.
  - by apply replayed_is_marked.
  - intros e config Hr Hretry Hwire. simpl. rewrite Hwire.
    rewrite (on_error_retried r e s config Hr Hretry).
    unfold Coordinator.reject. simpl. by rewrite lookup_insert_eq.
  - intros config first second token token' Hfirst Hsecond.
    change (Legacy.run (Coordinator.init ls)
              [Coordinator.Call r config; Coordinator.Failure r first;
               Coordinator.RefreshResolved r token])
      with (Legacy.step
              (Legacy.step (Legacy.step (Coordinator.init ls) (Coordinator.Call r config))
                 (Coordinator.Failure r first))
              (Coordinator.RefreshResolved r token)).
    set (sent := Legacy.step (Coordinator.init ls) (Coordinator.Call r config)).
    assert (sent = Coordinator.api Coordinator.Sent r config (Coordinator.init ls)) as Hsent
      by (unfold sent; simpl; by rewrite lookup_empty).
    assert (Coordinator.on_wire r sent = true) as Hw
      by (rewrite Hsent; unfold Coordinator.on_wire, Coordinator.api; simpl;
          by rewrite lookup_insert_eq).
    assert (is_Some (Coordinator.configs sent !! r)) as Hc
      by (rewrite Hsent; unfold Coordinator.api; simpl; rewrite lookup_insert_eq; eauto).
    assert (Coordinator.suspended sent = []) as Hsus by (by rewrite Hsent).
    assert (Coordinator.replays r sent = 0 ∧ Coordinator.refresh_calls sent = 0)
      as [Hrep Href] by (by rewrite Hsent).
    destruct (legacy_retry_round r first token sent Hfirst Hw Hc Hsus)
      as (_ & _ & R1 & R2 & R3 & R4 & R5).
    intros once again twice.
    destruct (legacy_retry_round r second token' once Hsecond R1 R2 R3)
      as (S1 & S2 & S3 & _ & _ & S4 & _).
    fold once in R1, R4, R5. fold again in S1, S2.
    change (Coordinator.on_wire r twice = true) in S3.
    change (Coordinator.replays r twice = S (Coordinator.replays r once)) in S4.
    split; [lia|]. split; [done|]. split; [lia|]. split; [done|]. split; [lia|done].
Qed.

(** C1 (code bug): from any reachable state with no refresh in flight,
    the 401 responses of [N] outstanding requests make one refresh call,
    and until that call settles none of the [N] requests is replayed or
    settled.  When the call resolves, all [N] are replayed with the one
    new credential.  When it fails, the request that made the call is
    rejected, but the other [N - 1] promises are never settled: their
    subscribers are thrown away with the queue. *)
Theorem refresh_cycle
    (ls : gmap string string) (before : list Coordinator.Event)
    (r0 : Coordinator.ReqId) (rs : list Coordinator.ReqId) :
  let s := Coordinator.run (Coordinator.init ls) before in
  Coordinator.isRefreshing s = false →
  outstanding (r0 :: rs) s →
  let s1 := Coordinator.run s (burst (r0 :: rs)) in
  Coordinator.trace s1 = Coordinator.trace s ++ [Coordinator.RefreshCall] ∧
  (∀ r, r ∈ r0 :: rs →
        Coordinator.settled r s1 = false ∧ Coordinator.on_wire r s1 = false) ∧
  (∀ accessToken,
     let s2 := Coordinator.step s1 (Coordinator.RefreshResolved r0 accessToken) in
     (∃ replayed, Coordinator.trace s2 = Coordinator.trace s1 ++ replayed ∧
                  Forall2 (replay_with accessToken) (rs ++ [r0]) replayed) ∧
     ∀ r, r ∈ r0 :: rs → Coordinator.phase s2 !! r = Some Coordinator.OnWire) ∧
  (∀ refreshError,
     let s3 := Coordinator.step s1 (Coordinator.RefreshRejected r0 refreshError) in
     Coordinator.phase s3 !! r0 = Some (Coordinator.Rejected refreshError) ∧
     ∀ r, r ∈ rs → ∀ evs, Coordinator.settled r (Coordinator.run s3 evs) = false).
Proof.
  intros s Hflag Hout s1.
  destruct (reachable ls before) as [Hinv _]. fold s in Hinv.
  destruct (outstanding_cons r0 rs s Hout) as (Hr0 & _).
  pose proof (cycle_pending s r0 rs Hinv Hflag Hout) as Hmid. fold s1 in Hmid.
  pose proof Hmid as (M1 & M2 & M3 & M4 & M5 & M6 & M7 & M8).
  split; [done|]. split; [|split].
  - intros r Hr. unfold Coordinator.settled, Coordinator.on_wire.
    apply elem_of_cons in Hr as [->|Hr]; [by rewrite M6|by rewrite (M7 r Hr)].
  - intros accessToken s2.
    destruct (cycle_success s r0 rs s1 accessToken Hr0 Hmid) as (Ht & Hp & _).
    done.
  - intros refreshError s3.
    destruct (cycle_failure s r0 rs s1 refreshError Hr0 Hmid)
      as (_ & Hp & _ & _ & _ & Hst).
    split; [done|]. intros r Hr evs. apply stranded_forever. by apply Hst.
Qed.

(** C4 (code bug): in any reachable state, when the refresh call that
    [r] awaits fails, the stored credential is removed, [isRefreshing] is
    cleared, the event [auth:tokenExpired] is dispatched and the request
    [r] is rejected with the failure; the queue is emptied, but no
    subscriber in it is called and no promise behind it is rejected: each
    stays pending whatever happens later. *)
Theorem refresh_failure_drops_waiters
    (ls : gmap string string) (before : list Coordinator.Event)
    (r : Coordinator.ReqId) (refreshError : AxiosError) :
  let s := Coordinator.run (Coordinator.init ls) before in
  Coordinator.is_suspended r s = true →
  let s' := Coordinator.step s (Coordinator.RefreshRejected r refreshError) in
  Storage.getItem "accessToken" (Coordinator.localStorage s') = None ∧
  Coordinator.isRefreshing s' = false ∧
  Coordinator.refreshSubscribers s' = [] ∧
  Coordinator.trace s'
    = Coordinator.trace s
        ++ [Coordinator.Dispatched "auth:tokenExpired"; Coordinator.Failed r refreshError] ∧
  Coordinator.phase s' !! r = Some (Coordinator.Rejected refreshError) ∧
  (∀ q, q ∈ Coordinator.refreshSubscribers s →
        Coordinator.phase s !! q = Some Coordinator.Queued ∧
        ∀ evs, Coordinator.settled q (Coordinator.run s' evs) = false).
Proof.
  intros s Hsus s'.
  destruct (reachable ls before) as [Hinv Hp]. fold s in Hinv, Hp.
  split; [|split; [|split; [|split; [|split]]]].
  - unfold s'. simpl. rewrite Hsus. apply getItem_removeItem.
  - unfold s'. simpl. by rewrite Hsus.
  - unfold s'. simpl. by rewrite Hsus.
  - unfold s'. simpl. rewrite Hsus. simpl. by rewrite <- app_assoc.
  - unfold s'. simpl. rewrite Hsus. simpl. apply lookup_insert_eq.
  - intros q Hq. split; [by apply Hp, elem_occ|].
    intros evs. apply stranded_forever.
    by apply failure_strands_queue.
Qed.


Lemma three_outstanding :
  outstanding [1; 2; 3] (Coordinator.run (Coordinator.init ∅) three_calls).
Proof.
  split.
  - apply (bool_decide_unpack _). vm_compute. exact I.
  - intros r Hr.
    repeat (apply elem_of_cons in Hr as [->|Hr]); [..|by apply elem_of_nil in Hr];
      (split; [vm_compute; reflexivity
              |exists plain_request; split; vm_compute; reflexivity]).
Qed.

Lemma three_idle :
  Coordinator.isRefreshing (Coordinator.run (Coordinator.init ∅) three_calls) = false.
Proof. vm_compute. reflexivity. Qed.

Lemma second_queued : 2 ∈ [2; 3].
Proof. set_solver. Qed.

Lemma third_queued : 3 ∈ [2; 3].
Proof. set_solver. Qed.

(** A cycle with three requests, the refresh call failing: one
    refresh call is made, request 1 is rejected, and requests 2 and 3 are
    pending afterwards, also after later events. *)
Lemma refresh_cycle_witness :
  let s := Coordinator.run (Coordinator.init ∅) three_calls in
  let s1 := Coordinator.run s (burst [1; 2; 3]) in
  let s3 := Coordinator.step s1 (Coordinator.RefreshRejected 1 network_failure) in
  Coordinator.isRefreshing s = false ∧
  Coordinator.refresh_calls s1 = 1 ∧
  Coordinator.phase s3 !! 1 = Some (Coordinator.Rejected network_failure) ∧
  Coordinator.settled 2 s3 = false ∧
  Coordinator.settled 3
    (Coordinator.run s3 [Coordinator.Failure 3 unauthorized; Coordinator.Response 3]) = false.
Proof.
  intros s s1 s3.
  destruct (refresh_cycle ∅ three_calls 1 [2; 3] three_idle three_outstanding)
    as (Htrace & Hpending & Hresolved & Hrejected).
  destruct (Hrejected network_failure) as [Hfirst Hothers].
  split; [exact three_idle|]. split; [vm_compute; reflexivity|].
  split; [exact Hfirst|]. split.
  - exact (Hothers 2 second_queued []).
  - exact (Hothers 3 third_queued _).
Defined.


Lemma first_suspended :
  Coordinator.is_suspended 1
    (Coordinator.run (Coordinator.init {["accessToken" := "expired"]}) two_waiting) = true.
Proof. vm_compute. reflexivity. Qed.

Lemma second_waiting :
  2 ∈ Coordinator.refreshSubscribers
        (Coordinator.run (Coordinator.init {["accessToken" := "expired"]}) two_waiting).
Proof. vm_compute. apply list_elem_of_here. Qed.

Lemma refresh_failure_drops_waiters_witness :
  let s := Coordinator.run (Coordinator.init {["accessToken" := "expired"]}) two_waiting in
  let s' := Coordinator.step s (Coordinator.RefreshRejected 1 unauthorized) in
  Coordinator.is_suspended 1 s = true ∧
  Coordinator.refreshSubscribers s = [2] ∧
  Coordinator.refreshSubscribers s' = [] ∧
  Coordinator.phase s' !! 1 = Some (Coordinator.Rejected unauthorized) ∧
  Coordinator.phase s' !! 2 = Some Coordinator.Queued ∧
  Coordinator.settled 2 s' = false.
Proof.
  intros s s'.
  destruct (refresh_failure_drops_waiters {["accessToken" := "expired"]} two_waiting 1
              unauthorized first_suspended)
    as (Hstorage & Hflag & Hqueue & Htrace & Hfirst & Hwaiters).
  destruct (Hwaiters 2 second_waiting) as [Hqueued Hpending].
  split; [exact first_suspended|]. split; [vm_compute; reflexivity|].
  split; [exact Hqueue|]. split; [exact Hfirst|].
  split; [vm_compute; reflexivity|]. exact (Hpending []).
Defined.

(** A request through the finished cycle of [three_calls], its replay
    answered 401 again: the failure goes to the caller and no second
    refresh call is made. *)


Lemma second_replayed :
  1 ≤ Coordinator.replays 2 (Coordinator.run (Coordinator.init ∅) finished_cycle).
Proof. vm_compute. lia. Qed.

Lemma second_on_wire :
  Coordinator.on_wire 2 (Coordinator.run (Coordinator.init ∅) finished_cycle) = true.
Proof. vm_compute. reflexivity. Qed.

Lemma single_retry_witness :
  let s := Coordinator.run (Coordinator.init ∅) finished_cycle in
  let s' := Coordinator.step s (Coordinator.Failure 2 unauthorized) in
  Coordinator.replays 2 s = 1 ∧
  Coordinator.phase s' !! 2 = Some (Coordinator.Rejected unauthorized) ∧
  Coordinator.refresh_calls s' = 1 ∧
  Coordinator.replays 2 s' = 1.
Proof.
  intros s s'.
  destruct (single_retry_per_request ∅ finished_cycle 2)
    as (Hle & Hcall & Hmarked & Hsecond & _).
  destruct (Hmarked second_replayed) as (config & Hconfig & Hretry).
  destruct (Hsecond unauthorized config Hconfig Hretry second_on_wire) as (Hphase & _).
  split; [vm_compute; reflexivity|]. split; [exact Hphase|].
  split; vm_compute; reflexivity.
Defined.

(** The copy without the mark refreshes and replays again on every 401:
    here request 1 is replayed twice, after two refresh calls. *)
Lemma legacy_replays_again :
  let s := Legacy.run (Coordinator.init ∅)
             [Coordinator.Call 1 plain_request;
              Coordinator.Failure 1 unauthorized; Coordinator.RefreshResolved 1 "t1";
              Coordinator.Failure 1 unauthorized; Coordinator.RefreshResolved 1 "t2"] in
  Coordinator.replays 1 s = 2 ∧ Coordinator.refresh_calls s = 2.
Proof. split; vm_compute; reflexivity. Qed.

(** A request sent while a credential is stored leaves with it; the same
    request sent from an empty storage leaves as it came. *)
Lemma requestInterceptor_attaches_witness :
  headers (Gateway.requestInterceptor {["accessToken" := "t0"]} plain_request)
    !! "Authorization" = Some (bearer "t0") ∧
  Gateway.requestInterceptor ∅ plain_request = plain_request.
Proof.
  split.
  - destruct (requestInterceptor_attaches {["accessToken" := "t0"]} plain_request)
      as [Hheld _].
    destruct (Hheld "t0" eq_refl eq_refl) as (Hheader & _).
    exact Hheader.
  - destruct (requestInterceptor_attaches ∅ plain_request) as [_ Hnone].
    exact (Hnone eq_refl).
Defined.

(** Identity 7 logs in at time 0 and again at time 10, identity 8 in
    between; at time 20 the first refresh credential of 7 is revoked, and
    after logout so is the second. *)
Lemma single_live_refresh_credential_witness :
  let st0 := {| Server.store := ∅; Server.minted := 0 |} in
  let first := Server.issue 15 100 0 7 st0 in
  let later := Server.apply 15 100 (snd first) (Server.Login 5 8) in
  let second := Server.issue 15 100 10 7 later in
  Server.verifyRefresh 20 (snd (fst first)) (snd second) = inl Server.TokenRevoked ∧
  Server.verifyRefresh 20 (snd (fst second)) (snd second) = inr 7 ∧
  Server.verifyRefresh 20 (snd (fst second)) (Server.revoke 7 (snd second))
    = inl Server.TokenRevoked.
Proof.
  intros st0 first later second.
  destruct (single_live_refresh_credential 15 100 st0 7 0 10 20 [Server.Login 5 8])
    as (Hstored & Honly & Hprevious & Hnone & Hcurrent).
  split; [exact Hprevious|]. split; [vm_compute; reflexivity|exact Hcurrent].
Defined.

(** * Further properties of the sources *)

(** ** The Request Gateway, again *)

(** X1: the request interceptor is idempotent: a request that has been
    through it (as every replayed request has) comes out of a second
    pass, over the same storage, exactly as it went in. *)
Theorem requestInterceptor_idempotent (ls : gmap string string) (config : Config) :
  Gateway.requestInterceptor ls (Gateway.requestInterceptor ls config)
  = Gateway.requestInterceptor ls config.
Proof.
  unfold Gateway.requestInterceptor.
  destruct (Storage.getItem "accessToken" ls) as [token|]; [|done].
  destruct (truthy token); [|done].
  unfold set_header. simpl. by rewrite insert_insert_eq.
Qed.

(** ** The Refresh Coordinator, again *)

Section CoordinatorMore.

Import Coordinator.

Lemma suspended_has_config s r :
  inv s → is_suspended r s = true → is_Some (configs s !! r).
Proof.
  intros (Hb & _) Hsus. apply is_suspended_occ in Hsus.
  specialize (Hb r). unfold budget in Hb.
  destruct (configs s !! r); [eauto|lia].
Qed.

Lemma localStorage_on_refreshed s r accessToken :
  is_Some (configs s !! r) →
  localStorage (on_refreshed r accessToken s)
  = Storage.setItem "accessToken" accessToken (localStorage s).
Proof.
  intros [originalRequest Hc]. unfold on_refreshed. rewrite Hc.
  unfold onTokenRefreshed, api. simpl.
  match goal with |- context [foldl (subscriber accessToken) ?s1 ?l] =>
    destruct (foldl_subscriber accessToken l s1) as ((K1 & _) & _)
  end.
  by rewrite K1.
Qed.

Lemma untouched_step ls s ev : no_401 ev → untouched ls s → untouched ls (step s ev).
Proof.
  intros Hev (U1 & U2 & U3 & U4 & U5 & U6).
  destruct ev as [r config|r|r e|r accessToken|r e]; simpl.
  - destruct (configs s !! r); [done|].
    unfold untouched, refresh_calls, replays, api in *. simpl.
    rewrite count_app. simpl. split; [lia|]. do 4 (split; [done|]).
    intros q. rewrite count_app. simpl. specialize (U6 q). lia.
  - by destruct (on_wire r s).
  - destruct (on_wire r s); [|done]. simpl in Hev.
    unfold on_error. destruct (configs s !! r); [|done].
    rewrite Hev. simpl.
    unfold untouched, refresh_calls, replays, reject in *. simpl.
    rewrite count_app. simpl. split; [lia|]. do 4 (split; [done|]).
    intros q. rewrite count_app. simpl. specialize (U6 q). lia.
  - unfold is_suspended. by rewrite U4.
  - unfold is_suspended. by rewrite U4.
Qed.

Lemma untouched_run ls evs s :
  Forall no_401 evs → untouched ls s → untouched ls (run s evs).
Proof.
  revert s. induction evs as [|ev evs IH]; intros s Hall Hs; simpl; [done|].
  apply Forall_cons in Hall as [Hev Hall].
  apply IH; [done|]. by apply untouched_step.
Qed.

(** One round of the interceptor without the mark: the 401 starts a
    refresh call, and the call resolving replays the request. *)
Lemma legacy_round r token s :
  on_wire r s = true → is_Some (configs s !! r) → suspended s = [] →
  let s' := Legacy.run s [Failure r unauthorized; RefreshResolved r token] in
  on_wire r s' = true ∧ is_Some (configs s' !! r) ∧ suspended s' = [] ∧
  replays r s' = S (replays r s) ∧ refresh_calls s' = S (refresh_calls s).
Proof.
  intros Hw [config Hc] Hsus. simpl. rewrite Hw.
  unfold Legacy.on_error. simpl.
  unfold is_suspended. simpl. rewrite Hsus. simpl. rewrite Nat.eqb_refl.
  unfold Legacy.on_refreshed. simpl. rewrite Hc.
  unfold api, on_wire, replays, refresh_calls. simpl.
  rewrite !lookup_insert_eq, !count_app, Nat.eqb_refl. simpl.
  rewrite Nat.eqb_refl. repeat split; (eauto || lia).
Qed.

Lemma legacy_rounds r token k s :
  on_wire r s = true → is_Some (configs s !! r) → suspended s = [] →
  let s' := Legacy.run s (rounds r token k) in
  on_wire r s' = true ∧ is_Some (configs s' !! r) ∧ suspended s' = [] ∧
  replays r s' = k + replays r s ∧ refresh_calls s' = k + refresh_calls s.
Proof.
  revert s. induction k as [|k IH]; intros s Hw Hc Hsus; [done|].
  destruct (legacy_round r token s Hw Hc Hsus) as (R1 & R2 & R3 & R4 & R5).
  destruct (IH _ R1 R2 R3) as (I1 & I2 & I3 & I4 & I5).
  unfold rounds in *. simpl in *. unfold Legacy.run in *. simpl in *.
  split; [done|]. split; [done|]. split; [done|]. lia.
Qed.

(** Without the queue every 401 starts a refresh call of its own. *)
Lemma legacy_burst rs s :
  outstanding rs s →
  let s' := Legacy.run s (burst rs) in
  refresh_calls s' = refresh_calls s + length rs ∧
  suspended s' = suspended s ++ rs ∧
  refreshSubscribers s' = refreshSubscribers s ∧
  (∀ r, r ∈ rs → phase s' !! r = Some AwaitingRefresh) ∧
  (∀ q, q ∉ rs → phase s' !! q = phase s !! q ∧ configs s' !! q = configs s !! q).
Proof.
  revert s. induction rs as [|r rs IH]; intros s Hout; simpl.
  { rewrite app_nil_r. split; [lia|]. do 2 (split; [done|]). split; [|done].
    intros q Hq. by apply elem_of_nil in Hq. }
  destruct (outstanding_cons r rs s Hout) as (Hr & Hrs & Hw & config & Hc & Hretry).
  rewrite Hw. unfold Legacy.on_error. simpl.
  match goal with |- context [Legacy.run ?s1 (burst rs)] => set (sq := s1) end.
  assert (outstanding rs sq) as Hout'.
  { destruct Hrs as [Hnd Hall]. split; [done|].
    intros q Hq. destruct (Hall q Hq) as [Hqw Hqc].
    assert (r ≠ q) as Hne by (intros ->; done).
    unfold on_wire, sq in *. simpl. by rewrite !lookup_insert_ne. }
  destruct (IH sq Hout') as (I1 & I2 & I3 & I4 & I5).
  split; [|split; [|split; [done|split]]].
  - rewrite I1. unfold sq, refresh_calls. simpl. rewrite count_app. simpl. lia.
  - rewrite I2. unfold sq. simpl. by rewrite <- app_assoc.
  - intros q Hq. apply elem_of_cons in Hq as [->|Hq]; [|by apply I4].
    destruct (I5 r Hr) as [-> _]. unfold sq. simpl. apply lookup_insert_eq.
  - intros q Hq. apply not_elem_of_cons in Hq as [Hne Hq].
    destruct (I5 q Hq) as [-> ->]. unfold sq. simpl.
    by rewrite lookup_insert_ne.
Qed.

End CoordinatorMore.

(** X2: in every state that the coordinator can reach, one handler
    awaits the refresh call while [isRefreshing] is set and none
    otherwise; the queue is empty whenever [isRefreshing] is clear; no
    request is in the queue twice or both queued and awaiting; and every
    request in the queue has a pending promise. *)
Theorem one_refresh_in_flight
    (ls : gmap string string) (evs : list Coordinator.Event) :
  let s := Coordinator.run (Coordinator.init ls) evs in
  length (Coordinator.suspended s) = (if Coordinator.isRefreshing s then 1 else 0) ∧
  (Coordinator.isRefreshing s = false → Coordinator.refreshSubscribers s = []) ∧
  (∀ r, Coordinator.occ r (Coordinator.refreshSubscribers s)
        + Coordinator.occ r (Coordinator.suspended s) ≤ 1) ∧
  (∀ r, r ∈ Coordinator.refreshSubscribers s →
        Coordinator.phase s !! r = Some Coordinator.Queued).
Proof.
  intros s. destruct (reachable ls evs) as [Hinv Hp]. fold s in Hinv, Hp.
  pose proof Hinv as (Hb & Hl & Hq).
  split; [done|]. split; [done|]. split.
  - intros r. specialize (Hb r). pose proof (budget_le_1 s r). lia.
  - intros r Hr. by apply Hp, elem_occ.
Qed.

(** X3: as long as no failure is a 401, the coordinator stays out of
    the way: whatever requests are sent, answered or failed, it makes no
    refresh call, replays nothing, queues nothing and leaves
    [localStorage] as it found it. *)
Theorem no_refresh_without_401
    (ls : gmap string string) (evs : list Coordinator.Event) :
  Forall no_401 evs →
  let s := Coordinator.run (Coordinator.init ls) evs in
  Coordinator.refresh_calls s = 0 ∧
  Coordinator.localStorage s = ls ∧
  Coordinator.isRefreshing s = false ∧
  Coordinator.refreshSubscribers s = [] ∧
  ∀ r, Coordinator.replays r s = 0.
Proof.
  intros Hall s.
  destruct (untouched_run ls evs (Coordinator.init ls) Hall) as (U1 & U2 & U3 & U4 & U5 & U6).
  { repeat split. }
  done.
Qed.

Lemma calm_run_no_401 : Forall no_401 calm_run.
Proof. repeat constructor. Qed.

(** A 500 and a transport failure: both go to their callers. *)
Lemma no_refresh_without_401_witness :
  let s := Coordinator.run (Coordinator.init {["accessToken" := "t0"]}) calm_run in
  Coordinator.refresh_calls s = 0 ∧
  Coordinator.localStorage s = {["accessToken" := "t0"]} ∧
  Coordinator.phase s !! 1 = Some (Coordinator.Rejected server_error).
Proof.
  intros s.
  destruct (no_refresh_without_401 {["accessToken" := "t0"]} calm_run calm_run_no_401)
    as (Hcalls & Hstorage & _).
  split; [exact Hcalls|]. split; [exact Hstorage|]. vm_compute. reflexivity.
Defined.

(** X4: the credential that a refresh brings is the one that later
    requests carry.  In any reachable state, once the awaited refresh
    call resolves with a non-empty token, a request that a caller sends
    next leaves with [Authorization: Bearer <token>]; once it fails, a
    request sent next leaves exactly as the caller made it, since the
    stored credential is gone. *)
Theorem refreshed_token_is_attached
    (ls : gmap string string) (evs : list Coordinator.Event)
    (r r' : Coordinator.ReqId) (accessToken : string) (refreshError : AxiosError)
    (config : Config) :
  let s := Coordinator.run (Coordinator.init ls) evs in
  Coordinator.is_suspended r s = true →
  truthy accessToken = true →
  Coordinator.configs s !! r' = None →
  let renewed := Coordinator.step s (Coordinator.RefreshResolved r accessToken) in
  let expired := Coordinator.step s (Coordinator.RefreshRejected r refreshError) in
  (∃ sent,
     Coordinator.trace (Coordinator.step renewed (Coordinator.Call r' config))
     = Coordinator.trace renewed ++ [Coordinator.Sent r' sent] ∧
     headers sent !! "Authorization" = Some (bearer accessToken)) ∧
  Coordinator.trace (Coordinator.step expired (Coordinator.Call r' config))
  = Coordinator.trace expired ++ [Coordinator.Sent r' config].
Proof.
  intros s Hsus Htoken Hfresh renewed expired.
  destruct (reachable ls evs) as [Hinv _]. fold s in Hinv.
  pose proof (suspended_has_config s r Hinv Hsus) as Hc.
  assert (r ≠ r') as Hne by (intros ->; rewrite Hfresh in Hc; by destruct Hc).
  split.
  - assert (Coordinator.configs renewed !! r' = None) as Hnone.
    { unfold renewed. simpl. rewrite Hsus. destruct Hc as [originalRequest Hc].
      unfold Coordinator.on_refreshed. rewrite Hc.
      unfold Coordinator.onTokenRefreshed, Coordinator.api. simpl.
      rewrite lookup_insert_ne by done.
      match goal with |- context [foldl (Coordinator.subscriber accessToken) ?s1 ?l] =>
        pose proof (foldl_subscriber accessToken l s1) as Hf;
        set (s2 := foldl (Coordinator.subscriber accessToken) s1 l) in *
      end.
      simpl in Hf. destruct Hf as (_ & _ & _ & _ & Hframe).
      destruct (Hframe r') as [_ Hcfg].
      { destruct (Coordinator.occ r' (Coordinator.refreshSubscribers s)) eqn:Ho; [done|].
        destruct Hinv as (Hb & _). specialize (Hb r'). unfold budget in Hb.
        rewrite Hfresh in Hb. lia. }
      rewrite Hcfg. simpl. by rewrite lookup_insert_ne. }
    simpl. rewrite Hnone. unfold Coordinator.api. simpl.
    eexists. split; [done|].
    assert (Coordinator.localStorage renewed
            = Storage.setItem "accessToken" accessToken (Coordinator.localStorage s)) as ->.
    { unfold renewed. simpl. rewrite Hsus. by apply localStorage_on_refreshed. }
    unfold Gateway.requestInterceptor. rewrite getItem_setItem, Htoken.
    simpl. apply lookup_insert_eq.
  - assert (Coordinator.configs expired !! r' = None) as Hnone.
    { unfold expired. simpl. by rewrite Hsus. }
    simpl. rewrite Hnone. unfold Coordinator.api. simpl.
    assert (Gateway.requestInterceptor (Coordinator.localStorage expired) config = config)
      as ->; [|done].
    apply requestInterceptor_not_held.
    unfold expired. simpl. rewrite Hsus. simpl. by rewrite getItem_removeItem.
Qed.

Lemma third_unknown :
  Coordinator.configs
    (Coordinator.run (Coordinator.init {["accessToken" := "expired"]}) two_waiting) !! 3
  = None.
Proof. vm_compute. reflexivity. Qed.

(** After the cycle of [two_waiting] a third request is sent: with the
    fresh token when the refresh resolved, bare when it failed. *)
Lemma refreshed_token_is_attached_witness :
  let s := Coordinator.run (Coordinator.init {["accessToken" := "expired"]}) two_waiting in
  let expired := Coordinator.step s (Coordinator.RefreshRejected 1 unauthorized) in
  Coordinator.trace (Coordinator.step expired (Coordinator.Call 3 plain_request))
  = Coordinator.trace expired ++ [Coordinator.Sent 3 plain_request].
Proof.
  intros s expired.
  destruct (refreshed_token_is_attached {["accessToken" := "expired"]} two_waiting 1 3
              "fresh" unauthorized plain_request first_suspended eq_refl third_unknown)
    as [_ Hbare].
  exact Hbare.
Defined.

(** ** The interceptor without the mark *)

(** X5: the interceptor without the queue does not share a refresh: the
    401 responses of [N] outstanding requests start [N] refresh calls,
    one awaited by each request, and nothing is queued. *)
Theorem legacy_refresh_per_request
    (ls : gmap string string) (before : list Coordinator.Event)
    (rs : list Coordinator.ReqId) :
  let s := Coordinator.run (Coordinator.init ls) before in
  outstanding rs s →
  let s' := Legacy.run s (burst rs) in
  Coordinator.refresh_calls s' = Coordinator.refresh_calls s + length rs ∧
  Coordinator.suspended s' = Coordinator.suspended s ++ rs ∧
  Coordinator.refreshSubscribers s' = Coordinator.refreshSubscribers s ∧
  ∀ r, r ∈ rs → Coordinator.phase s' !! r = Some Coordinator.AwaitingRefresh.
Proof.
  intros s Hout s'.
  destruct (legacy_burst rs s Hout) as (H1 & H2 & H3 & H4 & _).
  done.
Qed.

(** Three concurrent 401 responses: three refresh calls. *)
Lemma legacy_refresh_per_request_witness :
  Coordinator.refresh_calls
    (Legacy.run (Coordinator.run (Coordinator.init ∅) three_calls) (burst [1; 2; 3]))
  = 3.
Proof.
  destruct (legacy_refresh_per_request ∅ three_calls [1; 2; 3] three_outstanding)
    as (Hcalls & _).
  exact Hcalls.
Defined.

(** X6: the interceptor without the mark puts no bound on replays: a
    request that is answered 401 after each refresh is refreshed for and
    replayed again every time, [k] times in [k] rounds, for every [k]. *)
Theorem legacy_replays_without_bound
    (ls : gmap string string) (r : Coordinator.ReqId) (config : Config)
    (token : string) (k : nat) :
  let s := Legacy.run (Coordinator.init ls)
             (Coordinator.Call r config :: rounds r token k) in
  Coordinator.replays r s = k ∧ Coordinator.refresh_calls s = k ∧
  Coordinator.on_wire r s = true.
Proof.
  intros s.
  assert (Legacy.step (Coordinator.init ls) (Coordinator.Call r config)
          = Coordinator.api Coordinator.Sent r config (Coordinator.init ls)) as Hcall.
  { unfold Legacy.step. simpl. by rewrite lookup_empty. }
  destruct (legacy_rounds r token k
              (Coordinator.api Coordinator.Sent r config (Coordinator.init ls)))
    as (I1 & _ & _ & I4 & I5).
  - unfold Coordinator.on_wire, Coordinator.api. simpl. by rewrite lookup_insert_eq.
  - unfold Coordinator.api. simpl. rewrite lookup_insert_eq. eauto.
  - done.
  - unfold s, Legacy.run in *.
    change (foldl Legacy.step (Coordinator.init ls)
              (Coordinator.Call r config :: rounds r token k))
      with (foldl Legacy.step
              (Legacy.step (Coordinator.init ls) (Coordinator.Call r config))
              (rounds r token k)).
    rewrite Hcall. split; [|split; [|done]].
    + rewrite I4. unfold Coordinator.replays. simpl. lia.
    + rewrite I5. unfold Coordinator.refresh_calls. simpl. lia.
Qed.

(** ** The Session Context, again *)

(** X7: login and logout are a round trip on the client.  A successful
    login caches the identity and stores the credential; a successful
    logout after it leaves no identity and a storage equal to the one
    before the login with the [accessToken] key removed; neither touches
    the loading flag nor any other key of [localStorage]. *)
Theorem login_logout_round_trip (c : Session.Client) (u : User) (accessToken : string) :
  let signed_in := fst (Session.login (Resolved (u, accessToken)) c) in
  let left := fst (Session.logout (Resolved tt) signed_in) in
  Session.user signed_in = Some u ∧
  Session.isAuthenticated signed_in = true ∧
  Storage.getItem "accessToken" (Session.storage signed_in) = Some accessToken ∧
  (∀ k, k ≠ "accessToken" →
        Storage.getItem k (Session.storage signed_in) = Storage.getItem k (Session.storage c)) ∧
  Session.signed_out left ∧
  Session.storage left = Storage.removeItem "accessToken" (Session.storage c) ∧
  Session.isLoading left = Session.isLoading c.
Proof.
  simpl. split; [done|]. split; [done|]. split; [apply getItem_setItem|].
  split; [intros k Hk; by apply lookup_insert_ne|].
  split; [|split; [|done]].
  - repeat split. apply getItem_removeItem.
  - unfold Storage.removeItem, Storage.setItem. apply delete_insert_eq.
Qed.

(** ** The Route Guard, again *)

Section GuardMore.

Import AuthGuard.

Lemma only_loaded_render v i inst :
  isLoading i = true → only_loaded inst → only_loaded (fst (render v i inst)).
Proof.
  intros Hl [Hflag Hdeps]. unfold render, commit. destruct v; simpl.
  - split; [|eauto].
    unfold redirect_effect_ref. rewrite Hl. simpl.
    destruct (changed Bool.eqb (deps_reset inst) (isAuthenticated i)); [done|].
    by destruct (changed same_deps (deps_redirect inst) i).
  - split; [done|eauto].
Qed.

Lemma only_loaded_phase v inputs inst :
  Forall (λ i, isLoading i = true) inputs → only_loaded inst →
  renders v inst inputs = map (λ _, (Placeholder, [])) inputs ∧
  only_loaded (after v inst inputs).
Proof.
  revert inst. induction inputs as [|i inputs IH]; intros inst Hall Hinst; simpl; [done|].
  apply Forall_cons in Hall as [Hl Hall].
  destruct (IH _ Hall (only_loaded_render v i inst Hl Hinst)) as [IH1 IH2].
  split; [|done].
  pose proof (render_loading v i inst Hl) as Hout.
  destruct (render v i inst) as [inst' out]. simpl in *.
  by rewrite Hout, IH1.
Qed.

Lemma element_resolved i :
  isLoading i = false →
  element i = if wrong_audience i then Nothing else Children.
Proof.
  intros Hl. unfold element, wrong_audience. rewrite Hl.
  by destruct (requireAuth i), (isAuthenticated i).
Qed.

(** The first render with the context resolved, after renders under
    loading only. *)
Lemma render_first_resolved v i inst :
  isLoading i = false → only_loaded inst →
  snd (render v i inst)
  = (element i,
     if wrong_audience i
     then [navigate v (destination (requireAuth i) (redirectTo i))] else []) ∧
  deps_redirect (fst (render v i inst)) = Some i ∧
  (v = WithRef → deps_reset (fst (render v i inst)) = Some (isAuthenticated i)).
Proof.
  intros Hl [Hflag Hdeps].
  assert (changed same_deps (deps_redirect inst) i = true) as Hrun.
  { destruct Hdeps as [->|(j & -> & Hj)]; [done|].
    simpl. unfold same_deps. rewrite Hj, Hl. simpl.
    by rewrite andb_false_r. }
  unfold render, commit. rewrite Hrun.
  unfold wrong_audience, destination. destruct v; simpl.
  - unfold redirect_effect_ref. rewrite Hflag, Hl. simpl.
    by destruct (requireAuth i), (isAuthenticated i).
  - unfold redirect_effect_plain. rewrite Hl. simpl.
    by destruct (requireAuth i), (isAuthenticated i).
Qed.

(** With the flag set and [isAuthenticated] unchanged, the copy with the
    ref runs no navigation, whatever else changes. *)
Lemma has_redirected_render a i inst :
  isAuthenticated i = a → has_redirected a inst →
  snd (snd (render WithRef i inst)) = [] ∧
  has_redirected a (fst (render WithRef i inst)).
Proof.
  intros Ha [Hflag Hreset]. unfold render, commit, has_redirected. simpl.
  rewrite Hreset, Ha. simpl. rewrite eqb_reflx. simpl.
  unfold redirect_effect_ref. rewrite Hflag, andb_false_r.
  by destruct (changed same_deps (deps_redirect inst) i).
Qed.

Lemma has_redirected_renders a inputs inst :
  Forall (λ i, isAuthenticated i = a) inputs → has_redirected a inst →
  Forall (λ out, snd out = []) (renders WithRef inst inputs).
Proof.
  revert inst. induction inputs as [|i inputs IH]; intros inst Hall Hinst;
    [constructor|].
  apply Forall_cons in Hall as [Ha Hall].
  destruct (has_redirected_render a i inst Ha Hinst) as [Hnav Hnext].
  change (renders WithRef inst (i :: inputs))
    with (let '(inst', out) := render WithRef i inst in
          out :: renders WithRef inst' inputs).
  destruct (render WithRef i inst) as [inst' out]. simpl in *.
  constructor; [done|]. by apply IH.
Qed.

Lemma navigations_none outs :
  Forall (λ out : Rendered * list Navigation, snd out = []) outs → navigations outs = 0.
Proof.
  unfold navigations. induction 1 as [|out outs Hout _ IH]; simpl; [done|].
  rewrite Hout. simpl. exact IH.
Qed.

(** One render of an armed guard: either nothing is navigated and the
    guard stays armed, or it navigates once and the flag is set. *)
Lemma armed_render a i inst :
  isAuthenticated i = a → armed a inst →
  (snd (snd (render WithRef i inst)) = [] ∧ armed a (fst (render WithRef i inst))) ∨
  (length (snd (snd (render WithRef i inst))) = 1 ∧
   has_redirected a (fst (render WithRef i inst))).
Proof.
  intros <- [Hflag Hreset]. unfold render, commit, armed, has_redirected. simpl.
  rewrite Hreset. simpl. rewrite eqb_reflx. simpl.
  destruct (changed same_deps (deps_redirect inst) i); simpl; [|by left].
  unfold redirect_effect_ref. rewrite Hflag.
  destruct (isLoading i), (requireAuth i), (isAuthenticated i); simpl; auto.
Qed.

Lemma armed_renders a inputs inst :
  Forall (λ i, isAuthenticated i = a) inputs → armed a inst →
  navigations (renders WithRef inst inputs) ≤ 1.
Proof.
  revert inst. induction inputs as [|i inputs IH]; intros inst Hall Hinst;
    [unfold navigations; simpl; lia|].
  apply Forall_cons in Hall as [Ha Hall].
  pose proof (armed_render a i inst Ha Hinst) as Hstep.
  change (renders WithRef inst (i :: inputs))
    with (let '(inst', out) := render WithRef i inst in
          out :: renders WithRef inst' inputs).
  destruct (render WithRef i inst) as [inst' out]. simpl in Hstep.
  unfold navigations in *. simpl. rewrite length_app.
  destruct Hstep as [[Hnav Hnext]|[Hnav Hnext]].
  - rewrite Hnav. simpl. by apply IH.
  - pose proof (navigations_none _ (has_redirected_renders a inputs inst' Hall Hnext))
      as Hnone.
    unfold navigations in Hnone. lia.
Qed.

(** The mount under loading arms the guard. *)
Lemma mount_loading_armed i :
  isLoading i = true →
  snd (snd (render WithRef i unmounted)) = [] ∧
  armed (isAuthenticated i) (fst (render WithRef i unmounted)).
Proof.
  intros Hl. unfold render, commit, armed. simpl.
  unfold redirect_effect_ref. rewrite Hl. done.
Qed.

End GuardMore.

(** X8: the guard shows the page to its audience only.  It renders the
    children exactly when the context has resolved and [requireAuth]
    equals [isAuthenticated]; a render that shows the children runs no
    navigation, in either copy and whatever happened before; and a guard
    mounted on a resolved context navigates exactly when it renders
    [null]: to [redirectTo] from a protected page, to ['/dashboard'] from
    a page for anonymous users. *)
Theorem guard_audience (v : AuthGuard.Variant) (i : AuthGuard.Inputs) :
  (AuthGuard.element i = AuthGuard.Children ↔
     AuthGuard.isLoading i = false ∧
     AuthGuard.requireAuth i = AuthGuard.isAuthenticated i) ∧
  (∀ inst, AuthGuard.element i = AuthGuard.Children →
           snd (snd (AuthGuard.render v i inst)) = []) ∧
  (AuthGuard.isLoading i = false →
   snd (AuthGuard.render v i AuthGuard.unmounted)
   = (AuthGuard.element i,
      match AuthGuard.element i with
      | AuthGuard.Nothing =>
          [AuthGuard.navigate v
             (destination (AuthGuard.requireAuth i) (AuthGuard.redirectTo i))]
      | _ => []
      end)).
Proof.
  split; [|split].
  - unfold AuthGuard.element.
    destruct (AuthGuard.isLoading i), (AuthGuard.requireAuth i),
      (AuthGuard.isAuthenticated i); simpl; split; (done || by intros [? ?]).
  - intros inst. unfold AuthGuard.element, AuthGuard.render, AuthGuard.commit,
      AuthGuard.redirect_effect_ref, AuthGuard.redirect_effect_plain.
    destruct (AuthGuard.isLoading i), (AuthGuard.requireAuth i),
      (AuthGuard.isAuthenticated i), v; simpl; try done;
      by destruct (AuthGuard.changed AuthGuard.same_deps (AuthGuard.deps_redirect inst) i),
           (AuthGuard.hasRedirected inst).
  - intros Hl.
    destruct (render_first_resolved v i AuthGuard.unmounted Hl) as (Hout & _).
    { split; [done|by left]. }
    rewrite Hout, (element_resolved i Hl). by destruct (wrong_audience i).
Qed.

(** X9: on any page, protected or for anonymous users, and in either
    copy: a guard mounted while the context loads shows the placeholder
    and navigates nowhere until the context resolves; the render in which
    it resolves navigates once if the page is not for this user (to
    [redirectTo], or to ['/dashboard'] from an anonymous page) and not at
    all otherwise; the re-renders that follow with the same inputs
    navigate nowhere. *)
Theorem guard_settles_once
    (v : AuthGuard.Variant) (requireAuth : bool) (target : string) (the_router : nat)
    (before : list bool) (authenticated : bool) (again : nat) :
  let loading a := guard_inputs requireAuth target the_router a true in
  let resolved := guard_inputs requireAuth target the_router authenticated false in
  AuthGuard.renders v AuthGuard.unmounted
    (map loading before ++ resolved :: replicate again resolved)
  = map (λ _, (AuthGuard.Placeholder, [])) before
      ++ (AuthGuard.element resolved,
          if negb (Bool.eqb requireAuth authenticated)
          then [AuthGuard.navigate v (destination requireAuth target)] else [])
      :: replicate again (AuthGuard.element resolved, []).
Proof.
  intros loading resolved. rewrite renders_app.
  assert (only_loaded AuthGuard.unmounted) as H0 by (split; [done|by left]).
  destruct (only_loaded_phase v (map loading before) AuthGuard.unmounted) as [Hout Hinst];
    [|done|].
  { apply Forall_map. by apply Forall_true. }
  rewrite Hout, map_map. f_equal. simpl.
  destruct (render_first_resolved v resolved _ eq_refl Hinst) as (Hres & Hd1 & Hd2).
  destruct (AuthGuard.render v resolved _) as [inst' out].
  simpl in *. rewrite Hres. f_equal.
  by apply (renders_again v resolved inst' again).
Qed.

(** X10: in the copy with the [hasRedirected] ref, a guard that is
    mounted while the context is loading navigates at most once for as
    long as [isAuthenticated] keeps the value it had at the mount,
    whatever else changes between renders (the loading flag,
    [redirectTo], [requireAuth], the router object). *)
Theorem guard_ref_navigates_once_per_state
    (authenticated : bool) (first : AuthGuard.Inputs) (later : list AuthGuard.Inputs) :
  AuthGuard.isLoading first = true →
  Forall (λ i, AuthGuard.isAuthenticated i = authenticated) (first :: later) →
  navigations (AuthGuard.renders AuthGuard.WithRef AuthGuard.unmounted (first :: later))
  ≤ 1.
Proof.
  intros Hl Hall. apply Forall_cons in Hall as [Ha Hall].
  destruct (mount_loading_armed first Hl) as [Hnav Harmed]. rewrite Ha in Harmed.
  pose proof (armed_renders authenticated later _ Hall Harmed) as Hlater.
  change (AuthGuard.renders AuthGuard.WithRef AuthGuard.unmounted (first :: later))
    with (let '(inst', out) :=
            AuthGuard.render AuthGuard.WithRef first AuthGuard.unmounted in
          out :: AuthGuard.renders AuthGuard.WithRef inst' later).
  destruct (AuthGuard.render AuthGuard.WithRef first AuthGuard.unmounted) as [inst' out].
  simpl in Hnav, Hlater. unfold navigations in *. simpl. by rewrite Hnav.
Qed.

(** The one navigation is the redirect to [/login]; the changes of
    target and router that follow navigate nowhere. *)
Lemma guard_ref_navigates_once_per_state_witness :
  navigations
    (AuthGuard.renders AuthGuard.WithRef AuthGuard.unmounted
       (guard_inputs true "/login" 0 false true :: restless_renders))
  ≤ 1.
Proof.
  apply (guard_ref_navigates_once_per_state false).
  - reflexivity.
  - repeat constructor.
Defined.

(** X11: the ref protects only a guard that was mounted before the
    context resolved.  Mounted under loading, the guard navigates once
    and keeps quiet when [redirectTo] changes afterwards; mounted on a
    context that is already resolved and unauthenticated, its reset
    effect clears the ref in the very commit that sets it, and a later
    change of [redirectTo] navigates again, as it does in the copy
    without the ref. *)
Theorem guard_ref_reset_on_mount (target target' : string) (the_router : nat) :
  target ≠ target' →
  let loading := guard_inputs true target the_router false true in
  let resolved := guard_inputs true target the_router false false in
  let moved := guard_inputs true target' the_router false false in
  AuthGuard.renders AuthGuard.WithRef AuthGuard.unmounted [loading; resolved; moved]
  = [(AuthGuard.Placeholder, []);
     (AuthGuard.Nothing, [AuthGuard.Replace target]);
     (AuthGuard.Nothing, [])] ∧
  AuthGuard.renders AuthGuard.WithRef AuthGuard.unmounted [resolved; moved]
  = [(AuthGuard.Nothing, [AuthGuard.Replace target]);
     (AuthGuard.Nothing, [AuthGuard.Replace target'])] ∧
  AuthGuard.renders AuthGuard.Plain AuthGuard.unmounted [loading; resolved; moved]
  = [(AuthGuard.Placeholder, []);
     (AuthGuard.Nothing, [AuthGuard.Push target]);
     (AuthGuard.Nothing, [AuthGuard.Push target'])].
Proof.
  intros Hne. apply String.eqb_neq in Hne.
  simpl. unfold AuthGuard.render, AuthGuard.commit, AuthGuard.same_deps. simpl.
  rewrite Hne, !Nat.eqb_refl. simpl. done.
Qed.

Lemma guard_ref_reset_on_mount_witness :
  AuthGuard.renders AuthGuard.WithRef AuthGuard.unmounted
    [guard_inputs true "/login" 0 false false; guard_inputs true "/signin" 0 false false]
  = [(AuthGuard.Nothing, [AuthGuard.Replace "/login"]);
     (AuthGuard.Nothing, [AuthGuard.Replace "/signin"])].
Proof.
  destruct (guard_ref_reset_on_mount "/login" "/signin" 0 ltac:(discriminate))
    as (_ & Hmounted & _).
  exact Hmounted.
Defined.

(** X12: the start of the application, Session Context and guard
    together.  A guard on a protected page, mounted with the provider,
    shows the placeholder first; when the probe settles it shows the
    children without navigating if the probe brought an identity, and
    otherwise (the probe failed, or resolved without one) it renders
    [null] and navigates to [redirectTo], once. *)
Theorem startup_flow
    (v : AuthGuard.Variant) (target : string) (the_router : nat)
    (ls : gmap string string) (probe : Outcome (option User)) :
  let booting := Session.mount ls in
  let ready := Session.checkAuthStatus probe booting in
  AuthGuard.renders v AuthGuard.unmounted
    [session_inputs true target the_router booting;
     session_inputs true target the_router ready]
  = [(AuthGuard.Placeholder, []);
     match probe with
     | Resolved (Some _) => (AuthGuard.Children, [])
     | _ => (AuthGuard.Nothing, [AuthGuard.navigate v target])
     end].
Proof.
  intros booting ready.
  assert (only_loaded AuthGuard.unmounted) as H0 by (split; [done|by left]).
  destruct (only_loaded_phase v [session_inputs true target the_router booting]
              AuthGuard.unmounted) as [Hout Hinst]; [by repeat constructor|done|].
  change [session_inputs true target the_router booting;
          session_inputs true target the_router ready]
    with ([session_inputs true target the_router booting]
            ++ [session_inputs true target the_router ready]).
  rewrite renders_app, Hout. simpl map. f_equal.
  destruct (render_first_resolved v (session_inputs true target the_router ready) _
              eq_refl Hinst) as (Hres & _).
  simpl. destruct (AuthGuard.render v (session_inputs true target the_router ready) _)
    as [inst' out]. simpl in *. rewrite Hres.
  unfold ready. destruct probe as [[u|]|e]; reflexivity.
Qed.

(** ** One call through [api] *)

Section TransportFacts.

Import Coordinator.

Context {A : Type}.

(** With no refresh in flight, a call settles as [Transport.call] says,
    and [localStorage] ends as it says. *)
Lemma call_alone s r other config (answer : Outcome A) retry otherError :
  configs s !! r = None → _retry config = false →
  isRefreshing s = false → refreshSubscribers s = [] → suspended s = [] →
  refreshes_itself retry = true →
  let s' := run s (exchange r other config answer retry otherError) in
  let result := Transport.call answer retry (localStorage s) in
  localStorage s' = Transport.storage result ∧
  phase s' !! r = Some (promise_of (Transport.outcome result)).
Proof.
  intros Hnew Hmark Hflag Hqueue Hsus Hown.
  assert (_retry (Gateway.requestInterceptor (localStorage s) config) = false) as Hsent
    by (by rewrite requestInterceptor_retry).
  unfold exchange.
  match goal with |- context [run s (?a :: ?b :: ?rest)] =>
    change (run s (a :: b :: rest)) with (run (step (step s a) b) rest) end.
  assert (step s (Call r config) = api Sent r config s) as -> by (simpl; by rewrite Hnew).
  destruct answer as [a|e].
  { simpl. unfold on_wire, api. simpl. rewrite lookup_insert_eq. simpl.
    by rewrite lookup_insert_eq. }
  cbn [arrives Transport.call].
  assert (on_wire r (api Sent r config s) = true) as Hwire
    by (unfold on_wire, api; simpl; by rewrite lookup_insert_eq).
  cbn [step]. rewrite Hwire.
  unfold on_error. cbn [configs api]. rewrite lookup_insert_eq, Hsent, andb_true_r.
  destruct (is_401 e) eqn:H401.
  2:{ simpl. by rewrite lookup_insert_eq. }
  cbn [isRefreshing api negb andb]. rewrite Hflag.
  destruct retry as [refreshError|accessToken replayed|accessToken replayed|]; try done.
  - cbn [run foldl step]. unfold is_suspended. cbn [suspended api]. rewrite Hsus. simpl. rewrite Nat.eqb_refl.
    unfold on_refresh_failed, reject. simpl. by rewrite lookup_insert_eq.
  - cbn [run foldl step]. unfold is_suspended. cbn [suspended api]. rewrite Hsus. simpl occ. rewrite Nat.eqb_refl.
    unfold on_refreshed. cbn [configs]. rewrite lookup_insert_eq.
    unfold onTokenRefreshed. cbn [refreshSubscribers api]. rewrite Hqueue. cbn [foldl].
    destruct replayed as [a|e2]; cbn [arrives step].
    + unfold on_wire. simpl. rewrite lookup_insert_eq. simpl. by rewrite lookup_insert_eq.
    + unfold on_wire. simpl. rewrite lookup_insert_eq. unfold on_error. simpl.
      rewrite lookup_insert_eq, requestInterceptor_retry. simpl. rewrite andb_false_r.
      unfold reject. simpl. by rewrite lookup_insert_eq.
Qed.

(** With a refresh in flight, a call that is answered 401 is queued,
    and again [Transport.call] says how it ends. *)
Lemma call_queued s r other config (answer : Outcome A) retry otherError e :
  inv s → configs s !! r = None → _retry config = false →
  isRefreshing s = true → is_suspended other s = true →
  answer = Thrown e → is_401 e = true →
  refreshes_itself retry = false →
  let s' := run s (exchange r other config answer retry otherError) in
  let result := Transport.call answer retry (localStorage s) in
  localStorage s' = Transport.storage result ∧
  phase s' !! r = Some (promise_of (Transport.outcome result)).
Proof.
  intros Hinv Hnew Hmark Hflag Hother -> H401 Hqueued.
  assert (_retry (Gateway.requestInterceptor (localStorage s) config) = false) as Hsent
    by (by rewrite requestInterceptor_retry).
  destruct (suspended_has_config s other Hinv Hother) as [c0 Hc0].
  assert (other ≠ r) as Hne by (intros ->; congruence).
  assert (occ r (refreshSubscribers s) = 0) as Hocc.
  { destruct Hinv as (Hb & _). specialize (Hb r). unfold budget in Hb.
    rewrite Hnew in Hb. lia. }
  unfold exchange. rewrite H401. cbn [Transport.call arrives]. rewrite H401.
  match goal with |- context [run s (?a :: ?b :: ?rest)] =>
    change (run s (a :: b :: rest)) with (run (step (step s a) b) rest) end.
  assert (step s (Call r config) = api Sent r config s) as -> by (simpl; by rewrite Hnew).
  assert (on_wire r (api Sent r config s) = true) as Hwire
    by (unfold on_wire, api; simpl; by rewrite lookup_insert_eq).
  cbn [step]. rewrite Hwire.
  unfold on_error. cbn [configs api]. rewrite lookup_insert_eq, Hsent, andb_true_r, H401.
  cbn [isRefreshing api negb andb]. rewrite Hflag.
  match goal with |- context [run ?s2 _] => set (queued := s2) end.
  assert (is_suspended other queued = true) as Hother' by exact Hother.
  destruct retry as [refreshError|accessToken replayed|accessToken replayed|]; try done.
  - cbn [run foldl step]. rewrite Hother'.
    unfold on_refreshed.
    assert (configs queued !! other = Some c0) as ->
      by (unfold queued; simpl; by rewrite !lookup_insert_ne).
    unfold onTokenRefreshed.
    assert (refreshSubscribers queued = refreshSubscribers s ++ [r]) as Hq by done.
    cbn [refreshSubscribers]. rewrite Hq, foldl_app. cbn [foldl].
    match goal with |- context [foldl (subscriber accessToken) ?s1 (refreshSubscribers s)] =>
      destruct (foldl_subscriber accessToken (refreshSubscribers s) s1)
        as ((K1 & K2 & K3 & K4) & _ & _ & _ & Hsame);
      set (sq := foldl (subscriber accessToken) s1 (refreshSubscribers s)) in *
    end.
    destruct (Hsame r Hocc) as [Hphase Hconfig].
    simpl in K1, Hphase, Hconfig. rewrite lookup_insert_ne in Hconfig by done.
    rewrite lookup_insert_eq in Hconfig.
    assert (subscriber accessToken sq r
            = api Replayed r
                (set_header "Authorization" (bearer accessToken)
                   (mark_retry (Gateway.requestInterceptor (localStorage s) config))) sq)
      as -> by (unfold subscriber; by rewrite Hconfig).
    destruct replayed as [a|e2]; cbn [arrives step].
    + unfold on_wire. simpl. rewrite lookup_insert_ne, lookup_insert_eq by done.
      simpl. rewrite lookup_insert_eq. by rewrite K1.
    + unfold on_wire. simpl. rewrite lookup_insert_ne, lookup_insert_eq by done.
      unfold on_error. simpl. rewrite lookup_insert_ne, lookup_insert_eq by done.
      rewrite requestInterceptor_retry. simpl. rewrite andb_false_r.
      unfold reject. simpl. rewrite lookup_insert_eq. by rewrite K1.
  - cbn [run foldl step]. rewrite Hother'.
    unfold on_refresh_failed, reject. simpl.
    rewrite lookup_insert_ne, lookup_insert_eq by done. done.
Qed.

End TransportFacts.

(** ** The login form *)

Lemma login_newErrors_empty fd :
  LoginForm.newErrors fd = ∅ ↔
  (truthy (LoginForm.f_username fd) = true ∨ truthy (LoginForm.f_email fd) = true) ∧
  truthy (LoginForm.f_password fd) = true.
Proof.
  unfold LoginForm.newErrors.
  destruct (truthy (LoginForm.f_username fd)), (truthy (LoginForm.f_email fd)),
    (truthy (LoginForm.f_password fd)); simpl; split; intros H;
    solve [ done | auto
          | exfalso; by apply insert_non_empty in H
          | exfalso; destruct H as [[?|?] ?]; congruence ].
Qed.

Lemma login_validateForm fd :
  LoginForm.validateForm fd = true ↔
  (LoginForm.f_username fd ≠ "" ∨ LoginForm.f_email fd ≠ "") ∧
  LoginForm.f_password fd ≠ "".
Proof.
  unfold LoginForm.validateForm. rewrite Nat.eqb_eq, map_size_empty_iff.
  rewrite login_newErrors_empty, !truthy_true. done.
Qed.

Lemma typed_keeps_email changes fd :
  from_rendered_inputs changes →
  LoginForm.f_email (LoginForm.typed changes fd) = LoginForm.f_email fd.
Proof.
  revert fd. induction changes as [|[name value] changes IH]; intros fd Hall; [done|].
  apply Forall_cons in Hall as [Hname Hall].
  unfold LoginForm.typed in *. simpl. rewrite IH by done.
  simpl in Hname. unfold LoginForm.rendered_inputs in Hname.
  apply elem_of_cons in Hname as [->|Hname]; [done|].
  apply list_elem_of_singleton in Hname as ->. done.
Qed.

(** X13: whatever the user types into the login form, the [email] field
    of the form stays empty, because no input is named [email]: the
    request of a submission never has an [email] (it is [undefined]), the
    text of the "Username or Email" input goes out as [username], and the
    form is valid exactly when that text and the password are not
    empty. *)
Theorem login_form_sends_username (changes : list (string * string)) :
  from_rendered_inputs changes →
  let fd := LoginForm.typed changes LoginForm.initial in
  LoginForm.f_email fd = "" ∧
  LoginForm.c_email (LoginForm.credentials fd) = None ∧
  (LoginForm.validateForm fd = true ↔
     LoginForm.f_username fd ≠ "" ∧ LoginForm.f_password fd ≠ "") ∧
  (LoginForm.validateForm fd = true →
     LoginForm.credentials fd
     = {| LoginForm.c_username := Some (LoginForm.f_username fd);
          LoginForm.c_email := None;
          LoginForm.c_password := LoginForm.f_password fd |}).
Proof.
  intros Hall fd.
  assert (LoginForm.f_email fd = "") as Hemail
    by (unfold fd; by rewrite typed_keeps_email).
  split; [done|]. unfold LoginForm.credentials. rewrite Hemail.
  split; [done|]. rewrite login_validateForm, Hemail. split.
  - split; [intros [[?|?] ?]; done|intros [? ?]; auto].
  - intros [[Hu|?] _]; [|done].
    apply truthy_true in Hu. unfold LoginForm.or_undefined. by rewrite Hu.
Qed.

Lemma typed_email_rendered : from_rendered_inputs typed_email.
Proof. repeat constructor. Qed.

(** An e-mail address typed into the form goes out as the username. *)
Lemma login_form_sends_username_witness :
  LoginForm.credentials (LoginForm.typed typed_email LoginForm.initial)
  = {| LoginForm.c_username := Some "alice@example.org";
       LoginForm.c_email := None;
       LoginForm.c_password := "secret" |}.
Proof.
  destruct (login_form_sends_username typed_email typed_email_rendered)
    as (_ & _ & _ & Hsent).
  exact (Hsent eq_refl).
Defined.

Lemma setStorage_same (c : Session.Client) :
  Session.setStorage (Session.storage c) c = c.
Proof. by destruct c. Qed.

Lemma login_valid_no_errors fd :
  LoginForm.validateForm fd = true → LoginForm.newErrors fd = ∅.
Proof.
  unfold LoginForm.validateForm. rewrite Nat.eqb_eq. apply map_size_empty_iff.
Qed.

(** X14: a submission of the login form.  Without a password, or with
    neither username nor email, it fails validation: nothing is sent, the
    session is untouched, and both the [username] and the [email] key
    carry the message when both are missing.  Otherwise the request goes
    to [/users/login].  When it succeeds the identity is cached, the
    credential stored and the form navigates to the dashboard.  When it
    fails with anything but a 401, it is the only request, the session is
    unchanged, nothing is navigated and the form shows the message of the
    response, or "Login failed" when there is none.  When it is answered
    401 the response interceptor steps in: if its refresh call fails, the
    stored credential is removed, [auth:tokenExpired] is dispatched and
    the form shows the message of the refresh failure, not of the login
    answer; if the request was queued behind a refresh call that fails,
    the submission never settles and the form stays loading. *)
Theorem login_submission
    (server : LoginForm.Credentials → Outcome (User * string))
    (retry : Transport.Retry (User * string))
    (fd : LoginForm.FormState) (loading : bool) (c : Session.Client) :
  let submitted := LoginForm.handleSubmit server retry fd loading c in
  let call := LoginForm.Post "/users/login" (LoginForm.credentials fd) in
  let without_token :=
    Session.setStorage (Storage.removeItem "accessToken" (Session.storage c)) c in
  (LoginForm.validateForm fd = false ↔
     (LoginForm.f_username fd = "" ∧ LoginForm.f_email fd = "") ∨
     LoginForm.f_password fd = "") ∧
  (LoginForm.validateForm fd = false →
     LoginForm.effects submitted = [] ∧ LoginForm.client submitted = c ∧
     LoginForm.isLoading submitted = loading ∧
     (LoginForm.f_username fd = "" → LoginForm.f_email fd = "" →
      LoginForm.errors submitted !! "username" = Some "Username or email is required" ∧
      LoginForm.errors submitted !! "email" = Some "Username or email is required")) ∧
  (LoginForm.validateForm fd = true →
     (∀ u accessToken,
        server (LoginForm.credentials fd) = Resolved (u, accessToken) →
        LoginForm.effects submitted = [call; LoginForm.Push "/dashboard"] ∧
        Session.user (LoginForm.client submitted) = Some u ∧
        Storage.getItem "accessToken" (Session.storage (LoginForm.client submitted))
          = Some accessToken ∧
        LoginForm.isLoading submitted = false) ∧
     (∀ e,
        server (LoginForm.credentials fd) = Thrown e →
        Coordinator.is_401 e = false →
        LoginForm.effects submitted = [call] ∧
        LoginForm.client submitted = c ∧
        LoginForm.errors submitted = {["general" := message_or "Login failed" e]} ∧
        LoginForm.isLoading submitted = false) ∧
     (∀ e refreshError,
        server (LoginForm.credentials fd) = Thrown e →
        Coordinator.is_401 e = true →
        retry = Transport.RefreshFails refreshError →
        LoginForm.effects submitted
        = [call; LoginForm.Api Transport.RefreshCall;
           LoginForm.Api (Transport.Dispatch "auth:tokenExpired")] ∧
        LoginForm.client submitted = without_token ∧
        LoginForm.errors submitted
        = {["general" := message_or "Login failed" refreshError]} ∧
        LoginForm.isLoading submitted = false) ∧
     (∀ e,
        server (LoginForm.credentials fd) = Thrown e →
        Coordinator.is_401 e = true →
        retry = Transport.QueuedDropped →
        LoginForm.effects submitted = [call] ∧
        LoginForm.client submitted = without_token ∧
        LoginForm.errors submitted = ∅ ∧
        LoginForm.isLoading submitted = true)).
Proof.
  simpl. split; [|split].
  - destruct (LoginForm.validateForm fd) eqn:Hv.
    + apply login_validateForm in Hv as [Hu Hp].
      split; [done|]. intros [[? ?]|?]; [destruct Hu|]; done.
    + split; [|done]. intros _.
      destruct (decide (LoginForm.f_password fd = "")) as [|Hp]; [by right|].
      destruct (decide (LoginForm.f_username fd = "")) as [|Hu];
        [|exfalso; assert (LoginForm.validateForm fd = true)
                     by (apply login_validateForm; auto); congruence].
      destruct (decide (LoginForm.f_email fd = "")) as [|He]; [by left|].
      exfalso. assert (LoginForm.validateForm fd = true)
        by (apply login_validateForm; auto). congruence.
  - intros Hv. unfold LoginForm.handleSubmit. rewrite Hv. simpl.
    do 3 (split; [done|]). intros Hu He.
    unfold LoginForm.newErrors. rewrite Hu, He. simpl.
    destruct (truthy (LoginForm.f_password fd)); simpl;
      rewrite ?lookup_insert_eq; repeat (rewrite lookup_insert_ne by done);
      by rewrite ?lookup_insert_eq.
  - intros Hv. pose proof (login_valid_no_errors fd Hv) as Hnone.
    unfold LoginForm.handleSubmit. rewrite Hv. simpl.
    split; [|split; [|split]].
    + intros u accessToken Hs. rewrite Hs. simpl.
      repeat split. apply getItem_setItem.
    + intros e Hs H401. rewrite Hs. unfold Transport.call. rewrite H401. simpl.
      by rewrite setStorage_same.
    + intros e refreshError Hs H401 ->. rewrite Hs. unfold Transport.call.
      rewrite H401. simpl. done.
    + intros e Hs H401 ->. rewrite Hs. unfold Transport.call.
      rewrite H401. simpl. done.
Qed.

(** ** The signup form, again *)

(** X15: a signup that the server refuses.  When the form is complete
    and the call to [/users/register] fails with anything but a 401, the
    one request is all that goes out: nothing is navigated, the session is
    exactly as before, the loading flag is cleared, and the form shows the
    message of the response under [general], or "Signup failed" when the
    failure has no message or an empty one.  When the answer is a 401 the
    response interceptor steps in: if its refresh call fails, the stored
    credential is removed, [auth:tokenExpired] is dispatched and the form
    shows the message of the refresh failure; if the request was queued
    behind a refresh call that fails, the submission never settles and
    the form stays loading. *)
Theorem signup_failure_reported
    (register : SignupForm.FormData → Outcome (User * string))
    (retry : Transport.Retry (User * string))
    (fd : SignupForm.FormState) (loading : bool) (c : Session.Client) (e : AxiosError) :
  SignupForm.all_present fd →
  register (SignupForm.formDataToSend fd) = Thrown e →
  let submitted := SignupForm.handleSubmit register retry fd loading c in
  let call :=
    SignupForm.Post "/users/register" "multipart/form-data" (SignupForm.formDataToSend fd) in
  let without_token :=
    Session.setStorage (Storage.removeItem "accessToken" (Session.storage c)) c in
  (Coordinator.is_401 e = false →
     SignupForm.effects submitted = [call] ∧
     SignupForm.client submitted = c ∧
     SignupForm.isLoading submitted = false ∧
     SignupForm.errors submitted = {["general" := message_or "Signup failed" e]}) ∧
  (∀ refreshError,
     Coordinator.is_401 e = true →
     retry = Transport.RefreshFails refreshError →
     SignupForm.effects submitted
     = [call; SignupForm.Api Transport.RefreshCall;
        SignupForm.Api (Transport.Dispatch "auth:tokenExpired")] ∧
     SignupForm.client submitted = without_token ∧
     SignupForm.isLoading submitted = false ∧
     SignupForm.errors submitted
     = {["general" := message_or "Signup failed" refreshError]}) ∧
  (Coordinator.is_401 e = true →
   retry = Transport.QueuedDropped →
     SignupForm.effects submitted = [call] ∧
     SignupForm.client submitted = without_token ∧
     SignupForm.isLoading submitted = true ∧
     SignupForm.errors submitted = ∅).
Proof.
  intros Hall Hreg. pose proof (all_present_valid fd Hall) as Hv.
  pose proof (proj1 (validateForm_empty fd) Hv) as Hnone.
  unfold SignupForm.handleSubmit. rewrite Hv, Hreg. simpl.
  unfold Transport.call. split; [|split].
  - intros H401. rewrite H401. simpl. by rewrite setStorage_same.
  - intros refreshError H401 ->. rewrite H401. simpl. done.
  - intros H401 ->. rewrite H401. simpl. done.
Qed.

Lemma refuses_complete_form :
  refuses (SignupForm.formDataToSend complete_form)
  = Thrown {| status := Some 409; message := Some "email already exists" |}.
Proof. reflexivity. Qed.

(** A duplicate e-mail address: the answer is a 409. *)
Lemma signup_failure_reported_witness :
  SignupForm.errors
    (SignupForm.handleSubmit refuses Transport.QueuedDropped complete_form false alice_client)
  = {["general" := "email already exists"]} ∧
  SignupForm.client
    (SignupForm.handleSubmit refuses Transport.QueuedDropped complete_form false alice_client)
  = alice_client.
Proof.
  destruct (signup_failure_reported refuses Transport.QueuedDropped complete_form false
              alice_client _ complete_form_present refuses_complete_form)
    as (Hother & _ & _).
  destruct (Hother eq_refl) as (_ & Hclient & _ & Herrors).
  split; [exact Herrors|exact Hclient].
Defined.

Section SignupInputsFacts.

Import SignupForm SignupInputs.

Lemma edit_keeps_avatar c e :
  picked (f_avatar (form c)) = true → picked (f_avatar (form (edit c e))) = true.
Proof.
  intros H. destruct e as [i value|i files]; simpl.
  - by destruct i.
  - destruct files as [|file files]; [done|]. by destruct i.
Qed.

Lemma edit_keeps_cover c e :
  picked (f_coverImage (form c)) = true → picked (f_coverImage (form (edit c e))) = true.
Proof.
  intros H. destruct e as [i value|i files]; simpl.
  - by destruct i.
  - destruct files as [|file files]; [done|]. by destruct i.
Qed.

Lemma text_name_inj i j : text_name i = text_name j → i = j.
Proof. by destruct i, j. Qed.

End SignupInputsFacts.

(** X16: a file once picked cannot be un-picked.  An empty selection
    (the user cancels the dialog) leaves the form as it is, and after any
    sequence of edits an avatar that was picked is still picked and a
    cover image that was picked is still picked, so it is still sent
    with the next submission. *)
Theorem picked_file_stays
    (c : SignupInputs.Cells) (edits : list SignupInputs.Edit) :
  (∀ i, SignupInputs.handleFileChange i [] c = c) ∧
  (SignupForm.picked (SignupForm.f_avatar (SignupInputs.form c)) = true →
   SignupForm.picked
     (SignupForm.f_avatar (SignupInputs.form (foldl SignupInputs.edit c edits))) = true) ∧
  (SignupForm.picked (SignupForm.f_coverImage (SignupInputs.form c)) = true →
   SignupForm.picked
     (SignupForm.f_coverImage (SignupInputs.form (foldl SignupInputs.edit c edits))) = true ∧
   ∃ file, ("coverImage", SignupForm.Blob file)
           ∈ SignupForm.formDataToSend (SignupInputs.form (foldl SignupInputs.edit c edits))).
Proof.
  split; [done|]. split.
  - revert c. induction edits as [|e edits IH]; intros c H; simpl; [done|].
    apply IH. by apply edit_keeps_avatar.
  - intros H.
    assert (SignupForm.picked
              (SignupForm.f_coverImage (SignupInputs.form (foldl SignupInputs.edit c edits)))
            = true) as Hp.
    { revert c H. induction edits as [|e edits IH]; intros c H; simpl; [done|].
      apply IH. by apply edit_keeps_cover. }
    split; [done|].
    unfold SignupForm.formDataToSend.
    destruct (SignupForm.f_coverImage (SignupInputs.form (foldl SignupInputs.edit c edits)))
      as [file|]; [|done].
    exists file. rewrite !elem_of_app. right. right. by apply list_elem_of_singleton.
Qed.

(** X17: which messages an edit hides.  Typing into a text input hides
    the message under that input and no other; picking a file hides
    none, so after a submission without an avatar the message "Avatar is
    required" stays on screen when the avatar is then picked, until the
    next submission. *)
Theorem edit_hides_own_message (c : SignupInputs.Cells) :
  (∀ i value,
     SignupInputs.shown (SignupInputs.text_name i) (SignupInputs.handleChange i value c)
     = None ∧
     ∀ key, key ≠ SignupInputs.text_name i →
            SignupInputs.shown key (SignupInputs.handleChange i value c)
            = SignupInputs.shown key c) ∧
  (∀ i files key,
     SignupInputs.shown key (SignupInputs.handleFileChange i files c)
     = SignupInputs.shown key c) ∧
  (SignupForm.f_avatar (SignupInputs.form c) = None →
   ∀ file,
     let picked := SignupInputs.handleFileChange SignupInputs.Avatar [file]
                     (SignupInputs.validated c) in
     SignupForm.f_avatar (SignupInputs.form picked) = Some file ∧
     SignupInputs.shown "avatar" picked = Some "Avatar is required").
Proof.
  split; [|split].
  - intros i value. unfold SignupInputs.shown, SignupInputs.handleChange. simpl. split.
    + destruct (SignupInputs.errs c !! SignupInputs.text_name i) as [m|] eqn:Hm; simpl.
      * destruct (truthy m) eqn:Ht; [by rewrite lookup_insert_eq|by rewrite Hm, Ht].
      * by rewrite Hm.
    + intros key Hkey.
      destruct (truthy_opt (SignupInputs.errs c !! SignupInputs.text_name i)); [|done].
      by rewrite lookup_insert_ne.
  - intros i files key. by destruct files.
  - intros Hnone file. simpl. split; [done|].
    unfold SignupInputs.shown, SignupInputs.validated. simpl.
    unfold SignupForm.newErrors. rewrite Hnone. simpl.
    by rewrite lookup_insert_eq.
Qed.

(** The form rejected for its missing avatar, then the avatar picked. *)
Lemma edit_hides_own_message_witness :
  SignupInputs.shown "avatar"
    (SignupInputs.handleFileChange SignupInputs.Avatar
       [{| SignupForm.name := "a.png" |}] rejected_cells)
  = Some "Avatar is required".
Proof.
  destruct (edit_hides_own_message
              {| SignupInputs.form := form_without_avatar; SignupInputs.errs := ∅ |})
    as (_ & _ & Hstale).
  destruct (Hstale eq_refl {| SignupForm.name := "a.png" |}) as [_ Hshown].
  exact Hshown.
Defined.

(** ** Strings *)

Lemma append_cons (a : Ascii.ascii) (s t : string) :
  String a s +:+ t = String a (s +:+ t).
Proof. reflexivity. Qed.

Lemma append_nil_l (t : string) : "" +:+ t = t.
Proof. reflexivity. Qed.

Lemma append_nil_r (s : string) : s +:+ "" = s.
Proof.
  induction s as [|a s IH]; [done|]. by rewrite append_cons, IH.
Qed.

Lemma append_assoc (a b c : string) : (a +:+ b) +:+ c = a +:+ (b +:+ c).
Proof.
  induction a as [|x a IH]; [done|]. by rewrite !append_cons, IH.
Qed.

Lemma prefix_append (p s : string) :
  String.prefix p s = true ↔ ∃ post, s = p +:+ post.
Proof.
  revert s. induction p as [|a p IH]; intros s.
  - destruct s; simpl; split; eauto.
  - destruct s as [|b s]; simpl.
    + split; [done|]. by intros [post ?].
    + destruct (Ascii.ascii_dec a b) as [->|Hne].
      * rewrite IH. split; intros [post Hpost]; exists post.
        -- by rewrite append_cons, Hpost.
        -- rewrite append_cons in Hpost. congruence.
      * split; [done|]. intros [post Hpost].
        rewrite append_cons in Hpost. congruence.
Qed.

Lemma includes_substring (p k : string) :
  Cache.includes p k = true ↔ ∃ pre post, k = pre +:+ p +:+ post.
Proof.
  induction k as [|a k IH].
  - change (Cache.includes p "") with (String.prefix p "" || false).
    rewrite orb_false_r, prefix_append. split.
    + intros [post Hpost]. by exists "", post.
    + intros (pre & post & Hk). destruct pre; [by exists post|done].
  - change (Cache.includes p (String a k))
      with (String.prefix p (String a k) || Cache.includes p k).
    rewrite orb_true_iff, prefix_append, IH. split.
    + intros [[post Hpost]|(pre & post & Hk)].
      * by exists "", post.
      * exists (String a pre), post. by rewrite append_cons, Hk.
    + intros (pre & post & Hk). destruct pre as [|b pre].
      * left. by exists post.
      * right. exists pre, post. rewrite append_cons in Hk. congruence.
Qed.

Lemma strip_append (p s rest : string) :
  Cors.strip p s = Some rest ↔ s = p +:+ rest.
Proof.
  revert s. induction p as [|a p IH]; intros s; simpl.
  - rewrite append_nil_l. split; congruence.
  - rewrite append_cons. destruct s as [|b s]; [split; done|].
    destruct (Ascii.eqb_spec a b) as [->|Hne].
    + rewrite IH. split; congruence.
    + split; [done|]. congruence.
Qed.

Lemma truthy_append (a b : string) (c : Ascii.ascii) :
  truthy (a +:+ String c b) = true.
Proof. by destruct a. Qed.

(** ** The response cache *)

(** X18: a response stored by the cache middleware is served from the
    cache while it is fresh.  When a request misses and the handler
    answers with [res.json(body)] at time [at], a request for the same
    URL at any time less than [duration] after [at] gets [body] from the
    cache: the handler's own answer is not used and the cache does not
    change; requests for other URLs see what they saw before. *)
Theorem cache_serves_fresh
    (duration now0 at_ now : Z) (key body : string) (later : option (string * Z))
    (m : gmap string Cache.Entry) :
  Cache.cached duration now0 key m = None →
  (now - at_ < duration)%Z →
  let first := Cache.cache duration now0 key (Some (body, at_)) m in
  snd first = Some body ∧
  Cache.cache duration now key later (fst first) = (fst first, Some body) ∧
  ∀ other, other ≠ key →
           Cache.cached duration now other (fst first) = Cache.cached duration now other m.
Proof.
  intros Hmiss Hfresh. unfold Cache.cache. rewrite Hmiss. simpl.
  split; [done|]. split.
  - unfold Cache.cached, Cache.json. rewrite lookup_insert_eq.
    unfold Cache.fresh. simpl.
    destruct (Z.ltb_spec (now - at_) duration); [done|lia].
  - intros other Hother. unfold Cache.cached, Cache.json.
    by rewrite lookup_insert_ne.
Qed.

(** Five minutes of lifetime; stored at 1000, asked again at 200000. *)
Lemma cache_serves_fresh_witness :
  Cache.cache 300000 200000 "/api/v1/users" (Some ("[bob]", 200050%Z))
    (fst (Cache.cache 300000 990 "/api/v1/users" (Some ("[alice]", 1000%Z)) ∅))
  = (fst (Cache.cache 300000 990 "/api/v1/users" (Some ("[alice]", 1000%Z)) ∅),
     Some "[alice]").
Proof.
  assert (Cache.cached 300000 990 "/api/v1/users" ∅ = None) as Hmiss
    by (vm_compute; reflexivity).
  assert (200000 - 1000 < 300000)%Z as Hfresh by lia.
  destruct (cache_serves_fresh 300000 990 1000 200000 "/api/v1/users" "[alice]"
              (Some ("[bob]", 200050%Z)) ∅ Hmiss Hfresh)
    as (_ & Hhit & _).
  exact Hhit.
Defined.

(** X19: the middleware only ever writes the entry of the request's own
    URL and never removes an entry.  An entry that is [duration] old or
    older is a miss, but it stays in the map: it is replaced when the
    handler answers with [res.json], and it is still there when the
    handler does not. *)
Theorem cache_never_evicts
    (duration now : Z) (key : string) (handler : option (string * Z))
    (m : gmap string Cache.Entry) :
  let m' := fst (Cache.cache duration now key handler m) in
  (∀ k, k ≠ key → m' !! k = m !! k) ∧
  (∀ k, is_Some (m !! k) → is_Some (m' !! k)) ∧
  (∀ e, m !! key = Some e → (duration ≤ now - Cache.timestamp e)%Z →
        Cache.cached duration now key m = None ∧
        m' !! key = match handler with
                    | Some (body, at_) =>
                        Some {| Cache.data := body; Cache.timestamp := at_ |}
                    | None => Some e
                    end).
Proof.
  simpl. unfold Cache.cache.
  split; [|split].
  - intros k Hk. destruct (Cache.cached duration now key m); [done|].
    destruct handler as [[body at_]|]; [|done].
    unfold Cache.json. simpl. by rewrite lookup_insert_ne.
  - intros k Hsome. destruct (Cache.cached duration now key m); [done|].
    destruct handler as [[body at_]|]; [|done].
    unfold Cache.json. simpl. destruct (decide (key = k)) as [->|Hne].
    + rewrite lookup_insert_eq. eauto.
    + by rewrite lookup_insert_ne.
  - intros e He Hold.
    assert (Cache.cached duration now key m = None) as Hmiss.
    { unfold Cache.cached, Cache.fresh. rewrite He.
      destruct (Z.ltb_spec (now - Cache.timestamp e) duration); [lia|done]. }
    rewrite Hmiss. split; [done|].
    destruct handler as [[body at_]|]; simpl; [|done].
    unfold Cache.json. by rewrite lookup_insert_eq.
Qed.

(** X20: what [clearCache] removes.  Without a pattern, or with the
    empty string as pattern, it empties the cache; with a pattern it
    removes exactly the entries whose URL contains the pattern as a
    substring and keeps all others as they are, so every URL that
    contains the pattern misses afterwards. *)
Theorem clearCache_removes_matching (m : gmap string Cache.Entry) :
  Cache.clearCache None m = ∅ ∧
  Cache.clearCache (Some "") m = ∅ ∧
  ∀ pattern, pattern ≠ "" →
    ∀ key,
      (Cache.includes pattern key = true ↔ ∃ pre post, key = pre +:+ pattern +:+ post) ∧
      Cache.clearCache (Some pattern) m !! key
      = (if Cache.includes pattern key then None else m !! key) ∧
      (Cache.includes pattern key = true →
       ∀ duration now,
         Cache.cached duration now key (Cache.clearCache (Some pattern) m) = None).
Proof.
  split; [done|]. split; [done|].
  intros pattern Hp key. apply truthy_true in Hp.
  assert (Cache.clearCache (Some pattern) m !! key
          = (if Cache.includes pattern key then None else m !! key)) as Hlookup.
  { unfold Cache.clearCache. rewrite Hp.
    destruct (Cache.includes pattern key) eqn:Hinc.
    - apply map_lookup_filter_None. right. intros e _. simpl. congruence.
    - destruct (m !! key) as [e|] eqn:He.
      + by apply map_lookup_filter_Some.
      + apply map_lookup_filter_None. by left. }
  split; [apply includes_substring|]. split; [done|].
  intros Hinc duration now. unfold Cache.cached. by rewrite Hlookup, Hinc.
Qed.

(** Clearing ["users"] drops the users entry and keeps the posts. *)
Lemma clearCache_removes_matching_witness :
  Cache.clearCache (Some "users") two_entries !! "/api/v1/users" = None ∧
  Cache.clearCache (Some "users") two_entries !! "/api/v1/posts"
  = Some {| Cache.data := "[hello]"; Cache.timestamp := 2000%Z |}.
Proof.
  destruct (clearCache_removes_matching two_entries) as (_ & _ & Hpattern).
  split.
  - destruct (Hpattern "users" ltac:(discriminate) "/api/v1/users") as (_ & Hlookup & _).
    exact Hlookup.
  - destruct (Hpattern "users" ltac:(discriminate) "/api/v1/posts") as (_ & Hlookup & _).
    exact Hlookup.
Defined.

(** ** The CORS origin check *)

Lemma listed_spec org :
  Cors.listed org = true ↔
  org = "http://localhost:3000" ∨ org = "http://localhost:3001" ∨
  org = "http://127.0.0.1:3000" ∨ org = "http://127.0.0.1:3001".
Proof.
  unfold Cors.listed, Cors.allowedOrigins. simpl.
  rewrite !orb_true_iff, !String.eqb_eq. intuition congruence.
Qed.

Lemma localhost_port_spec org :
  Cors.localhost_port org = true ↔
  ∃ port, port ≠ "" ∧ Cors.all_digits port = true ∧ org = "http://localhost:" +:+ port.
Proof.
  unfold Cors.localhost_port.
  destruct (Cors.strip "http://localhost:" org) as [port|] eqn:Hstrip.
  - apply strip_append in Hstrip. rewrite andb_true_iff, truthy_true. split.
    + intros [? ?]. by exists port.
    + intros (port' & Hne & Hd & Horg).
      assert (port' = port) as -> by (rewrite Hstrip in Horg; by apply (inj _) in Horg).
      done.
  - split; [done|]. intros (port & _ & _ & Horg).
    apply strip_append in Horg. congruence.
Qed.

(** X21: which origins the CORS check lets through.  A request is
    allowed exactly when it has no Origin header (or an empty one), when
    its origin is [http://127.0.0.1:3000] or [http://127.0.0.1:3001], or
    when its origin is [http://localhost:] followed by one or more digits
    and nothing else; every other origin is refused.  (The two
    [localhost] entries of the list are instances of the last case.) *)
Theorem cors_allowed_origins (o : option string) :
  Cors.origin o = true ↔
  o = None ∨ o = Some "" ∨
  o = Some "http://127.0.0.1:3000" ∨ o = Some "http://127.0.0.1:3001" ∨
  ∃ port, port ≠ "" ∧ Cors.all_digits port = true ∧
          o = Some ("http://localhost:" +:+ port).
Proof.
  destruct o as [org|]; simpl; [|split; auto].
  destruct (truthy org) eqn:Ht; simpl.
  - apply truthy_true in Ht.
    destruct (Cors.listed org) eqn:Hl.
    + split; [intros _|done].
      apply listed_spec in Hl as [-> | [-> | [-> | ->]]]; auto.
      * do 4 right. by exists "3000".
      * do 4 right. by exists "3001".
    + destruct (Cors.localhost_port org) eqn:Hp.
      * split; [intros _|done]. apply localhost_port_spec in Hp as (port & ? & ? & ->).
        do 4 right. by exists port.
      * split; [done|].
        intros [Ho|[Ho|[Ho|[Ho|(port & Hne & Hd & Ho)]]]];
          try done; injection Ho as ->; try done.
        assert (Cors.localhost_port ("http://localhost:" +:+ port) = true)
          by (apply localhost_port_spec; by exists port).
        congruence.
  - destruct org; [|done]. split; auto.
Qed.

(** ** The error-handling middleware *)

(** X22: every answer of the error middleware is consistent.  The
    [statusCode] of the body is the HTTP status of the response; a stack
    trace is in the body only when [NODE_ENV] is [development], and it is
    then the stack of the error; and an error that is not an [ApiError]
    is answered with [success: false] and one of the statuses 400, 409,
    401 and 500. *)
Theorem error_response_consistent
    (NODE_ENV : option string) (err : ErrorHandler.Err) (r : ErrorHandler.Response) :
  ErrorHandler.handle NODE_ENV err = Some r →
  ErrorHandler.http_status r = ErrorHandler.statusCode (ErrorHandler.body r) ∧
  (∀ s, ErrorHandler.b_stack (ErrorHandler.body r) = Some s →
        NODE_ENV = Some "development" ∧ s = ErrorHandler.stack err) ∧
  (ErrorHandler.api err = None →
   ErrorHandler.success (ErrorHandler.body r) = false ∧
   ErrorHandler.http_status r ∈ [400; 409; 401; 500]).
Proof.
  assert (∀ s, ErrorHandler.with_stack NODE_ENV err = Some s →
               NODE_ENV = Some "development" ∧ s = ErrorHandler.stack err) as Hstack.
  { intros s. unfold ErrorHandler.with_stack. destruct NODE_ENV as [env|]; [|done].
    destruct (String.eqb_spec env "development") as [->|]; [|done].
    by intros [= <-]. }
  unfold ErrorHandler.handle.
  destruct (ErrorHandler.api err) as [a|].
  { intros [= <-]. simpl. split; [done|]. split; [exact Hstack|done]. }
  destruct (String.eqb (ErrorHandler.name err) "ValidationError").
  { destruct (ErrorHandler.validation err); [|done]. intros [= <-]. simpl.
    split; [done|]. split; [done|]. intros _. split; [done|]. rewrite !elem_of_cons; auto 6. }
  destruct (bool_decide (ErrorHandler.code err = Some 11000%Z)).
  { destruct (ErrorHandler.keys err); [|done]. intros [= <-]. simpl.
    split; [done|]. split; [done|]. intros _. split; [done|]. rewrite !elem_of_cons; auto 6. }
  destruct (String.eqb (ErrorHandler.name err) "JsonWebTokenError").
  { intros [= <-]. simpl.
    split; [done|]. split; [done|]. intros _. split; [done|]. rewrite !elem_of_cons; auto 6. }
  destruct (String.eqb (ErrorHandler.name err) "TokenExpiredError").
  { intros [= <-]. simpl.
    split; [done|]. split; [done|]. intros _. split; [done|]. rewrite !elem_of_cons; auto 6. }
  intros [= <-]. simpl.
  split; [done|]. split; [exact Hstack|]. intros _. split; [done|]. rewrite !elem_of_cons; auto 6.
Qed.

(** A refused database connection, with [NODE_ENV] unset. *)
Lemma error_response_consistent_witness :
  ∃ r, ErrorHandler.handle None (plain_error "connect ECONNREFUSED") = Some r ∧
       ErrorHandler.http_status r = 500 ∧
       ErrorHandler.statusCode (ErrorHandler.body r) = 500.
Proof.
  eexists. split; [reflexivity|].
  destruct (error_response_consistent None (plain_error "connect ECONNREFUSED") _ eq_refl)
    as (Hstatus & _ & _).
  split; [reflexivity|]. rewrite <- Hstatus. reflexivity.
Defined.

(** X23: in production the answer to an error that is not an [ApiError]
    does not depend on the error's message or stack: two such errors
    with the same name, code, validation messages and duplicate keys get
    the same answer.  Outside production (also with [NODE_ENV] unset) an
    error that none of the special cases takes is answered with its own
    message. *)
Theorem production_hides_message (e1 e2 : ErrorHandler.Err) :
  ErrorHandler.api e1 = None →
  same_but_message e1 e2 →
  ErrorHandler.handle (Some "production") e1 = ErrorHandler.handle (Some "production") e2 ∧
  (unclassified e1 →
   ∀ env, env ≠ Some "production" →
          ∃ r, ErrorHandler.handle env e1 = Some r ∧
               ErrorHandler.http_status r = 500 ∧
               ErrorHandler.b_message (ErrorHandler.body r) = ErrorHandler.message e1).
Proof.
  intros Hapi (Ha & Hn & Hc & Hv & Hk). split.
  - unfold ErrorHandler.handle. rewrite <- Ha, <- Hn, <- Hc, <- Hv, <- Hk, Hapi.
    done.
  - intros (_ & Hval & Hcode & Hjwt & Hexp) env Henv.
    unfold ErrorHandler.handle. rewrite Hapi.
    destruct (String.eqb_spec (ErrorHandler.name e1) "ValidationError"); [done|].
    rewrite (bool_decide_eq_false_2 _ Hcode).
    destruct (String.eqb_spec (ErrorHandler.name e1) "JsonWebTokenError"); [done|].
    destruct (String.eqb_spec (ErrorHandler.name e1) "TokenExpiredError"); [done|].
    eexists. split; [reflexivity|]. simpl.
    by rewrite (bool_decide_eq_false_2 _ Henv).
Qed.

(** Two refused connections to different hosts. *)
Lemma production_hides_message_witness :
  ErrorHandler.handle (Some "production") (plain_error "connect ECONNREFUSED 10.0.0.5:27017")
  = ErrorHandler.handle (Some "production") (plain_error "connect ECONNREFUSED 10.0.0.9:27017").
Proof.
  apply (production_hides_message
           (plain_error "connect ECONNREFUSED 10.0.0.5:27017")
           (plain_error "connect ECONNREFUSED 10.0.0.9:27017")).
  - reflexivity.
  - repeat split.
Defined.

(** ** The database connection *)

(** X24: the guard of [databaseConnection] never fires.  The connection
    string is a template literal with a slash in it, so it is never
    empty: whatever the environment holds, the function goes on to
    [mongoose.connect] and fails only if that call fails; with
    [MONGODB_URI] unset it connects to [undefined/<name>]. *)
Theorem databaseConnection_guard_dead
    (MONGODB_URI : option string) (DATABASE_NAME : string)
    (connect : string → option string) :
  Database.databaseConnection MONGODB_URI DATABASE_NAME connect
  = connect (Database.connectionString MONGODB_URI DATABASE_NAME) ∧
  Database.databaseConnection None DATABASE_NAME connect
  = connect ("undefined/" +:+ DATABASE_NAME).
Proof.
  assert (∀ uri, Database.databaseConnection uri DATABASE_NAME connect
                 = connect (Database.connectionString uri DATABASE_NAME)) as Hdead.
  { intros uri. unfold Database.databaseConnection, Database.connectionString.
    change ("/" +:+ DATABASE_NAME) with (String "/"%char DATABASE_NAME).
    by rewrite truthy_append. }
  split; [apply Hdead|]. by rewrite Hdead.
Qed.

(** ** The JSON extraction of [generateContent] *)

Lemma occurs_append (c : Ascii.ascii) (a b : string) :
  occurs c (a +:+ b) = occurs c a || occurs c b.
Proof.
  induction a as [|x a IH]; [done|].
  rewrite append_cons. simpl. by rewrite IH, orb_assoc.
Qed.

Lemma from_open_None (text : string) :
  Content.from_open text = None ↔ occurs "{"%char text = false.
Proof.
  induction text as [|c text IH]; [done|]. simpl.
  destruct (Ascii.eqb c "{"%char); [done|]. by rewrite IH.
Qed.

Lemma from_open_Some (text s : string) :
  Content.from_open text = Some s ↔
  ∃ pre rest, text = pre +:+ s ∧ s = String "{"%char rest ∧ occurs "{"%char pre = false.
Proof.
  induction text as [|c text IH].
  - split; [done|]. intros (pre & rest & Ht & -> & _). by destruct pre.
  - simpl. destruct (Ascii.eqb_spec c "{"%char) as [->|Hc].
    + split.
      * intros [= <-]. by exists "", text.
      * intros (pre & rest & Ht & -> & Hpre). destruct pre as [|b pre].
        -- rewrite append_nil_l in Ht. congruence.
        -- rewrite append_cons in Ht. injection Ht as <- _.
           simpl in Hpre. done.
    + rewrite IH. split.
      * intros (pre & rest & -> & -> & Hpre). exists (String c pre), rest.
        rewrite append_cons. split; [done|]. split; [done|]. simpl.
        rewrite Hpre, orb_false_r. by apply Ascii.eqb_neq.
      * intros (pre & rest & Ht & -> & Hpre). destruct pre as [|b pre].
        -- rewrite append_nil_l in Ht. congruence.
        -- rewrite append_cons in Ht. injection Ht as <- ->.
           simpl in Hpre. apply orb_false_iff in Hpre as [_ Hpre].
           by exists pre, rest.
Qed.

Lemma to_close_None (s : string) :
  Content.to_close s = None ↔ occurs "}"%char s = false.
Proof.
  induction s as [|c s IH]; [done|]. simpl.
  destruct (Content.to_close s) as [t|].
  - split; [done|]. intros [_ Hs]%orb_false_iff. apply IH in Hs. done.
  - destruct (Ascii.eqb c "}"%char); [done|]. simpl. by rewrite <- IH.
Qed.

Lemma to_close_Some (s : string) :
  ∀ t, Content.to_close s = Some t ↔
       ∃ u post, t = u +:+ "}" ∧ s = t +:+ post ∧ occurs "}"%char post = false.
Proof.
  induction s as [|c s IH]; intros t.
  - split; [done|]. intros (u & post & -> & Hs & _). by destruct u.
  - simpl. destruct (Content.to_close s) as [t'|] eqn:Hs.
    + split.
      * intros [= <-].
        destruct (proj1 (IH t') eq_refl) as (u & post & -> & -> & Hpost).
        exists (String c u), post. by rewrite !append_cons.
      * intros (u & post & -> & Ht & Hpost). destruct u as [|b u].
        -- rewrite append_nil_l, append_cons, append_nil_l in Ht.
           injection Ht as _ ->.
           apply to_close_None in Hpost. congruence.
        -- rewrite !append_cons in Ht. injection Ht as <- Ht.
           rewrite append_cons.
           assert (Some t' = Some (u +:+ "}")) as Hs'
             by (apply IH; by exists u, post).
           congruence.
    + apply to_close_None in Hs.
      assert (∀ u post, s ≠ (u +:+ "}") +:+ post) as Hno.
      { intros u post ->. rewrite !occurs_append in Hs. simpl in Hs.
        by rewrite orb_true_r in Hs. }
      destruct (Ascii.eqb_spec c "}"%char) as [->|Hc].
      * split.
        -- intros [= <-]. by exists "", s.
        -- intros (u & post & -> & Ht & _). destruct u as [|b u]; [done|].
           rewrite !append_cons in Ht. injection Ht as _ Ht. by apply Hno in Ht.
      * split; [done|].
        intros (u & post & -> & Ht & _). destruct u as [|b u].
        -- rewrite append_nil_l, append_cons in Ht. congruence.
        -- rewrite !append_cons in Ht. injection Ht as _ Ht. by apply Hno in Ht.
Qed.

(** X25: the text that [generateContent] hands to [JSON.parse] is the
    span from the first opening brace of the model's answer to its last
    closing brace: whatever comes before the first [{] and after the
    last [}] is dropped, and every brace between them stays in. *)
Theorem jsonMatch_span (text m : string) :
  Content.jsonMatch text = Some m ↔
  ∃ pre inner post,
    text = pre +:+ m +:+ post ∧
    m = "{" +:+ inner +:+ "}" ∧
    occurs "{"%char pre = false ∧
    occurs "}"%char post = false.
Proof.
  unfold Content.jsonMatch. split.
  - destruct (Content.from_open text) as [s|] eqn:Hopen; [|done].
    intros Hclose.
    apply from_open_Some in Hopen as (pre & rest & -> & -> & Hpre).
    apply to_close_Some in Hclose as (u & post & -> & Hs & Hpost).
    destruct u as [|b u].
    + rewrite append_nil_l, append_cons in Hs. congruence.
    + rewrite !append_cons in Hs. injection Hs as <- Hs.
      exists pre, u, post. rewrite Hs. rewrite !append_cons. done.
  - intros (pre & inner & post & -> & -> & Hpre & Hpost).
    change ("{" +:+ inner +:+ "}") with (String "{"%char inner +:+ "}").
    assert (Content.from_open (pre +:+ (String "{"%char inner +:+ "}") +:+ post)
            = Some ((String "{"%char inner +:+ "}") +:+ post)) as ->.
    { apply from_open_Some. exists pre, ((inner +:+ "}") +:+ post).
      by rewrite !append_cons. }
    apply to_close_Some. by exists (String "{"%char inner), post.
Qed.

(** X26: how [generateContent] fails.  An answer without an opening
    brace is reported as [No JSON found]; an answer with an opening
    brace and no closing brace after the first one is reported as
    truncated; in both cases, and when [JSON.parse] rejects the span, the
    error is caught by the function itself, which then returns
    [undefined] like when the model call fails. *)
Theorem generateContent_failures
    (Json : Type) (parse : string → option Json) (text : string) :
  (Content.extract Json parse text = inl Content.NoJson ↔ occurs "{"%char text = false) ∧
  (Content.extract Json parse text = inl Content.Truncated ↔
   ∃ pre rest, text = pre +:+ "{" +:+ rest ∧
               occurs "{"%char pre = false ∧ occurs "}"%char rest = false) ∧
  (∀ f, Content.extract Json parse text = inl f →
        Content.generateContent Json parse (Some text) = None) ∧
  Content.generateContent Json parse None = None.
Proof.
  split; [|split; [|split]].
  - rewrite <- from_open_None. unfold Content.extract, Content.jsonMatch.
    destruct (Content.from_open text) as [s|]; [|done].
    destruct (Content.to_close s) as [m|]; [|done].
    destruct (parse m); done.
  - unfold Content.extract, Content.jsonMatch.
    destruct (Content.from_open text) as [s|] eqn:Hopen.
    + apply from_open_Some in Hopen as (pre & rest & -> & -> & Hpre).
      destruct (Content.to_close (String "{"%char rest)) as [m|] eqn:Hclose.
      * split; [by destruct (parse m)|].
        intros (pre' & rest' & Ht & Hpre' & Hrest').
        assert (Content.from_open (pre +:+ String "{"%char rest)
                = Some (String "{"%char rest')) as Hopen'.
        { rewrite Ht. apply from_open_Some. by exists pre', rest'. }
        assert (Content.from_open (pre +:+ String "{"%char rest)
                = Some (String "{"%char rest)) as Hopen.
        { apply from_open_Some. by exists pre, rest. }
        assert (rest' = rest) as -> by congruence.
        assert (Content.to_close (String "{"%char rest) = None) as Hnone.
        { apply to_close_None. simpl. by rewrite Hrest'. }
        congruence.
      * split; [intros _|done]. exists pre, rest.
        apply to_close_None in Hclose. by simpl in Hclose.
    + split; [done|]. intros (pre & rest & -> & Hpre & _).
      apply from_open_None in Hopen. rewrite occurs_append in Hopen.
      simpl in Hopen. by rewrite orb_true_r in Hopen.
  - intros f Hf. unfold Content.generateContent. by rewrite Hf.
  - done.
Qed.
